(** * A shallow embedding of the catalog and reconciliation engine of
    usbackup_gphotos (package [usbackup_gphotos]).

    Conventions of the embedding:
    - a SQLite connection is a pair of databases: [working], what the
      connection itself reads and writes (uncommitted changes included),
      and [committed], what is durable;
    - [Storage.execute(query, params, commit=...)] runs the statement on
      [working] and, in its [finally] clause, copies [working] to
      [committed] when [commit] is true;
    - Python code runs in the monad [M]: state passing with exceptions that
      keep the side effects done before the raise;
    - a timestamp ['%Y-%m-%d %H:%M:%S'] is a [nat] (the fixed-width string
      format orders the same way as time); [datetime.now()] reads the
      [clock] of the state;
    - the filesystem is the list of existing file paths and directories. *)

From Stdlib Require Import String List Arith Lia Bool Ascii Permutation.
Import ListNotations.
Open Scope string_scope.
Open Scope list_scope.

(* ------------------------------------------------------------------ *)
(** ** Python exceptions and the effect monad *)

Inductive exn : Type :=
| TypeError (msg : string)
| ValueError (msg : string)
| ProgrammingError (msg : string)   (* sqlite3: missing binding *)
| IntegrityError (msg : string)     (* sqlite3: constraint failed *)
| OSError (msg : string)
| GPhotosApiException (msg : string).

(** Python truthiness of an optional string argument ([None] or [""]). *)
Definition truthy (s : option string) : bool :=
  match s with
  | None => false
  | Some x => negb (String.eqb x "")
  end.

(** A [last_checked: str = None] argument: [None], the empty string, or a
    formatted date. *)
Inductive date_arg : Type :=
| ArgNone
| ArgEmpty
| ArgDate (t : nat).

(** [if last_checked: where.append(...)]: the condition is kept only when
    the argument is truthy. *)
Definition date_cond (a : date_arg) : option nat :=
  match a with
  | ArgDate t => Some t
  | _ => None
  end.

Definition mem_str (x : string) (l : list string) : bool :=
  existsb (String.eqb x) l.

(** ** Rows of the three entity tables and the settings table *)

Record media_row : Type := MediaRow {
  media_id : nat;
  remote_id : string;
  name : string;
  cname : string;
  mime_type : string;
  create_date : string;
  modify_date : string;
  path : string;
  index_date : nat;
  last_checked : nat;
  status : string
}.

Record album_row : Type := AlbumRow {
  album_id : nat;
  a_remote_id : string;
  a_name : string;
  a_cname : string;
  a_size : nat;
  a_cover_photo_id : string;
  a_path : string;
  a_index_date : nat;
  a_last_checked : nat;
  a_status : string
}.

Record album_item_row : Type := AlbumItemRow {
  album_item_id : nat;
  ai_album_id : nat;
  ai_media_id : nat;
  ai_status : string
}.

Record db : Type := DB {
  media_items : list media_row;
  albums : list album_row;
  albums_items : list album_item_row;
  (* the settings table; the watermark values are timestamps (the
     token_hash entry of the auth collaborator is not modelled) *)
  settings : list (string * nat);
  (* sqlite_sequence of the AUTOINCREMENT keys *)
  seq_media : nat;
  seq_album : nat;
  seq_album_item : nat
}.

(** The filesystem: existing regular files (or links to one) with their
    modification time, and directories, each given by its full path. *)
Record fs_state : Type := FS {
  files : list (string * nat);
  dirs : list string
}.

(** [os.path.isfile(p)] and [os.path.isdir(p)] *)
Definition isfile (p : string) (f : fs_state) : bool :=
  existsb (fun e => String.eqb (fst e) p) (files f).
Definition isdir (p : string) (f : fs_state) : bool :=
  existsb (String.eqb p) (dirs f).

Record st : Type := St {
  working : db;
  committed : db;
  fs : fs_state;
  clock : nat
}.

Definition M (A : Type) : Type := st -> (exn + A) * st.

Definition ret {A} (a : A) : M A := fun s => (inr a, s).
Definition raise {A} (e : exn) : M A := fun s => (inl e, s).
Definition bind {A B} (m : M A) (k : A -> M B) : M B :=
  fun s => match m s with
           | (inl e, s') => (inl e, s')
           | (inr a, s') => k a s'
           end.

Notation "x <- m ;; k" := (bind m (fun x => k))
  (at level 61, m at next level, right associativity).
Notation "m ;;; k" := (bind m (fun _ => k))
  (at level 61, right associativity).
Notation "m ;;= k" := (bind m k)
  (at level 61, right associativity).

(** [try: m except Exception as e: h e] *)
Definition try_except {A} (m : M A) (h : exn -> M A) : M A :=
  fun s => match m s with
           | (inl e, s') => h e s'
           | r => r
           end.

Definition get : M st := fun s => (inr s, s).
Definition put (s : st) : M unit := fun _ => (inr tt, s).

(** [datetime.now().strftime('%Y-%m-%d %H:%M:%S')] *)
Definition now : M nat := fun s => (inr (clock s), s).

(** [raise ValueError(...)] when the condition holds. *)
Definition raise_if (b : bool) (e : exn) : M unit :=
  if b then raise e else ret tt.

(* ------------------------------------------------------------------ *)
(** ** Storage *)

(** A statement: a transformation of the working database which may be
    refused by SQLite (constraint, missing binding), returning the value of
    [cursor.rowcount] / [cursor.lastrowid] / a fetched result. *)
Definition stmt (A : Type) : Type := db -> exn + (A * db).

(** [Storage.execute(query, params, commit=commit)] used as a context
    manager: run the statement; in the [finally] clause commit the
    connection when [commit] is true, whether the statement raised or not. *)
Definition execute {A} (q : stmt A) (commit : bool) : M A :=
  fun s =>
    match q (working s) with
    | inl e =>
        (inl e, if commit then {| working := working s; committed := working s;
                                  fs := fs s; clock := clock s |} else s)
    | inr (a, w') =>
        (inr a, {| working := w'; committed := if commit then w' else committed s;
                   fs := fs s; clock := clock s |})
    end.

(** [Storage.commit()] *)
Definition storage_commit : M unit :=
  fun s => (inr tt, {| working := working s; committed := working s;
                       fs := fs s; clock := clock s |}).

(** Named-parameter binding of [sqlite3]: every [:name] of the query must be
    a key of the placeholders dict, otherwise [ProgrammingError]. *)
Definition bind_params (needed given : list string) : option exn :=
  match filter (fun p => negb (mem_str p given)) needed with
  | [] => None
  | p :: _ => Some (ProgrammingError ("You did not supply a value for binding parameter :" ++ p))
  end.

(** Arguments of [gen_in_condition]: a status string or list ([IN]), or a
    tuple [('not', [...])] ([NOT IN]). *)
Definition in_condition (neg : bool) (vals : list string) (x : string) : bool :=
  if neg then negb (mem_str x vals) else mem_str x vals.

(** [LIMIT :limit OFFSET :offset] *)
Definition limit_offset {A} (limit offset : nat) (l : list A) : list A :=
  firstn limit (skipn offset l).

(** Values of the keyword arguments of the [update_*_meta] functions. *)
Inductive kwval : Type :=
| KStr (s : string)
| KTime (t : nat).

(** [Storage.gen_in_condition(field, data, placeholders)]: [data] is a
    status string or list ([IN]) or a tuple [('not', [...])] ([NOT IN]);
    [extra_kwargs] are keyword arguments given beyond the signature, which
    Python refuses with [TypeError] before the body runs. *)
Definition gen_in_condition (neg : bool) (vals : list string) (extra_kwargs : list string)
  : exn + (bool * list string) :=
  match extra_kwargs with
  | [] => inr (neg, vals)
  | k :: _ => inl (TypeError ("gen_in_condition() got an unexpected keyword argument '" ++ k ++ "'"))
  end.

(* ------------------------------------------------------------------ *)
(** ** MediaItemsModel *)
Module MediaItemsModel.

Definition item_statuses : list string :=
  ["pending_sync"; "sync_error"; "synced"; "stale"; "ignored"].

Definition set_status (s : string) (r : media_row) : media_row :=
  {| media_id := media_id r; remote_id := remote_id r; name := name r;
     cname := cname r; mime_type := mime_type r; create_date := create_date r;
     modify_date := modify_date r; path := path r; index_date := index_date r;
     last_checked := last_checked r; status := s |}.

Definition set_last_checked (t : nat) (r : media_row) : media_row :=
  {| media_id := media_id r; remote_id := remote_id r; name := name r;
     cname := cname r; mime_type := mime_type r; create_date := create_date r;
     modify_date := modify_date r; path := path r; index_date := index_date r;
     last_checked := t; status := status r |}.

Definition with_media_items (d : db) (l : list media_row) : db :=
  {| media_items := l; albums := albums d; albums_items := albums_items d;
     settings := settings d; seq_media := seq_media d; seq_album := seq_album d;
     seq_album_item := seq_album_item d |}.

(** The WHERE clause of [set_media_items_stale]: ['1=1'] and, when
    [last_checked] is truthy, ['last_checked<:last_checked']. *)
Definition stale_where (cutoff : option nat) (r : media_row) : bool :=
  match cutoff with
  | None => true
  | Some c => Nat.ltb (last_checked r) c
  end.

(** [UPDATE media_items SET status='stale' WHERE ...]; [rowcount] is the
    number of matched rows. *)
Definition set_stale_stmt (cutoff : option nat) : stmt nat :=
  fun d =>
    inr (length (filter (stale_where cutoff) (media_items d)),
         with_media_items d
           (map (fun r => if stale_where cutoff r then set_status "stale" r else r)
                (media_items d))).

(** [ORDER BY media_id ASC]: insertion by key. *)
Fixpoint insert_by_id (r : media_row) (l : list media_row) : list media_row :=
  match l with
  | [] => [r]
  | x :: l' => if Nat.leb (media_id r) (media_id x) then r :: l else x :: insert_by_id r l'
  end.

Definition sort_by_id (l : list media_row) : list media_row :=
  fold_right insert_by_id [] l.

(** [get_media_item_meta(media_id=..., remote_id=...)]; [None] stands for
    the empty dict returned when no row matches. *)
Definition get_media_item_meta (mid : nat) (rid : string) : M (option media_row) :=
  if andb (Nat.eqb mid 0) (String.eqb rid "")
  then raise (ValueError "Missing media_id or remote_id")
  else execute (fun d =>
         inr (find (fun r => if Nat.eqb mid 0 then String.eqb (remote_id r) rid
                             else Nat.eqb (media_id r) mid) (media_items d), d)) true.

(** The WHERE clause of [search_media_items_meta]. *)
Definition search_where (cn pth : string) (st_filter : option (bool * list string))
  (r : media_row) : bool :=
  (if String.eqb cn "" then true else String.eqb (cname r) cn) &&
  (if String.eqb pth "" then true else String.eqb (path r) pth) &&
  match st_filter with
  | None | Some (_, []) => true
  | Some (neg, vals) => in_condition neg vals (status r)
  end.

(** [search_media_items_meta(limit, offset, cname, path, status)] *)
Definition search_media_items_meta (limit offset : nat) (cn pth : string)
  (st_filter : option (bool * list string)) : M (list media_row) :=
  execute (fun d =>
    inr (limit_offset limit offset
           (sort_by_id (filter (search_where cn pth st_filter) (media_items d))), d)) true.

(** [get_media_items_meta_cnt(status=...)] *)
Definition get_media_items_meta_cnt (st_filter : option (bool * list string)) : M nat :=
  execute (fun d => inr (length (filter (search_where "" "" st_filter) (media_items d)), d)) true.

Definition apply_field (r : media_row) (kv : string * kwval) : exn + media_row :=
  match kv with
  | ("status", KStr s) =>
      if mem_str s item_statuses then inr (set_status s r)
      else inl (IntegrityError "CHECK constraint failed")
  | ("last_checked", KTime t) => inr (set_last_checked t r)
  | ("index_date", KTime t) =>
      inr {| media_id := media_id r; remote_id := remote_id r; name := name r;
             cname := cname r; mime_type := mime_type r; create_date := create_date r;
             modify_date := modify_date r; path := path r; index_date := t;
             last_checked := last_checked r; status := status r |}
  | _ => inl (IntegrityError "datatype mismatch")
  end.

Fixpoint apply_fields (r : media_row) (kw : list (string * kwval)) : exn + media_row :=
  match kw with
  | [] => inr r
  | kv :: kw' => match apply_field r kv with
                 | inl e => inl e
                 | inr r' => apply_fields r' kw'
                 end
  end.

Fixpoint update_rows (mid : nat) (kw : list (string * kwval)) (l : list media_row)
  : exn + (nat * list media_row) :=
  match l with
  | [] => inr (0, [])
  | r :: l' =>
      if Nat.eqb (media_id r) mid then
        match apply_fields r kw with
        | inl e => inl e
        | inr r' => inr (1, r' :: l')          (* LIMIT 1 *)
        end
      else match update_rows mid kw l' with
           | inl e => inl e
           | inr (n, l'') => inr (n, r :: l'')
           end
  end.

Definition kw_status (kw : list (string * kwval)) : option kwval :=
  option_map snd (find (fun kv => String.eqb (fst kv) "status") kw).

(** [update_media_item_meta(media_id, **kwargs)]: validation of the keys and
    of the status, then [UPDATE ... LIMIT 1] with [commit=False]. *)
Definition update_media_item_meta (mid : nat) (kw : list (string * kwval)) : M nat :=
  raise_if (Nat.eqb mid 0) (ValueError "Missing media_id") ;;;
  raise_if (negb (forallb (fun kv => mem_str (fst kv) ["index_date"; "last_checked"; "status"]) kw))
    (ValueError "Invalid key") ;;;
  raise_if (match kw_status kw with
            | Some (KStr s) => negb (mem_str s item_statuses)
            | Some (KTime _) => true
            | None => false
            end) (ValueError "Invalid status") ;;;
  execute (fun d => match update_rows mid kw (media_items d) with
                    | inl e => inl e
                    | inr (n, l) => inr (n, with_media_items d l)
                    end) false.

(** The values bound by [add_media_item_meta]. *)
Record media_insert : Type := MediaInsert {
  i_remote_id : string; i_name : string; i_cname : string; i_mime_type : string;
  i_create_date : string; i_modify_date : string; i_path : string;
  i_index_date : nat; i_last_checked : nat
}.

(** [INSERT INTO media_items (...) VALUES (...) ON CONFLICT (remote_id) DO
    UPDATE SET index_date, last_checked, status]; [status] is [NOT NULL]
    and [CHECK]ed against the statuses. *)
Definition upsert_stmt (v : media_insert) (status_v : option string) : stmt nat :=
  fun d =>
    match status_v with
    | None => inl (IntegrityError "NOT NULL constraint failed: media_items.status")
    | Some s =>
      if negb (mem_str s item_statuses) then inl (IntegrityError "CHECK constraint failed")
      else
      match find (fun r => String.eqb (remote_id r) (i_remote_id v)) (media_items d) with
      | Some old =>
          inr (media_id old, with_media_items d
            (map (fun r => if String.eqb (remote_id r) (i_remote_id v) then
                    {| media_id := media_id r; remote_id := remote_id r; name := name r;
                       cname := cname r; mime_type := mime_type r;
                       create_date := create_date r; modify_date := modify_date r;
                       path := path r; index_date := i_index_date v;
                       last_checked := i_last_checked v; status := s |}
                  else r) (media_items d)))
      | None =>
          let id := S (seq_media d) in
          inr (id, {| media_items := media_items d ++
                        [{| media_id := id; remote_id := i_remote_id v; name := i_name v;
                            cname := i_cname v; mime_type := i_mime_type v;
                            create_date := i_create_date v; modify_date := i_modify_date v;
                            path := i_path v; index_date := i_index_date v;
                            last_checked := i_last_checked v; status := s |}];
                      albums := albums d; albums_items := albums_items d;
                      settings := settings d; seq_media := id; seq_album := seq_album d;
                      seq_album_item := seq_album_item d |})
      end
    end.

(** [add_media_item_meta(...)]: the status check guards only a truthy
    status; the statement runs through [execute] with its default
    [commit=True]. *)
Definition add_media_item_meta (v : media_insert) (status_v : option string) : M nat :=
  raise_if (andb (truthy status_v)
                 (match status_v with Some s => negb (mem_str s item_statuses) | None => false end))
    (ValueError "Invalid status") ;;;
  execute (upsert_stmt v status_v) true.

(** [set_media_items_stale(last_checked=...)]. *)
Definition set_media_items_stale (last_checked : date_arg) : M nat :=
  execute (set_stale_stmt (date_cond last_checked)) true.

(** [reset_ignored_media_items()]: [UPDATE media_items SET
    status='pending_sync' WHERE status='ignored'] with the default
    [commit=True]. *)
Definition reset_ignored_media_items : M nat :=
  execute (fun d =>
    inr (length (filter (fun r => String.eqb (status r) "ignored") (media_items d)),
         with_media_items d
           (map (fun r => if String.eqb (status r) "ignored" then set_status "pending_sync" r else r)
                (media_items d)))) true.

(** [delete_media_item_meta(media_id)]: [DELETE FROM media_items WHERE
    media_id=:media_id] with [commit=False]. *)
Definition delete_media_item_meta (mid : nat) : M nat :=
  raise_if (Nat.eqb mid 0) (ValueError "Missing media_id") ;;;
  execute (fun d =>
    inr (length (filter (fun r => Nat.eqb (media_id r) mid) (media_items d)),
         with_media_items d (filter (fun r => negb (Nat.eqb (media_id r) mid)) (media_items d))))
    false.

End MediaItemsModel.

(* ------------------------------------------------------------------ *)
(** ** AlbumsModel *)
Module AlbumsModel.

Definition album_statuses : list string := ["indexed"; "stale"; "index_error"].
Definition item_statuses : list string :=
  ["pending_sync"; "sync_error"; "synced"; "stale"; "ignored"].

Definition set_a_status (s : string) (r : album_row) : album_row :=
  {| album_id := album_id r; a_remote_id := a_remote_id r; a_name := a_name r;
     a_cname := a_cname r; a_size := a_size r; a_cover_photo_id := a_cover_photo_id r;
     a_path := a_path r; a_index_date := a_index_date r;
     a_last_checked := a_last_checked r; a_status := s |}.

Definition set_a_last_checked (t : nat) (r : album_row) : album_row :=
  {| album_id := album_id r; a_remote_id := a_remote_id r; a_name := a_name r;
     a_cname := a_cname r; a_size := a_size r; a_cover_photo_id := a_cover_photo_id r;
     a_path := a_path r; a_index_date := a_index_date r;
     a_last_checked := t; a_status := a_status r |}.

Definition set_ai_status (s : string) (r : album_item_row) : album_item_row :=
  {| album_item_id := album_item_id r; ai_album_id := ai_album_id r;
     ai_media_id := ai_media_id r; ai_status := s |}.

Definition with_albums (d : db) (l : list album_row) : db :=
  {| media_items := media_items d; albums := l; albums_items := albums_items d;
     settings := settings d; seq_media := seq_media d; seq_album := seq_album d;
     seq_album_item := seq_album_item d |}.

Definition with_albums_items (d : db) (l : list album_item_row) : db :=
  {| media_items := media_items d; albums := albums d; albums_items := l;
     settings := settings d; seq_media := seq_media d; seq_album := seq_album d;
     seq_album_item := seq_album_item d |}.

Definition stale_where (cutoff : option nat) (r : album_row) : bool :=
  match cutoff with
  | None => true
  | Some c => Nat.ltb (a_last_checked r) c
  end.

(** [UPDATE albums SET status='stale' WHERE 1=1 [AND last_checked<:last_checked]] *)
Definition set_stale_stmt (cutoff : option nat) : stmt nat :=
  fun d =>
    inr (length (filter (stale_where cutoff) (albums d)),
         with_albums d
           (map (fun r => if stale_where cutoff r then set_a_status "stale" r else r)
                (albums d))).

(** Insertion sort for the [ORDER BY] clauses. *)
Fixpoint insert_le {A} (le : A -> A -> bool) (x : A) (l : list A) : list A :=
  match l with
  | [] => [x]
  | y :: l' => if le x y then x :: l else y :: insert_le le x l'
  end.

Definition isort {A} (le : A -> A -> bool) (l : list A) : list A :=
  fold_right (insert_le le) [] l.

(** [get_album_meta(album_id=..., remote_id=...)] *)
Definition get_album_meta (aid : nat) (rid : string) : M (option album_row) :=
  if andb (Nat.eqb aid 0) (String.eqb rid "")
  then raise (ValueError "Missing media_id or remote_id")
  else execute (fun d =>
         inr (find (fun r => if Nat.eqb aid 0 then String.eqb (a_remote_id r) rid
                             else Nat.eqb (album_id r) aid) (albums d), d)) true.

Definition status_filter (flt : option (bool * list string)) (x : string) : bool :=
  match flt with
  | None | Some (_, []) => true
  | Some (neg, vals) => in_condition neg vals x
  end.

(** [get_albums_meta_cnt(status=...)] *)
Definition get_albums_meta_cnt (flt : option (bool * list string)) : M nat :=
  execute (fun d => inr (length (filter (fun r => status_filter flt (a_status r)) (albums d)), d)) true.

Definition lift_exn {A} (r : exn + A) : M A :=
  match r with inl e => raise e | inr a => ret a end.

(** [get_albums_items_meta_cnt(status=..., status_not=..., album_id=...)]:
    the [status_not] branch calls
    [gen_in_condition('status', status_not, placeholders, negate=True)]. *)
Definition get_albums_items_meta_cnt (st_in st_not : list string) (aid : nat) : M nat :=
  c1 <- (match st_in with
         | [] => ret None
         | _ => c <- lift_exn (gen_in_condition false st_in []) ;; ret (Some c)
         end) ;;
  c2 <- (match st_not with
         | [] => ret None
         | _ => c <- lift_exn (gen_in_condition false st_not ["negate"]) ;; ret (Some c)
         end) ;;
  execute (fun d =>
    inr (length (filter (fun r => status_filter c1 (ai_status r) && status_filter c2 (ai_status r)
                                  && (Nat.eqb aid 0 || Nat.eqb (ai_album_id r) aid))
                        (albums_items d)), d)) true.

(** [search_albums_meta(limit, offset, cname, path, status)] *)
Definition search_albums_meta (limit offset : nat) (cn pth : string)
  (flt : option (bool * list string)) : M (list album_row) :=
  execute (fun d =>
    inr (limit_offset limit offset
           (isort (fun a b => Nat.leb (album_id a) (album_id b))
              (filter (fun r => (String.eqb cn "" || String.eqb (a_cname r) cn)
                                && (String.eqb pth "" || String.eqb (a_path r) pth)
                                && status_filter flt (a_status r)) (albums d))), d)) true.

(** A row of [SELECT ai.*, mi.name item_name, a.name album_name, ...
    FROM albums_items ai LEFT JOIN albums a ... LEFT JOIN media_items mi];
    a [NULL] of the outer joins is the empty string (both are falsy). *)
Record album_item_view : Type := AlbumItemView {
  v_album_item_id : nat; v_album_id : nat; v_media_id : nat; v_status : string;
  item_name : string; album_name : string; item_cname : string; album_cname : string;
  item_path : string; album_path : string; item_status : string; album_status : string
}.

Definition view_of (d : db) (r : album_item_row) : album_item_view :=
  let a := find (fun x => Nat.eqb (album_id x) (ai_album_id r)) (albums d) in
  let m := find (fun x => Nat.eqb (media_id x) (ai_media_id r)) (media_items d) in
  {| v_album_item_id := album_item_id r; v_album_id := ai_album_id r;
     v_media_id := ai_media_id r; v_status := ai_status r;
     item_name := match m with Some x => name x | None => "" end;
     album_name := match a with Some x => a_name x | None => "" end;
     item_cname := match m with Some x => cname x | None => "" end;
     album_cname := match a with Some x => a_cname x | None => "" end;
     item_path := match m with Some x => path x | None => "" end;
     album_path := match a with Some x => a_path x | None => "" end;
     item_status := match m with Some x => status x | None => "" end;
     album_status := match a with Some x => a_status x | None => "" end |}.

(** [search_albums_items_meta(limit, offset, status, album_cname, item_cname)],
    [ORDER BY album_id ASC, media_id ASC]. *)
Definition search_albums_items_meta (limit offset : nat) (flt : option (bool * list string))
  (acn icn : string) : M (list album_item_view) :=
  execute (fun d =>
    inr (limit_offset limit offset
          (isort (fun x y => Nat.ltb (v_album_id x) (v_album_id y)
                             || (Nat.eqb (v_album_id x) (v_album_id y)
                                 && Nat.leb (v_media_id x) (v_media_id y)))
             (filter (fun v => status_filter flt (v_status v)
                               && (String.eqb acn "" || String.eqb (album_cname v) acn)
                               && (String.eqb icn "" || String.eqb (item_cname v) icn))
                (map (view_of d) (albums_items d)))), d)) true.

Definition album_apply_field (r : album_row) (kv : string * kwval) : exn + album_row :=
  match kv with
  | ("status", KStr s) => inr (set_a_status s r)
  | ("last_checked", KTime t) => inr (set_a_last_checked t r)
  | _ => inl (IntegrityError "datatype mismatch")
  end.

Fixpoint album_apply_fields (r : album_row) (kw : list (string * kwval)) : exn + album_row :=
  match kw with
  | [] => inr r
  | kv :: kw' => match album_apply_field r kv with
                 | inl e => inl e
                 | inr r' => album_apply_fields r' kw'
                 end
  end.

Definition kw_status (kw : list (string * kwval)) : option kwval :=
  option_map snd (find (fun kv => String.eqb (fst kv) "status") kw).

Definition bad_status (kw : list (string * kwval)) (allowed : list string) : bool :=
  match kw_status kw with
  | Some (KStr s) => negb (mem_str s allowed)
  | Some (KTime _) => true
  | None => false
  end.

(** [update_album_meta(album_id, **kwargs)] ([UPDATE ... LIMIT 1],
    [commit=False]); the keys used by the engine are [status] and
    [last_checked]. *)
Definition update_album_meta (aid : nat) (kw : list (string * kwval)) : M nat :=
  raise_if (Nat.eqb aid 0) (ValueError "Missing album_id") ;;;
  raise_if (negb (forallb (fun kv => mem_str (fst kv)
              ["name"; "cname"; "size"; "cover_photo_id"; "status"; "index_date"; "last_checked"]) kw))
    (ValueError "Invalid key") ;;;
  raise_if (bad_status kw album_statuses) (ValueError "Invalid status") ;;;
  execute (fun d =>
    match find (fun r => Nat.eqb (album_id r) aid) (albums d) with
    | None => inr (0, d)
    | Some r =>
        match album_apply_fields r kw with
        | inl e => inl e
        | inr r' => inr (1, with_albums d (map (fun x => if Nat.eqb (album_id x) aid then r' else x)
                                             (albums d)))
        end
    end) false.

(** [update_album_item_meta(album_item_id, **kwargs)] *)
Definition update_album_item_meta (aiid : nat) (kw : list (string * kwval)) : M nat :=
  raise_if (Nat.eqb aiid 0) (ValueError "Missing album_item_id") ;;;
  raise_if (negb (forallb (fun kv => String.eqb (fst kv) "status") kw))
    (ValueError "Invalid key") ;;;
  raise_if (bad_status kw item_statuses) (ValueError "Invalid status") ;;;
  execute (fun d =>
    match kw_status kw with
    | Some (KStr s) =>
        inr (length (filter (fun r => Nat.eqb (album_item_id r) aiid) (albums_items d)),
             with_albums_items d (map (fun r => if Nat.eqb (album_item_id r) aiid
                                                then set_ai_status s r else r) (albums_items d)))
    | _ => inr (0, d)
    end) false.

(** [set_albums_items_meta_stale(album_id=...)] *)
Definition set_albums_items_meta_stale (aid : nat) : M nat :=
  raise_if (Nat.eqb aid 0) (ValueError "Missing album_id") ;;;
  execute (fun d =>
    inr (length (filter (fun r => Nat.eqb (ai_album_id r) aid) (albums_items d)),
         with_albums_items d (map (fun r => if Nat.eqb (ai_album_id r) aid
                                            then set_ai_status "stale" r else r) (albums_items d))))
    true.

(** [delete_album_meta(album_id)]: [DELETE FROM albums WHERE
    album_id=:album_id LIMIT 1] with the placeholder [album_id]. *)
Definition delete_album_meta (aid : nat) : M nat :=
  raise_if (Nat.eqb aid 0) (ValueError "Missing album_id") ;;;
  execute (fun d =>
    match bind_params ["album_id"] ["album_id"] with
    | Some e => inl e
    | None => inr (length (filter (fun r => Nat.eqb (album_id r) aid) (albums d)),
                   with_albums d (filter (fun r => negb (Nat.eqb (album_id r) aid)) (albums d)))
    end) false.

(** [delete_album_item_meta(album_item_id)]: the query is [DELETE FROM
    albums_items WHERE album_id=:album_id AND media_id=:media_id LIMIT 1]
    while the placeholders dict holds only [album_item_id]. *)
Definition delete_album_item_meta (aiid : nat) : M nat :=
  raise_if (Nat.eqb aiid 0) (ValueError "Missing album_item_id") ;;;
  execute (fun d =>
    match bind_params ["album_id"; "media_id"] ["album_item_id"] with
    | Some e => inl e
    | None => inr (0, d)
    end) false.

Record album_insert : Type := AlbumInsert {
  ia_remote_id : string; ia_name : string; ia_cname : string; ia_size : nat;
  ia_cover_photo_id : string; ia_path : string; ia_index_date : nat; ia_last_checked : nat
}.

(** [add_album_meta(...)]: [INSERT ... ON CONFLICT(remote_id) DO UPDATE SET
    size, cover_photo_id, index_date, last_checked, status], the status
    bound to [status or 'pending_sync'], [commit=False]. *)
Definition add_album_meta (v : album_insert) (status_v : option string) : M nat :=
  raise_if (match status_v with
            | Some s => negb (String.eqb s "") && negb (mem_str s album_statuses)
            | None => false
            end) (ValueError "Invalid status") ;;;
  let s := match status_v with Some x => if String.eqb x "" then "pending_sync" else x
                             | None => "pending_sync" end in
  execute (fun d =>
    match find (fun r => String.eqb (a_remote_id r) (ia_remote_id v)) (albums d) with
    | Some old =>
        inr (album_id old, with_albums d (map (fun r =>
          if String.eqb (a_remote_id r) (ia_remote_id v) then
            {| album_id := album_id r; a_remote_id := a_remote_id r; a_name := a_name r;
               a_cname := a_cname r; a_size := ia_size v; a_cover_photo_id := ia_cover_photo_id v;
               a_path := a_path r; a_index_date := ia_index_date v;
               a_last_checked := ia_last_checked v; a_status := s |}
          else r) (albums d)))
    | None =>
        let id := S (seq_album d) in
        inr (id, {| media_items := media_items d;
                    albums := albums d ++
                      [{| album_id := id; a_remote_id := ia_remote_id v; a_name := ia_name v;
                          a_cname := ia_cname v; a_size := ia_size v;
                          a_cover_photo_id := ia_cover_photo_id v; a_path := ia_path v;
                          a_index_date := ia_index_date v; a_last_checked := ia_last_checked v;
                          a_status := s |}];
                    albums_items := albums_items d; settings := settings d;
                    seq_media := seq_media d; seq_album := id; seq_album_item := seq_album_item d |})
    end) false.

(** [add_album_item_meta(album_id=..., media_item_id=..., status=...)]:
    [INSERT ... ON CONFLICT(album_id, media_id) DO UPDATE SET status], the
    status bound to [status or 'pending_sync'], [commit=False]. *)
Definition add_album_item_meta (aid mid : nat) (status_v : option string) : M nat :=
  let s := match status_v with Some x => if String.eqb x "" then "pending_sync" else x
                             | None => "pending_sync" end in
  execute (fun d =>
    match find (fun r => Nat.eqb (ai_album_id r) aid && Nat.eqb (ai_media_id r) mid)
               (albums_items d) with
    | Some old =>
        inr (album_item_id old, with_albums_items d (map (fun r =>
          if Nat.eqb (ai_album_id r) aid && Nat.eqb (ai_media_id r) mid
          then set_ai_status s r else r) (albums_items d)))
    | None =>
        let id := S (seq_album_item d) in
        inr (id, {| media_items := media_items d; albums := albums d;
                    albums_items := albums_items d ++ [AlbumItemRow id aid mid s];
                    settings := settings d; seq_media := seq_media d;
                    seq_album := seq_album d; seq_album_item := id |})
    end) false.

(** [set_albums_meta_stale(last_checked=...)] *)
Definition set_albums_meta_stale (last_checked : date_arg) : M nat :=
  execute (set_stale_stmt (date_cond last_checked)) true.

End AlbumsModel.

(* ------------------------------------------------------------------ *)
(** ** utils.py and the [os.path] helpers *)
Module Utils.

Definition is_alnum (c : ascii) : bool :=
  let n := nat_of_ascii c in
  (Nat.leb 48 n && Nat.leb n 57) || (Nat.leb 65 n && Nat.leb n 90) ||
  (Nat.leb 97 n && Nat.leb n 122).

(** The class [a-zA-Z0-9\-_() ] of [transform_fs_safe]. *)
Definition keep_char (c : ascii) : bool :=
  is_alnum c || Ascii.eqb c "-"%char || Ascii.eqb c "_"%char ||
  Ascii.eqb c "("%char || Ascii.eqb c ")"%char || Ascii.eqb c " "%char.

Fixpoint squeeze_underscores (prev_us : bool) (l : list ascii) : list ascii :=
  match l with
  | [] => []
  | c :: l' =>
      if Ascii.eqb c "_"%char then
        if prev_us then squeeze_underscores true l' else c :: squeeze_underscores true l'
      else c :: squeeze_underscores false l'
  end.

Fixpoint drop_leading_us (l : list ascii) : list ascii :=
  match l with
  | c :: l' => if Ascii.eqb c "_"%char then drop_leading_us l' else l
  | [] => []
  end.

(** [transform_fs_safe(file_name)] *)
Definition transform_fs_safe (file_name : string) : string :=
  let l := map (fun c => if keep_char c then c else "_"%char) (list_ascii_of_string file_name) in
  let l := squeeze_underscores false l in
  let l := rev (drop_leading_us (rev (drop_leading_us l))) in
  string_of_list_ascii (firstn 255 l).

Fixpoint rfind_aux (c : ascii) (l : list ascii) (i : nat) (acc : option nat) : option nat :=
  match l with
  | [] => acc
  | x :: l' => rfind_aux c l' (S i) (if Ascii.eqb x c then Some i else acc)
  end.

(** [posixpath.splitext(p)]: split at the last dot of the last component,
    unless every character before it in that component is a dot. *)
Definition splitext (p : string) : string * string :=
  let l := list_ascii_of_string p in
  match rfind_aux "."%char l 0 None with
  | None => (p, "")
  | Some dot =>
      let start := match rfind_aux "/"%char l 0 None with Some k => S k | None => 0 end in
      if Nat.ltb start dot
         && existsb (fun c => negb (Ascii.eqb c "."%char)) (firstn (dot - start) (skipn start l))
      then (string_of_list_ascii (firstn dot l), string_of_list_ascii (skipn dot l))
      else (p, "")
  end.

Definition digit (c : ascii) : option nat :=
  let n := nat_of_ascii c in
  if Nat.leb 48 n && Nat.leb n 57 then Some (n - 48) else None.

Fixpoint num_of_digits_rev (l : list ascii) : option nat :=
  match l with
  | [] => Some 0
  | c :: l' => match digit c, num_of_digits_rev l' with
               | Some d, Some n => Some (d + 10 * n)
               | _, _ => None
               end
  end.

Definition num (l : list ascii) : option nat :=
  match l with [] => None | _ => num_of_digits_rev (rev l) end.

Definition leap (y : nat) : bool :=
  (Nat.eqb (y mod 4) 0 && negb (Nat.eqb (y mod 100) 0)) || Nat.eqb (y mod 400) 0.

Definition days_in_month (y m : nat) : nat :=
  match m with
  | 2 => if leap y then 29 else 28
  | 4 | 6 | 9 | 11 => 30
  | _ => 31
  end.

Definition sub (l : list ascii) (i n : nat) : list ascii := firstn n (skipn i l).

(** [datetime.strptime(t, '%Y-%m-%dT%H:%M:%SZ')] on the zero-padded form
    the API returns ("2021-05-04T10:20:30Z"); the result is the pair of
    the year and month strings and the date reformatted as
    ['%Y-%m-%d %H:%M:%S'], or [ValueError]. Fractional seconds and any
    other trailing text are refused, as by [strptime]. *)
Definition parse_creation_time (t : string) : exn + (string * string * string) :=
  let l := list_ascii_of_string t in
  let sep i c := match nth_error l i with Some x => Ascii.eqb x c | None => false end in
  if negb (Nat.eqb (length l) 20 && sep 4 "-"%char && sep 7 "-"%char && sep 10 "T"%char
           && sep 13 ":"%char && sep 16 ":"%char && sep 19 "Z"%char)
  then inl (ValueError "time data does not match format '%Y-%m-%dT%H:%M:%SZ'")
  else
  match num (sub l 0 4), num (sub l 5 2), num (sub l 8 2),
        num (sub l 11 2), num (sub l 14 2), num (sub l 17 2) with
  | Some y, Some mo, Some dd, Some h, Some mi, Some se =>
      if Nat.leb 1 y && Nat.leb 1 mo && Nat.leb mo 12 && Nat.leb 1 dd
         && Nat.leb dd (days_in_month y mo) && Nat.leb h 23 && Nat.leb mi 59 && Nat.leb se 59
      then inr (string_of_list_ascii (sub l 0 4), string_of_list_ascii (sub l 5 2),
                string_of_list_ascii (sub l 0 10 ++ [" "%char] ++ sub l 11 8))
      else inl (ValueError "unconverted data or day is out of range")
  | _, _, _, _, _, _ => inl (ValueError "time data does not match format '%Y-%m-%dT%H:%M:%SZ'")
  end.

End Utils.

(* ------------------------------------------------------------------ *)
(** ** The remote library (gphotos_api.py), as seen by the engines *)

Record remote_media : Type := RemoteMedia {
  rm_id : string;
  rm_filename : string;
  rm_mime_type : string;
  rm_creation_time : string
}.

Record remote_album : Type := RemoteAlbum {
  ra_id : string;
  ra_title : string;
  ra_media_items_count : nat;
  ra_cover_photo_id : string
}.

(** One paged call: it raises ([GPhotosApiException]: network failure,
    error status, a body without items), returns the falsy [{}], or a
    page of results with or without a [nextPageToken]. *)
Inductive response (A : Type) : Type :=
| RRaise
| REmpty
| RPage (items : list A) (has_next : bool).
Arguments RRaise {A}.
Arguments REmpty {A}.
Arguments RPage {A} items has_next.

(** The filters of [media_items_search]: none, a date range starting at
    the watermark, or an album. *)
Inductive search_query : Type :=
| QAll
| QFrom (t : nat)
| QAlbum (album_remote_id : string).

(** The successive responses the remote gives to a listing walked with its
    page tokens. *)
Record api : Type := Api {
  media_items_search : search_query -> list (response remote_media);
  albums_list : list (response remote_album)
}.

(** [os.path.join] of non-empty components. *)
Definition join (a b : string) : string := a ++ "/" ++ b.

Definition digit_char (n : nat) : ascii := ascii_of_nat (48 + n).

Fixpoint string_of_nat_aux (fuel n : nat) (acc : list ascii) : list ascii :=
  match fuel with
  | 0 => acc
  | S f => let acc' := digit_char (n mod 10) :: acc in
           if Nat.ltb n 10 then acc' else string_of_nat_aux f (n / 10) acc'
  end.

(** [str(n)] *)
Definition string_of_nat (n : nat) : string :=
  string_of_list_ascii (string_of_nat_aux (S n) n []).

Record index_stats : Type := IndexStats { indexed : nat; skipped : nat; failed : nat }.

Definition inc_indexed (i : index_stats) := IndexStats (S (indexed i)) (skipped i) (failed i).
Definition inc_skipped (i : index_stats) := IndexStats (indexed i) (S (skipped i)) (failed i).
Definition inc_failed (i : index_stats) := IndexStats (indexed i) (skipped i) (S (failed i)).

(* ------------------------------------------------------------------ *)
(** ** MediaItems (media_items.py) *)
Module MediaItems.
Import MediaItemsModel.

Section Engine.
(** [self._dest_path] and [self._google_api] *)
Variable dest_path : string.
Variable google_api : api.

(** [_index_needed(media_item_meta, media_item)] *)
Definition _index_needed (meta : option media_row) : bool :=
  match meta with
  | None => true
  | Some r => negb (mem_str (status r) ["synced"; "pending_sync"; "ignored"])
  end.

Fixpoint canon_loop (fuel unique : nat) (file_name pth : string) : M string :=
  match fuel with
  | 0 => ret file_name
  | S f =>
      found <- search_media_items_meta 100 0 file_name pth None ;;
      match found with
      | [] => ret file_name
      | _ :: _ =>
          let (nm, ext) := Utils.splitext file_name in
          canon_loop f (S unique) (nm ++ " (" ++ string_of_nat unique ++ ")" ++ ext) pth
      end
  end.

(** [_get_canonicalized_name(file_name, path)]. The [while True] loop
    tries strictly longer names, each matching a different row when taken,
    so [1 + len(media_items)] rounds always reach the [return]. *)
Definition _get_canonicalized_name (file_name pth : string) : M string :=
  s <- get ;;
  let (nm, ext) := Utils.splitext file_name in
  canon_loop (S (length (media_items (working s)))) 1
    (Utils.transform_fs_safe nm ++ ext) pth.

Definition lift_exn {A} (r : exn + A) : M A :=
  match r with inl e => raise e | inr a => ret a end.

(** [_add_item(media_item)] *)
Definition _add_item (mi : remote_media) : M nat :=
  parsed <- lift_exn (Utils.parse_creation_time (rm_creation_time mi)) ;;
  let '(year, month, cdate) := parsed in
  let pth := join (join "items" year) month in
  cn <- _get_canonicalized_name (rm_filename mi) pth ;;
  idx <- now ;;
  add_media_item_meta
    {| i_remote_id := rm_id mi; i_name := rm_filename mi; i_cname := cn;
       i_mime_type := rm_mime_type mi; i_create_date := cdate; i_modify_date := cdate;
       i_path := pth; i_index_date := idx; i_last_checked := idx |}
    (Some "pending_sync").

(** [index_item(media_item, commit=...)] *)
Definition index_item (mi : remote_media) (commit : bool) : M string :=
  meta <- get_media_item_meta 0 (rm_id mi) ;;
  match meta with
  | Some r =>
      if negb (_index_needed meta) then
        lc <- now ;;
        update_media_item_meta (media_id r) [("last_checked", KTime lc)] ;;;
        ret "skipped"
      else _add_item mi ;;; (if commit then storage_commit else ret tt) ;;; ret "indexed"
  | None => _add_item mi ;;; (if commit then storage_commit else ret tt) ;;; ret "indexed"
  end.

(** The [for media_item in media_items] loop of one page. *)
Fixpoint index_page (items : list remote_media) (info : index_stats) : M index_stats :=
  match items with
  | [] => ret info
  | mi :: rest =>
      info' <- try_except
                 (st <- index_item mi false ;;
                  ret (if String.eqb st "indexed" then inc_indexed info else inc_skipped info))
                 (fun _ => ret (inc_failed info)) ;;
      index_page rest info'
  end.

(** The [while True] loop over the pages of [media_items_search]. *)
Fixpoint index_pages (pages : list (response remote_media)) (info : index_stats)
  : M index_stats :=
  match pages with
  | [] | REmpty :: _ => ret info
  | RRaise :: _ => raise (GPhotosApiException "API call failed")
  | RPage items has_next :: rest =>
      info' <- index_page items info ;;
      storage_commit ;;;
      if has_next then index_pages rest info' else ret info'
  end.

(** [index_items(last_index=..., rescan=...)] *)
Definition index_items (last_index : option nat) (rescan : bool) : M index_stats :=
  check_date <- now ;;
  let q := match last_index with
           | Some t => if rescan then QAll else QFrom t
           | None => QAll
           end in
  info <- index_pages (media_items_search google_api q) (IndexStats 0 0 0) ;;
  (if rescan then set_media_items_stale (ArgDate check_date) ;;; ret tt else ret tt) ;;;
  ret info.

(** [_item_exists_fs(media_item_meta)] *)
Definition _item_exists_fs (r : media_row) : M bool :=
  s <- get ;; ret (isfile (join (join dest_path (path r)) (cname r)) (fs s)).

Fixpoint scan_page (rows : list media_row) (fixed : nat) : M nat :=
  match rows with
  | [] => ret fixed
  | r :: rest =>
      ex <- _item_exists_fs r ;;
      if ex then scan_page rest fixed
      else update_media_item_meta (media_id r) [("status", KStr "pending_sync")] ;;;
           scan_page rest (S fixed)
  end.

Fixpoint scan_loop (fuel offset fixed : nat) : M nat :=
  match fuel with
  | 0 => ret fixed
  | S f =>
      to_check <- search_media_items_meta 100 offset "" "" (Some (false, ["synced"])) ;;
      match to_check with
      | [] => ret fixed
      | _ :: _ =>
          fixed' <- scan_page to_check fixed ;;
          storage_commit ;;;
          scan_loop f (offset + 100) fixed'
      end
  end.

(** [scan_synced_items_fs()]: [offset] grows by 100 a round and the query
    returns nothing once it passes the number of rows, so
    [1 + len(media_items)] rounds reach the [break]. *)
Definition scan_synced_items_fs : M nat :=
  total <- get_media_items_meta_cnt (Some (false, ["synced"])) ;;
  if Nat.eqb total 0 then ret 0
  else s <- get ;; scan_loop (S (length (media_items (working s)))) 0 0.

(** The loop of [ignore_items(media_items)] over the given media ids,
    counting [ignored] and [failed]. *)
Fixpoint ignore_loop (ids : list nat) (ignored failed : nat) : M (nat * nat) :=
  match ids with
  | [] => ret (ignored, failed)
  | mid :: rest =>
      r <- try_except
             (n <- update_media_item_meta mid [("status", KStr "ignored")] ;;
              if Nat.eqb n 0 then raise (ValueError "Media item not found")
              else ret (S ignored, failed))
             (fun _ => ret (ignored, S failed)) ;;
      let '(ig, fl) := r in ignore_loop rest ig fl
  end.

(** [ignore_items(media_items)]; the counters [ignored] and [failed] of
    its [ActionStats] are returned as a pair. *)
Definition ignore_items (ids : list nat) : M (nat * nat) :=
  r <- ignore_loop ids 0 0 ;; storage_commit ;;; ret r.

(** [reset_ignored_items()]; the counter [reset] of its [ActionStats]. *)
Definition reset_ignored_items : M nat :=
  reset_ignored_media_items.

End Engine.
End MediaItems.

(* ------------------------------------------------------------------ *)
(** ** Albums (albums.py): indexing *)
Module Albums.
Import AlbumsModel.

Section Engine.
Variable dest_path : string.
Variable google_api : api.

Fixpoint canon_loop (fuel unique : nat) (album_name pth : string) : M string :=
  match fuel with
  | 0 => ret album_name
  | S f =>
      found <- search_albums_meta 100 0 album_name pth None ;;
      match found with
      | [] => ret album_name
      | _ :: _ =>
          let (nm, ext) := Utils.splitext album_name in
          canon_loop f (S unique) (nm ++ " (" ++ string_of_nat unique ++ ")" ++ ext) pth
      end
  end.

(** [_get_canonicalized_name(album_name, path)] *)
Definition _get_canonicalized_name (album_name pth : string) : M string :=
  s <- get ;;
  let nm := if String.eqb album_name "" then "Untitled" else album_name in
  canon_loop (S (length (albums (working s)))) 1 (Utils.transform_fs_safe nm) pth.

(** The decision of [_index_needed] once the count of non-stale
    memberships [cnt] is known:
    [not synced or not (int(size) == int(mediaItemsCount) == cnt)]. *)
Definition index_decision (r : album_row) (a : remote_album) (cnt : nat) : bool :=
  negb (mem_str (a_status r) ["indexed"])
  || negb (Nat.eqb (a_size r) (ra_media_items_count a) && Nat.eqb (ra_media_items_count a) cnt).

(** [_index_needed(album_meta, album)], the count query given as
    [count_items]. *)
Definition _index_needed_with (count_items : nat -> M nat)
  (meta : option album_row) (a : remote_album) : M bool :=
  match meta with
  | None => ret true
  | Some r => cnt <- count_items (album_id r) ;; ret (index_decision r a cnt)
  end.

(** [_index_needed]: the count is
    [get_albums_items_meta_cnt(album_id=..., status_not=['stale'])]. *)
Definition _index_needed (meta : option album_row) (a : remote_album) : M bool :=
  _index_needed_with (fun aid => get_albums_items_meta_cnt [] ["stale"] aid) meta a.

(** [_add_album(album)] *)
Definition _add_album (a : remote_album) : M nat :=
  let pth := "albums" in
  cn <- _get_canonicalized_name (ra_title a) pth ;;
  idx <- now ;;
  add_album_meta
    {| ia_remote_id := ra_id a; ia_name := ra_title a; ia_cname := cn;
       ia_size := ra_media_items_count a; ia_cover_photo_id := ra_cover_photo_id a;
       ia_path := pth; ia_index_date := idx; ia_last_checked := idx |}
    (Some "indexed").

(** [_add_album_item(album_meta, media_item)] *)
Definition _add_album_item (meta : album_row) (mi : remote_media) : M nat :=
  MediaItems.index_item mi true ;;;
  mm <- MediaItemsModel.get_media_item_meta 0 (rm_id mi) ;;
  match mm with
  | Some m => add_album_item_meta (album_id meta) (media_id m) (Some "pending_sync")
  | None => raise (TypeError "'NoneType' object is not subscriptable")
  end.

Fixpoint album_items_page (meta : album_row) (items : list remote_media) (n : nat) : M nat :=
  match items with
  | [] => ret n
  | mi :: rest => _add_album_item meta mi ;;; album_items_page meta rest (S n)
  end.

Fixpoint album_items_pages (meta : album_row) (commit : bool)
  (pages : list (response remote_media)) (n : nat) : M nat :=
  match pages with
  | [] | REmpty :: _ => ret n
  | RRaise :: _ => raise (GPhotosApiException "API call failed")
  | RPage items has_next :: rest =>
      n' <- album_items_page meta items n ;;
      (if commit then storage_commit else ret tt) ;;;
      if has_next then album_items_pages meta commit rest n' else ret n'
  end.

(** [index_album_items(album_id, commit=...)] *)
Definition index_album_items (aid : nat) (commit : bool) : M nat :=
  meta <- get_album_meta aid "" ;;
  match meta with
  | None => raise (TypeError "'NoneType' object is not subscriptable")
  | Some m =>
      set_albums_items_meta_stale (album_id m) ;;;
      album_items_pages m commit (media_items_search google_api (QAlbum (a_remote_id m))) 0
  end.

(** [index_album(album, filter_albums, commit=...)] (the rename branch only
    logs). *)
Definition index_album (a : remote_album) (filter_albums : list string) (commit : bool)
  : M string :=
  meta <- get_album_meta 0 (ra_id a) ;;
  if negb (match filter_albums with [] => true | _ => mem_str (ra_title a) filter_albums end)
  then ret "skipped"
  else
  needed <- _index_needed meta a ;;
  match meta, needed with
  | Some r, false =>
      lc <- now ;;
      update_album_meta (album_id r) [("last_checked", KTime lc)] ;;;
      ret "skipped"
  | _, _ =>
      _add_album a ;;;
      (if commit then storage_commit else ret tt) ;;;
      meta' <- get_album_meta 0 (ra_id a) ;;
      match meta' with
      | None => raise (TypeError "'NoneType' object is not subscriptable")
      | Some r' =>
          try_except (index_album_items (album_id r') commit ;;; ret tt)
            (fun e => update_album_meta (album_id r') [("status", KStr "index_error")] ;;;
                      raise e) ;;;
          ret "indexed"
      end
  end.

Fixpoint albums_page (items : list remote_album) (filter_albums : list string)
  (info : index_stats) : M index_stats :=
  match items with
  | [] => ret info
  | a :: rest =>
      info' <- try_except
                 (st <- index_album a filter_albums false ;;
                  ret (if String.eqb st "indexed" then inc_indexed info else inc_skipped info))
                 (fun _ => ret (inc_failed info)) ;;
      albums_page rest filter_albums info'
  end.

Fixpoint albums_pages (pages : list (response remote_album)) (filter_albums : list string)
  (info : index_stats) : M index_stats :=
  match pages with
  | [] | REmpty :: _ => ret info
  | RRaise :: _ => raise (GPhotosApiException "API call failed")
  | RPage items has_next :: rest =>
      info' <- albums_page items filter_albums info ;;
      storage_commit ;;;
      if has_next then albums_pages rest filter_albums info' else ret info'
  end.

Fixpoint propagate_loop (fuel offset : nat) : M unit :=
  match fuel with
  | 0 => ret tt
  | S f =>
      to_propagate <- search_albums_meta 100 offset "" "" (Some (false, ["stale"])) ;;
      match to_propagate with
      | [] => ret tt
      | _ :: _ =>
          fold_right (fun r k => set_albums_items_meta_stale (album_id r) ;;; k)
                     (ret tt) to_propagate ;;;
          propagate_loop f (offset + 100)
      end
  end.

(** [_propagate_stale_albums()] *)
Definition _propagate_stale_albums : M unit :=
  total <- get_albums_meta_cnt (Some (false, ["stale"])) ;;
  if Nat.eqb total 0 then ret tt
  else s <- get ;; propagate_loop (S (length (albums (working s)))) 0.

(** [index_albums(last_index=..., rescan=..., filter_albums=...)]: the
    listing is always a full one ([rescan = True]). *)
Definition index_albums (last_index : option nat) (rescan : bool) (filter_albums : list string)
  : M index_stats :=
  check_date <- now ;;
  info <- albums_pages (albums_list google_api) filter_albums (IndexStats 0 0 0) ;;
  (match filter_albums with
   | [] => set_albums_meta_stale (ArgDate check_date) ;;; _propagate_stale_albums
   | _ => ret tt
   end) ;;;
  ret info.

End Engine.
End Albums.

(* ------------------------------------------------------------------ *)
(** ** SettingsModel and the index step of UsBackupGPhotosIdentity *)
Module Identity.

Definition with_settings (d : db) (l : list (string * nat)) : db :=
  {| media_items := media_items d; albums := albums d; albums_items := albums_items d;
     settings := l; seq_media := seq_media d; seq_album := seq_album d;
     seq_album_item := seq_album_item d |}.

Definition upsert_setting (k : string) (v : nat) (l : list (string * nat)) : list (string * nat) :=
  if existsb (fun e => String.eqb (fst e) k) l
  then map (fun e => if String.eqb (fst e) k then (k, v) else e) l
  else l ++ [(k, v)].

(** [SettingsModel.update_aseting(key, value)]: [INSERT ... ON CONFLICT
    (key) DO UPDATE SET value], committed. *)
Definition update_aseting (k : string) (v : nat) : M nat :=
  raise_if (String.eqb k "") (ValueError "key must be specified") ;;;
  execute (fun d => inr (1, with_settings d (upsert_setting k v (settings d)))) true.

Definition lookup_setting (k : string) (l : list (string * nat)) : option nat :=
  option_map snd (find (fun e => String.eqb (fst e) k) l).

(** [SettingsModel.get_settings()]: the rows of [settings] as a dict,
    read with [lookup_setting]. *)
Definition get_settings : M (list (string * nat)) :=
  execute (fun d => inr (settings d, d)) true.

(** Modelled from the spec: [ActionStats] (usbackup_gphotos/action_stats.py
    is not among the sources), the per-phase summary counts of §7; it is
    truthy when the sum of its counters is non-zero. *)
Definition stats_truthy (i : index_stats) : bool :=
  negb (Nat.eqb (indexed i + skipped i + failed i) 0).

(** The watermark gate of [index]:
    [if bool(processed): if processed['indexed'] and not processed['failed']:
       self._update_aseting(key, sdate)]. *)
Definition advance_watermark (key : string) (sdate : nat) (processed : index_stats) : M unit :=
  if stats_truthy processed then
    if negb (Nat.eqb (indexed processed) 0) && Nat.eqb (failed processed) 0
    then update_aseting key sdate ;;; ret tt
    else ret tt
  else ret tt.

Record index_options : Type := IndexOptions {
  skip_media_items : bool; skip_albums : bool; rescan : bool; filter_albums : list string
}.

Section Run.
Variable library_dir : string.
Variable google_api : api.
(** [self._settings], read once by [_setup] when the identity is built. *)
Variable loaded_settings : list (string * nat).

(** [UsBackupGPhotosIdentity.index(options)] ([ensure_valid_auth] is the
    external auth collaborator and is not modelled). *)
Definition index (o : index_options) : M unit :=
  (if skip_media_items o then ret tt
   else mi_sdate <- now ;;
        processed <- MediaItems.index_items google_api
                       (lookup_setting "media_items_last_index" loaded_settings) (rescan o) ;;
        advance_watermark "media_items_last_index" mi_sdate processed) ;;;
  (if skip_albums o then ret tt
   else a_sdate <- now ;;
        processed <- Albums.index_albums google_api
                       (lookup_setting "albums_last_index" loaded_settings) (rescan o)
                       (filter_albums o) ;;
        advance_watermark "albums_last_index" a_sdate processed).

End Run.
End Identity.

(* ------------------------------------------------------------------ *)
(** ** Filesystem operations *)
Module Fs.

Definition mtime (p : string) (f : fs_state) : option nat :=
  option_map snd (find (fun e => String.eqb (fst e) p) (files f)).

(** [os.remove(p)] on an existing file. *)
Definition remove_file (p : string) (f : fs_state) : fs_state :=
  FS (filter (fun e => negb (String.eqb (fst e) p)) (files f)) (dirs f).

(** Creating (or replacing) the file [p] with modification time [t]. *)
Definition write_file (p : string) (t : nat) (f : fs_state) : fs_state :=
  FS (filter (fun e => negb (String.eqb (fst e) p)) (files f) ++ [(p, t)]) (dirs f).

Definition makedirs (p : string) (f : fs_state) : fs_state :=
  if isdir p f then f else FS (files f) (dirs f ++ [p]).

Definition is_prefix (pre p : string) : bool := String.prefix pre p.

(** [os.rmdir(p)]: refused when anything lies below [p]. *)
Definition rmdir (p : string) (f : fs_state) : exn + fs_state :=
  if existsb (fun e => is_prefix (p ++ "/") (fst e)) (files f)
     || existsb (is_prefix (p ++ "/")) (dirs f)
  then inl (OSError ("Directory not empty: '" ++ p ++ "'"))
  else inr (FS (files f) (filter (fun d => negb (String.eqb d p)) (dirs f))).

Definition modify_fs (g : fs_state -> fs_state) : M unit :=
  fun s => (inr tt, {| working := working s; committed := committed s;
                       fs := g (fs s); clock := clock s |}).

Definition get_fs : M fs_state := fun s => (inr (fs s), s).

(** [os.path.split] at the last separator. *)
Definition split_last (p : string) : string * string :=
  let l := list_ascii_of_string p in
  match Utils.rfind_aux "/"%char l 0 None with
  | None => ("", p)
  | Some k => (string_of_list_ascii (firstn k l), string_of_list_ascii (skipn (S k) l))
  end.

End Fs.

(* ------------------------------------------------------------------ *)
(** ** MediaItems (media_items.py): the per-item sync task *)

(** An element of the [mediaItems:batchGet] reply, after
    [_get_items_to_sync]: an error message, or the media item with its
    [baseUrl] ([""] when absent) and its video processing status. *)
Inductive batch_item : Type :=
| BatchError (message : string)
| BatchItem (base_url : string) (video_status : option string).

(** The status [_sync_items_concurrently] writes for a finished task:
    [sync_error] for an exception, otherwise
    ['synced' if status in ['synced', 'skipped'] else status]. *)
Definition task_status (r : exn + string) : string :=
  match r with
  | inl _ => "sync_error"
  | inr s => if mem_str s ["synced"; "skipped"] then "synced" else s
  end.

Module MediaSync.
Section Task.
Variable dest_path : string.
(** [datetime.strptime(d, '%Y-%m-%d %H:%M:%S').timestamp()] (local time). *)
Variable timestamp : string -> nat.
(** Whether the streamed download of an URL delivers [content-length]
    bytes; otherwise [_download_item] raises [MediaItemDownloadError]. *)
Variable download_ok : string -> bool.
(** [tempfile.NamedTemporaryFile(delete=False).name] *)
Variable tmp_file : string.

Fixpoint upto_slash (l : list ascii) : list ascii :=
  match l with
  | [] => []
  | c :: l' => if Ascii.eqb c "/"%char then [] else c :: upto_slash l'
  end.

(** [mime_type.split('/')[0]] *)
Definition media_type (mime : string) : string :=
  string_of_list_ascii (upto_slash (list_ascii_of_string mime)).

Definition dest_file_of (r : media_row) : string :=
  join (join dest_path (path r)) (cname r).

(** [_sync_item(media_item_meta, media_item)] *)
Definition _sync_item (r : media_row) (item : batch_item) : M string :=
  match item with
  | BatchError msg => raise (ValueError msg)
  | BatchItem url vstatus =>
      let mt := media_type (mime_type r) in
      if String.eqb url "" then raise (ValueError "Missing download_url") else
      if String.eqb (status r) "ignored" then ret "ignored" else
      if String.eqb mt "video"
         && negb (match vstatus with Some v => String.eqb v "READY" | None => false end)
      then raise (ValueError "Video is not ready") else
      let dpath := join dest_path (path r) in
      let dfile := join dpath (cname r) in
      let mts := timestamp (modify_date r) in
      f <- Fs.get_fs ;;
      (if isfile dfile f then
         if negb (match Fs.mtime dfile f with Some t => Nat.eqb t mts | None => false end)
         then Fs.modify_fs (Fs.remove_file dfile) ;;; ret false
         else ret true
       else ret false) ;;= fun already =>
      if already then ret "skipped" else
      let url' := (url ++ (if String.eqb mt "video" then "=dv" else "=d"))%string in
      Fs.modify_fs (Fs.write_file tmp_file 0) ;;;
      (if download_ok url' then ret tt
       else raise (OSError "MediaItemDownloadError")) ;;;
      Fs.modify_fs (Fs.makedirs dpath) ;;;
      (* shutil.move(tmp_file, dest_file); os.utime(dest_file, (ctime, mtime)) *)
      Fs.modify_fs (fun f => Fs.write_file dfile mts (Fs.remove_file tmp_file f)) ;;;
      ret "synced"
  end.

Fixpoint run_tasks (tasks : list (media_row * batch_item)) : M (list (media_row * (exn + string))) :=
  match tasks with
  | [] => ret []
  | (r, it) :: rest =>
      res <- (fun s => let '(x, s') := _sync_item r it s in (inr x, s')) ;;
      others <- run_tasks rest ;;
      ret ((r, res) :: others)
  end.

(** [_sync_items_concurrently(to_sync)]: the tasks of the chunk are
    gathered, then each row gets [task_status] of its task's outcome. *)
Definition _sync_items_concurrently (tasks : list (media_row * batch_item)) : M unit :=
  results <- run_tasks tasks ;;
  fold_right (fun rr k =>
      MediaItemsModel.update_media_item_meta (media_id (fst rr))
        [("status", KStr (task_status (snd rr)))] ;;; k)
    (ret tt) results.

End Task.
End MediaSync.

(* ------------------------------------------------------------------ *)
(** ** Albums (albums.py): linking and deletion *)
Module AlbumsFs.
Import AlbumsModel.

Section Engine.
(** [self._dest_path] of [Albums] and [self._media_items.dest_path] *)
Variable dest_path : string.
Variable media_dest_path : string.

Definition album_dir_of (v : album_item_view) : string :=
  join (join dest_path (album_path v)) (album_cname v).

Definition link_of (v : album_item_view) : string :=
  join (album_dir_of v) (item_cname v).

(** [_sync_album_item(album_item_meta, use_symlinks=...)]; the link is
    created with [os.symlink] (relative target) or [os.link]. *)
Definition _sync_album_item (v : album_item_view) (use_symlinks : bool) : M string :=
  if String.eqb (item_cname v) "" || String.eqb (album_cname v) ""
  then raise (ValueError "Missing meta for album item") else
  if negb (mem_str (item_status v) ["synced"; "ignored"])
  then raise (ValueError "media item is not synced") else
  if String.eqb (item_status v) "ignored" then ret "ignored" else
  let src_file := join (join media_dest_path (item_path v)) (item_cname v) in
  let dpath := album_dir_of v in
  let dfile := link_of v in
  f <- Fs.get_fs ;;
  if negb (isfile src_file f) then raise (ValueError "missing source file") else
  if isfile dfile f then ret "skipped" else
  Fs.modify_fs (Fs.makedirs dpath) ;;;
  Fs.modify_fs (Fs.write_file dfile (match Fs.mtime src_file f with Some t => t | None => 0 end)) ;;;
  ret "synced".

(** [_delete_album_item_file(album_item_meta)] *)
Definition _delete_album_item_file (v : album_item_view) : M unit :=
  if String.eqb (item_cname v) "" || String.eqb (album_cname v) ""
  then raise (ValueError "Missing meta for album item") else
  f <- Fs.get_fs ;;
  if isfile (link_of v) f then Fs.modify_fs (Fs.remove_file (link_of v)) else ret tt.

Fixpoint delete_items_page (rows : list album_item_view) (offset deleted failed : nat)
  : M (nat * nat * nat) :=
  match rows with
  | [] => ret (offset, deleted, failed)
  | v :: rest =>
      r <- try_except
             (_delete_album_item_file v ;;; delete_album_item_meta (v_album_item_id v) ;;;
              ret (offset, S deleted, failed))
             (fun _ => ret (S offset, deleted, S failed)) ;;
      let '(o, d, fl) := r in delete_items_page rest o d fl
  end.

Fixpoint delete_items_loop (fuel offset deleted failed : nat) : M (nat * nat) :=
  match fuel with
  | 0 => ret (deleted, failed)
  | S f =>
      to_delete <- search_albums_items_meta 100 offset (Some (false, ["stale"])) "" "" ;;
      match to_delete with
      | [] => ret (deleted, failed)
      | _ :: _ =>
          r <- delete_items_page to_delete offset deleted failed ;;
          storage_commit ;;;
          let '(o, d, fl) := r in delete_items_loop f o d fl
      end
  end.

(** [_delete_obsolete_albums_items_db()]: each round deletes a row or moves
    [offset] past it, and the query is empty once [offset] passes the stale
    rows, so [1 + len(albums_items)] rounds reach the [break]. Returns
    (deleted, failed). *)
Definition _delete_obsolete_albums_items_db : M (nat * nat) :=
  total <- get_albums_items_meta_cnt ["stale"] [] 0 ;;
  if Nat.eqb total 0 then ret (0, 0)
  else s <- get ;; delete_items_loop (S (length (albums_items (working s)))) 0 0 0.

Fixpoint delete_fs_files (fl : list string) (deleted : nat) : M nat :=
  match fl with
  | [] => ret deleted
  | p :: rest =>
      let '(root, file) := Fs.split_last p in
      let album := snd (Fs.split_last root) in
      found <- search_albums_items_meta 100 0 None album file ;;
      match found with
      | [] => Fs.modify_fs (Fs.remove_file p) ;;; delete_fs_files rest (S deleted)
      | _ :: _ => delete_fs_files rest deleted
      end
  end.

(** [_delete_obsolete_albums_items_fs()]: the files [os.walk] finds below
    [<dest>/albums]. *)
Definition _delete_obsolete_albums_items_fs : M nat :=
  f <- Fs.get_fs ;;
  delete_fs_files (filter (Fs.is_prefix (join dest_path "albums" ++ "/"))
                          (map fst (files f))) 0.

(** [delete_obsolete_albums_items()] *)
Definition delete_obsolete_albums_items : M (nat * nat) :=
  r <- _delete_obsolete_albums_items_db ;;
  n <- _delete_obsolete_albums_items_fs ;;
  ret (fst r + n, snd r).

(** [_delete_album_dir(album_meta)] *)
Definition _delete_album_dir (a : album_row) : M unit :=
  let d := join (join dest_path (a_path a)) (a_cname a) in
  f <- Fs.get_fs ;;
  if isdir d f then
    match Fs.rmdir d f with
    | inl e => raise e
    | inr f' => Fs.modify_fs (fun _ => f')
    end
  else ret tt.

Fixpoint delete_albums_page (rows : list album_row) (offset deleted failed : nat)
  : M (nat * nat * nat) :=
  match rows with
  | [] => ret (offset, deleted, failed)
  | a :: rest =>
      r <- try_except
             (_delete_album_dir a ;;; delete_album_meta (album_id a) ;;;
              ret (offset, S deleted, failed))
             (fun _ => ret (S offset, deleted, S failed)) ;;
      let '(o, d, fl) := r in delete_albums_page rest o d fl
  end.

Fixpoint delete_albums_loop (fuel offset deleted failed : nat) : M (nat * nat) :=
  match fuel with
  | 0 => ret (deleted, failed)
  | S f =>
      to_delete <- search_albums_meta 100 offset "" "" (Some (false, ["stale"])) ;;
      match to_delete with
      | [] => ret (deleted, failed)
      | _ :: _ =>
          r <- delete_albums_page to_delete offset deleted failed ;;
          storage_commit ;;;
          let '(o, d, fl) := r in delete_albums_loop f o d fl
      end
  end.

(** [delete_obsolete_albums()] *)
Definition delete_obsolete_albums : M (nat * nat) :=
  total <- get_albums_meta_cnt (Some (false, ["stale"])) ;;
  if Nat.eqb total 0 then ret (0, 0)
  else s <- get ;; delete_albums_loop (S (length (albums (working s)))) 0 0 0.

End Engine.
End AlbumsFs.

(* ------------------------------------------------------------------ *)
(** ** MediaItems (media_items.py): deletion of stale items *)
Module MediaItemsFs.
Import MediaItemsModel.

Section Engine.
(** [self._dest_path] *)
Variable dest_path : string.

Definition dest_file_of (r : media_row) : string :=
  join (join dest_path (path r)) (cname r).

(** [_delete_item_file(media_item_meta)] *)
Definition _delete_item_file (r : media_row) : M unit :=
  f <- Fs.get_fs ;;
  if isfile (dest_file_of r) f then Fs.modify_fs (Fs.remove_file (dest_file_of r)) else ret tt.

(** The [for media_item_meta in to_delete] loop of one page. *)
Fixpoint delete_page (rows : list media_row) (offset deleted failed : nat)
  : M (nat * nat * nat) :=
  match rows with
  | [] => ret (offset, deleted, failed)
  | r :: rest =>
      x <- try_except
             (_delete_item_file r ;;; delete_media_item_meta (media_id r) ;;;
              ret (offset, S deleted, failed))
             (fun _ => ret (S offset, deleted, S failed)) ;;
      let '(o, d, fl) := x in delete_page rest o d fl
  end.

Fixpoint delete_loop (fuel offset deleted failed : nat) : M (nat * nat) :=
  match fuel with
  | 0 => ret (deleted, failed)
  | S f =>
      to_delete <- search_media_items_meta 100 offset "" "" (Some (false, ["stale"])) ;;
      match to_delete with
      | [] => ret (deleted, failed)
      | _ :: _ =>
          x <- delete_page to_delete offset deleted failed ;;
          storage_commit ;;;
          let '(o, d, fl) := x in delete_loop f o d fl
      end
  end.

(** [_delete_obsolete_items_by_db()]: each round deletes a row or moves
    [offset] past it, and the query is empty once [offset] passes the stale
    rows, so [1 + len(media_items)] rounds reach the [break]. Returns
    (deleted, failed). *)
Definition _delete_obsolete_items_by_db : M (nat * nat) :=
  total <- get_media_items_meta_cnt (Some (false, ["stale"])) ;;
  if Nat.eqb total 0 then ret (0, 0)
  else s <- get ;; delete_loop (S (length (media_items (working s)))) 0 0 0.

End Engine.
End MediaItemsFs.

(* ------------------------------------------------------------------ *)
(** ** The rescan pass of [index_items]: listed ids and catalog invariant *)

(** The ids of the media items [index_items] receives, page by page, until
    [media_items_search] returns nothing, raises, or has no next page. *)
Fixpoint listed_ids (pages : list (response remote_media)) : list string :=
  match pages with
  | [] | REmpty :: _ | RRaise :: _ => []
  | RPage items has_next :: rest =>
      map rm_id items ++ (if has_next then listed_ids rest else [])
  end.

(** The invariant of the catalog during a rescan pass started at time
    [c] on the rows [rows0], after the items [seen] were indexed or found
    up to date: the keys are unique, and every row is either an untouched
    initial row checked before [c], or a row refreshed at [c] for one of
    [seen], which is not stale. *)
Record index_inv (rows0 : list media_row) (c : nat) (seen : list string) (d : db) : Prop := {
  inv_ids : NoDup (map media_id (media_items d));
  inv_rids : NoDup (map remote_id (media_items d));
  inv_seq : forall r, In r (media_items d) -> 1 <= media_id r <= seq_media d;
  inv_rows : forall r, In r (media_items d) ->
    (In r rows0 /\ last_checked r < c) \/
    (last_checked r = c /\ status r <> "stale" /\ In (remote_id r) seen);
  inv_seen : forall id, In id seen ->
    exists r, In r (media_items d) /\ remote_id r = id /\ last_checked r = c /\ status r <> "stale"
}.

(** The media items [index_items] receives, page by page, in the same
    pages as [listed_ids]. *)
Fixpoint listed_items (pages : list (response remote_media)) : list remote_media :=
  match pages with
  | [] | REmpty :: _ | RRaise :: _ => []
  | RPage items has_next :: rest =>
      items ++ (if has_next then listed_items rest else [])
  end.

(** When [index_item(media_item)] raises on the catalog rows [rows], read
    off its code: the remote id is empty ([get_media_item_meta] raises
    [ValueError]), or [_index_needed] holds for the row found by remote id
    and the [creationTime] does not parse ([_add_item] raises). *)
Definition index_item_raises (rows : list media_row) (mi : remote_media) : bool :=
  String.eqb (rm_id mi) "" ||
  (MediaItems._index_needed (find (fun r => String.eqb (remote_id r) (rm_id mi)) rows) &&
   match Utils.parse_creation_time (rm_creation_time mi) with
   | inl _ => true
   | inr _ => false
   end).

(** What a rescan pass keeps besides [index_inv]: an initial row whose
    item is not among [seen] is still in the catalog, every item of [seen]
    has a row that [_index_needed] considers up to date, and the empty
    remote id is not among [seen]. *)
Record track_inv (rows0 : list media_row) (seen : list string) (d : db) : Prop := {
  trk_keep : forall r, In r rows0 -> ~ In (remote_id r) seen -> In r (media_items d);
  trk_ok : forall id, In id seen -> exists r, In r (media_items d) /\ remote_id r = id /\
             mem_str (status r) ["synced"; "pending_sync"; "ignored"] = true;
  trk_nonempty : ~ In ""%string seen
}.

(** Two states with the same working database and clock. *)
Definition wc_same (s s' : st) : Prop := working s' = working s /\ clock s' = clock s.

(* ------------------------------------------------------------------ *)
(** ** Concrete catalogs used by the statements below *)
Module Fixtures.

Definition empty_db : db := DB [] [] [] [] 0 0 0.

(** A catalog state whose working and committed views agree. *)
Definition at_rest (d : db) (f : fs_state) (t : nat) : st := St d d f t.

(** A media row stamped at time [t]. *)
Definition media (i : nat) (rid cn pth st : string) (t : nat) : media_row :=
  MediaRow i rid cn cn "image/jpeg" "2020-01-05 10:00:00" "2020-01-05 10:00:00" pth t t st.

(** 101 synced rows whose files are all missing from the disk. *)
Definition synced_rows : list media_row :=
  map (fun i => media i ("r" ++ string_of_nat i) ("p" ++ string_of_nat i ++ ".jpg")
                      "items/2020/01" "synced" 5) (seq 1 101).

Definition scan_state : st :=
  at_rest (DB synced_rows [] [] [] 101 0 0) (FS [] []) 10.

(** One stale album "Trip" whose only membership is stale, with its link
    and the linked media file on disk. *)
Definition trip_db : db :=
  DB [media 1 "m1" "photo.jpg" "items/2020/01" "synced" 100]
     [AlbumRow 1 "a1" "Trip" "Trip" 1 "m1" "albums" 100 100 "stale"]
     [AlbumItemRow 1 1 1 "stale"] [] 1 1 1.

Definition trip_fs : fs_state :=
  FS [("lib/items/2020/01/photo.jpg", 7); ("lib/albums/Trip/photo.jpg", 7)]
     ["lib/items/2020/01"; "lib/albums/Trip"].

Definition trip_state : st := at_rest trip_db trip_fs 300.

(** Two new photos of one listing page. *)
Definition photo1 : remote_media := RemoteMedia "m1" "photo.jpg" "image/jpeg" "2020-01-05T10:00:00Z".
Definition photo2 : remote_media := RemoteMedia "m2" "beach.jpg" "image/jpeg" "2020-01-06T11:00:00Z".

Definition empty_state (t : nat) : st := at_rest empty_db (FS [] []) t.

(** A remote library with the photo [photo1] and one album "Trip"
    holding it. *)
Definition trip_album : remote_album := RemoteAlbum "a1" "Trip" 1 "m1".
Definition trip_remote : api :=
  Api (fun _ => [RPage [photo1] false]) [RPage [trip_album] false].

Definition index_all : Identity.index_options := Identity.IndexOptions false false false [].

(** The first [index] run at time 100 and the second one at time 200,
    with the settings the identity loaded before each run. *)
Definition first_run : st := snd (Identity.index trip_remote [] index_all (empty_state 100)).
Definition second_run_start : st :=
  St (working first_run) (committed first_run) (fs first_run) 200.
Definition second_run : (exn + unit) * st :=
  Identity.index trip_remote (settings (working first_run)) index_all second_run_start.

(** A catalog whose only row, for the remote item [m1], is in
    [sync_error]; the listing returns [m1] with a [creationTime] carrying
    fractional seconds, which [datetime.strptime(..., '%Y-%m-%dT%H:%M:%SZ')]
    refuses. *)
Definition bad_photo : remote_media :=
  RemoteMedia "m1" "photo.jpg" "image/jpeg" "2020-01-05T10:00:00.123Z".
Definition bad_remote : api := Api (fun _ => [RPage [bad_photo] false]) [].
Definition error_state : st :=
  at_rest (DB [media 1 "m1" "photo.jpg" "items/2020/01" "sync_error" 50] [] [] [] 1 0 0)
    (FS [] []) 100.

(** The same listing with the new photo [photo2] after [bad_photo]. *)
Definition mixed_remote : api := Api (fun _ => [RPage [bad_photo; photo2] false]) [].

End Fixtures.

(* ================================================================== *)
(** * Auxiliary notions for the properties of the remaining functions *)

(** Lists without two consecutive underscores. *)
Definition no_double_us (l : list ascii) : Prop :=
  forall p q, l <> p ++ "_"%char :: "_"%char :: q.

Fixpoint no_double_us_b (l : list ascii) : bool :=
  match l with
  | c1 :: ((c2 :: _) as l') =>
      negb (Ascii.eqb c1 "_" && Ascii.eqb c2 "_") && no_double_us_b l'
  | _ => true
  end.

Definition head_not_us (l : list ascii) : Prop :=
  match l with c :: _ => c <> "_"%char | [] => True end.

(** The list [transform_fs_safe] builds before truncating to 255 characters. *)
Definition fs_safe_core (x : string) : list ascii :=
  let l := map (fun c => if Utils.keep_char c then c else "_"%char) (list_ascii_of_string x) in
  let l := Utils.squeeze_underscores false l in
  rev (Utils.drop_leading_us (rev (Utils.drop_leading_us l))).

(** The rows a candidate name may still collide with: those of the
    searched path whose name is at least as long as the candidate. *)
Definition canon_room {A} (cn_of pth_of : A -> string) (rows : list A) (c pth : string) : nat :=
  length (filter (fun r => (String.eqb pth "" || String.eqb (pth_of r) pth) &&
                           Nat.leb (String.length c) (String.length (cn_of r))) rows).

Definition canon_hit {A} (cn_of pth_of : A -> string) (c pth : string) (r : A) : bool :=
  (String.eqb c "" || String.eqb (cn_of r) c) && (String.eqb pth "" || String.eqb (pth_of r) pth).

(** The rows [ignore_items(ids)] marks: those whose id is a non-zero entry of [ids]. *)
Definition ignore_target (ids : list nat) (r : media_row) : bool :=
  negb (Nat.eqb (media_id r) 0) && existsb (Nat.eqb (media_id r)) ids.

(** The entries of [ids] that are non-zero and name a row. *)
Definition ignore_hits (rows : list media_row) (ids : list nat) : nat :=
  length (filter (fun mid => negb (Nat.eqb mid 0) && existsb (fun r => Nat.eqb (media_id r) mid) rows) ids).

Definition mark_ignored (ids : list nat) (rows : list media_row) : list media_row :=
  map (fun r => if ignore_target ids r then MediaItemsModel.set_status "ignored" r else r) rows.

Definition is_stale (r : media_row) : bool := String.eqb (status r) "stale".

(** The files of the stale rows of [rows]. *)
Definition stale_file (dp : string) (rows : list media_row) (n : string) : bool :=
  existsb (fun r => is_stale r && String.eqb n (MediaItemsFs.dest_file_of dp r)) rows.

Definition in_page (page : list media_row) (x : media_row) : bool :=
  existsb (fun r => Nat.eqb (media_id x) (media_id r)) page.

Definition page_file (dp : string) (page : list media_row) (n : string) : bool :=
  existsb (fun r => String.eqb n (MediaItemsFs.dest_file_of dp r)) page.

Definition stale_page (rows : list media_row) : list media_row :=
  limit_offset 100 0 (MediaItemsModel.sort_by_id
    (filter (MediaItemsModel.search_where "" "" (Some (false, ["stale"]))) rows)).

(** A catalog with one stale row whose file is on disk, and a synced one. *)
Definition stale_db : db :=
  DB [Fixtures.media 1 "m1" "photo.jpg" "items/2020/01" "stale" 100;
      Fixtures.media 2 "m2" "beach.jpg" "items/2020/01" "synced" 100] [] [] [] 2 0 0.

Definition stale_state : st := Fixtures.at_rest stale_db Fixtures.trip_fs 300.

(** The identity and state of a catalog row. *)
Definition row_key (r : media_row) : nat * string * string := (media_id r, remote_id r, status r).

(** The catalog holds a row for [rid] that [_index_needed] considers up to date. *)
Definition indexed_ok (rid : string) (d : db) : Prop :=
  exists r, find (fun x => String.eqb (remote_id x) rid) (media_items d) = Some r /\
            mem_str (status r) ["synced"; "pending_sync"; "ignored"] = true.

Definition is_pending (r : media_row) : bool := String.eqb (status r) "pending_sync".

(** How [scan_synced_items_fs] may change a row: not at all, or a [synced]
    row whose file is missing becomes [pending_sync]. *)
Definition scan_fix (dp : string) (f0 : fs_state) (r r' : media_row) : Prop :=
  r' = r \/
  (status r = "synced" /\ isfile (join (join dp (path r)) (cname r)) f0 = false /\
   r' = MediaItemsModel.set_status "pending_sync" r).

Definition fix_row (mid : nat) (l : list media_row) : list media_row :=
  map (fun x => if Nat.eqb (media_id x) mid then MediaItemsModel.set_status "pending_sync" x else x) l.

(* ================================================================== *)
(** * Properties *)

Lemma NoDup_map_inj {A B} (f : A -> B) (l : list A) (x y : A) :
  NoDup (map f l) -> In x l -> In y l -> f x = f y -> x = y.
Proof.
  induction l as [| a l IH]; simpl; [tauto |].
  intros Hnd Hx Hy Hf. inversion Hnd as [| ? ? Hnin Hnd']; subst.
  destruct Hx as [<- | Hx]; destruct Hy as [<- | Hy]; auto.
  - exfalso. apply Hnin. rewrite Hf. apply in_map. exact Hy.
  - exfalso. apply Hnin. rewrite <- Hf. apply in_map. exact Hx.
Qed.

Lemma NoDup_snoc {A} (l : list A) (a : A) : NoDup l -> ~ In a l -> NoDup (l ++ [a]).
Proof.
  induction l as [| b l IH]; simpl; intros Hnd Hnin.
  - constructor; [tauto | constructor].
  - inversion Hnd; subst. constructor.
    + rewrite in_app_iff. simpl. intuition.
    + apply IH; tauto.
Qed.

Lemma canon_loop_wc :
  forall fuel u fn pth s, wc_same s (snd (MediaItems.canon_loop fuel u fn pth s)).
Proof.
  induction fuel as [| f IH]; intros u fn pth s; [split; reflexivity |].
  cbn [MediaItems.canon_loop]. unfold bind at 1, MediaItemsModel.search_media_items_meta, execute.
  cbn [fst snd].
  destruct (limit_offset _ _ _) as [| x l].
  - split; reflexivity.
  - destruct (Utils.splitext fn) as [nm ext].
    destruct (IH (S u) ((nm ++ " (" ++ string_of_nat u ++ ")" ++ ext)%string) pth
                 (St (working s) (working s) (fs s) (clock s))) as [H1 H2].
    split; [rewrite H1 | rewrite H2]; reflexivity.
Qed.

Lemma get_canon_wc : forall fn pth s, wc_same s (snd (MediaItems._get_canonicalized_name fn pth s)).
Proof.
  intros fn pth s. unfold MediaItems._get_canonicalized_name, bind, get.
  destruct (Utils.splitext fn) as [nm ext]. apply canon_loop_wc.
Qed.

Lemma inv_map rows0 c seen d rid (g : media_row -> media_row) :
  index_inv rows0 c seen d ->
  (forall x, In x (media_items d) ->
     media_id (g x) = media_id x /\ remote_id (g x) = remote_id x /\
     (g x = x \/ (last_checked (g x) = c /\ status (g x) <> "stale" /\ remote_id x = rid))) ->
  (forall x, In x (media_items d) -> remote_id x = rid ->
     last_checked (g x) = c /\ status (g x) <> "stale") ->
  (exists x, In x (media_items d) /\ remote_id x = rid) ->
  index_inv rows0 c (rid :: seen) (MediaItemsModel.with_media_items d (map g (media_items d))).
Proof.
  intros [Hids Hrids Hseq Hrows Hseen] Hg Hrid [x0 [Hx0 Hx0r]].
  assert (Eid : map media_id (map g (media_items d)) = map media_id (media_items d)).
  { rewrite map_map. apply map_ext_in. intros a Ha. apply (Hg a Ha). }
  assert (Erid : map remote_id (map g (media_items d)) = map remote_id (media_items d)).
  { rewrite map_map. apply map_ext_in. intros a Ha. apply (Hg a Ha). }
  constructor; cbn [MediaItemsModel.with_media_items media_items seq_media].
  - rewrite Eid. exact Hids.
  - rewrite Erid. exact Hrids.
  - intros y Hy. apply in_map_iff in Hy as [x [<- Hx]].
    destruct (Hg x Hx) as [-> _]. apply Hseq, Hx.
  - intros y Hy. apply in_map_iff in Hy as [x [<- Hx]].
    destruct (Hg x Hx) as [_ [Er [E | [E1 [E2 E3]]]]].
    + rewrite E. destruct (Hrows x Hx) as [H | [H1 [H2 H3]]]; [left; exact H |].
      right. simpl. auto.
    + right. rewrite Er, E3. simpl. auto.
  - intros id [<- | Hid].
    + exists (g x0). destruct (Hrid x0 Hx0 Hx0r) as [E1 E2].
      split; [apply in_map, Hx0 |]. split; [rewrite (proj1 (proj2 (Hg x0 Hx0))); exact Hx0r |].
      auto.
    + destruct (Hseen id Hid) as [x [Hx [Ex [Ec Es]]]].
      exists (g x). split; [apply in_map, Hx |].
      destruct (Hg x Hx) as [_ [Er [E | [E1 [E2 E3]]]]].
      * rewrite E. auto.
      * rewrite Er. auto.
Qed.

Lemma inv_snoc rows0 c seen d d' rid (nr : media_row) :
  index_inv rows0 c seen d ->
  media_items d' = media_items d ++ [nr] -> seq_media d' = S (seq_media d) ->
  remote_id nr = rid ->
  ~ In rid (map remote_id (media_items d)) ->
  media_id nr = S (seq_media d) ->
  last_checked nr = c -> status nr <> "stale" ->
  index_inv rows0 c (rid :: seen) d'.
Proof.
  intros [Hids Hrids Hseq Hrows Hseen] Hd' Hs' <- Hnin Hid Hlc Hst.
  constructor; rewrite ?Hd', ?Hs'.
  - rewrite map_app. apply NoDup_snoc; [exact Hids |]. simpl.
    intro Hin. apply in_map_iff in Hin as [x [Ex Hx]].
    specialize (Hseq x Hx). lia.
  - rewrite map_app. apply NoDup_snoc; assumption.
  - intros r Hr. apply in_app_iff in Hr as [Hr | [<- | []]].
    + specialize (Hseq r Hr). lia.
    + lia.
  - intros r Hr. apply in_app_iff in Hr as [Hr | [<- | []]].
    + destruct (Hrows r Hr) as [H | [H1 [H2 H3]]]; [left; exact H |].
      right. simpl. auto.
    + right. simpl. auto.
  - intros id [<- | Hin].
    + exists nr. rewrite in_app_iff. simpl. auto.
    + destruct (Hseen id Hin) as [x [Hx Hx']]. exists x. rewrite in_app_iff. auto.
Qed.

Lemma update_rows_last_checked (t : nat) (r : media_row) (l : list media_row) :
  NoDup (map media_id l) -> In r l ->
  MediaItemsModel.update_rows (media_id r) [("last_checked", KTime t)] l =
    inr (1, map (fun x => if Nat.eqb (media_id x) (media_id r)
                          then MediaItemsModel.set_last_checked t x else x) l).
Proof.
  induction l as [| a l IH]; simpl; [tauto |].
  intros Hnd Hr. inversion Hnd as [| ? ? Hnin Hnd']; subst.
  destruct (Nat.eqb_spec (media_id a) (media_id r)) as [E | E].
  - simpl. f_equal. f_equal. f_equal.
    rewrite <- (map_id l) at 1. symmetry. apply map_ext_in.
    intros x Hx. destruct (Nat.eqb_spec (media_id x) (media_id r)) as [E' | E']; [| reflexivity].
    exfalso. apply Hnin. rewrite E, <- E'. apply in_map, Hx.
  - destruct Hr as [<- | Hr]; [congruence |].
    rewrite (IH Hnd' Hr). reflexivity.
Qed.

Lemma inv_upsert rows0 c seen d v n d' :
  index_inv rows0 c seen d -> MediaItemsModel.i_last_checked v = c ->
  MediaItemsModel.upsert_stmt v (Some "pending_sync") d = inr (n, d') ->
  index_inv rows0 c (MediaItemsModel.i_remote_id v :: seen) d'.
Proof.
  intros Hinv Hlc. unfold MediaItemsModel.upsert_stmt. cbn [negb MediaItemsModel.item_statuses mem_str existsb String.eqb].
  destruct (find (fun r => String.eqb (remote_id r) (MediaItemsModel.i_remote_id v)) (media_items d)) as [old |] eqn:Hf;
    intro E; injection E as <- <-.
  - apply find_some in Hf as [Hold Hold'].
    apply inv_map; [exact Hinv | | | ].
    + intros x Hx. destruct (String.eqb_spec (remote_id x) (MediaItemsModel.i_remote_id v)) as [Ex | Ex];
        [| split; [reflexivity | split; [reflexivity | left; reflexivity]]].
      simpl. split; [reflexivity | split; [reflexivity |]]. right. split; [exact Hlc |].
      split; [discriminate | exact Ex].
    + intros x Hx Ex. rewrite Ex, String.eqb_refl. simpl. split; [exact Hlc | discriminate].
    + exists old. split; [exact Hold |]. apply String.eqb_eq, Hold'.
  - eapply inv_snoc; [exact Hinv | reflexivity | reflexivity | reflexivity | | reflexivity | exact Hlc | discriminate].
    intro Hin. apply in_map_iff in Hin as [x [Ex Hx]].
    pose proof (find_none _ _ Hf x Hx) as Hn. cbn beta in Hn. rewrite Ex, String.eqb_refl in Hn. discriminate.
Qed.

Lemma add_media_item_meta_pending v s :
  MediaItemsModel.add_media_item_meta v (Some "pending_sync") s =
  execute (MediaItemsModel.upsert_stmt v (Some "pending_sync")) true s.
Proof. reflexivity. Qed.

Lemma upsert_stmt_pending v d :
  MediaItemsModel.upsert_stmt v (Some "pending_sync") d =
  match find (fun r => String.eqb (remote_id r) (MediaItemsModel.i_remote_id v)) (media_items d) with
  | Some old =>
      inr (media_id old, MediaItemsModel.with_media_items d
        (map (fun r => if String.eqb (remote_id r) (MediaItemsModel.i_remote_id v) then
                {| media_id := media_id r; remote_id := remote_id r; name := name r;
                   cname := cname r; mime_type := mime_type r;
                   create_date := create_date r; modify_date := modify_date r;
                   path := path r; index_date := MediaItemsModel.i_index_date v;
                   last_checked := MediaItemsModel.i_last_checked v; status := "pending_sync" |}
              else r) (media_items d)))
  | None =>
      let id := S (seq_media d) in
      inr (id, {| media_items := media_items d ++
                    [{| media_id := id; remote_id := MediaItemsModel.i_remote_id v;
                        name := MediaItemsModel.i_name v; cname := MediaItemsModel.i_cname v;
                        mime_type := MediaItemsModel.i_mime_type v;
                        create_date := MediaItemsModel.i_create_date v;
                        modify_date := MediaItemsModel.i_modify_date v;
                        path := MediaItemsModel.i_path v; index_date := MediaItemsModel.i_index_date v;
                        last_checked := MediaItemsModel.i_last_checked v; status := "pending_sync" |}];
                  albums := albums d; albums_items := albums_items d;
                  settings := settings d; seq_media := id; seq_album := seq_album d;
                  seq_album_item := seq_album_item d |})
  end.
Proof. reflexivity. Qed.

Lemma add_item_cases mi s :
  (exists e s1, MediaItems._add_item mi s = (inl e, s1) /\ wc_same s s1) \/
  (exists v n d' s1, MediaItems._add_item mi s = (inr n, s1) /\
     MediaItemsModel.upsert_stmt v (Some "pending_sync") (working s) = inr (n, d') /\
     MediaItemsModel.i_remote_id v = rm_id mi /\ MediaItemsModel.i_last_checked v = clock s /\
     working s1 = d' /\ clock s1 = clock s).
Proof.
  unfold MediaItems._add_item, bind.
  destruct (Utils.parse_creation_time (rm_creation_time mi)) as [e | [[y m] cd]].
  - left. exists e, s. split; [reflexivity | split; reflexivity].
  - cbn [MediaItems.lift_exn ret].
    pose proof (get_canon_wc (rm_filename mi) (join (join "items" y) m) s) as [Hw Hcl].
    destruct (MediaItems._get_canonicalized_name (rm_filename mi) (join (join "items" y) m) s)
      as [[e | cn] s1]; cbn [fst snd] in Hw, Hcl.
    + left. exists e, s1. split; [reflexivity | split; assumption].
    + right. unfold now. rewrite add_media_item_meta_pending. unfold execute.
      match goal with
      | |- context [MediaItemsModel.upsert_stmt ?v ?sv ?d] =>
          destruct (MediaItemsModel.upsert_stmt v sv d) as [e | [n d']] eqn:E
      end.
      * exfalso. revert E. rewrite upsert_stmt_pending. destruct (find _ _); discriminate.
      * rewrite Hw in E. eexists. exists n, d'. eexists. split; [reflexivity |]. split; [exact E |].
        cbn. auto.
Qed.

Lemma add_item_spec rows0 c seen mi s :
  index_inv rows0 c seen (working s) -> clock s = c ->
  clock (snd (MediaItems._add_item mi s)) = c /\
  match fst (MediaItems._add_item mi s) with
  | inl _ => working (snd (MediaItems._add_item mi s)) = working s
  | inr _ => index_inv rows0 c (rm_id mi :: seen) (working (snd (MediaItems._add_item mi s)))
  end.
Proof.
  intros Hinv Hc.
  destruct (add_item_cases mi s) as [[e [s1 [-> [Hw Hcl]]]] | [v [n [d' [s1 [-> [E [Hr [Hl [Hw Hcl]]]]]]]]]];
    cbn [fst snd].
  - split; congruence.
  - split; [congruence |]. rewrite Hw, <- Hr. eapply inv_upsert; [exact Hinv | congruence | exact E].
Qed.

Lemma update_last_checked_eq (t : nat) (r : media_row) (s : st) :
  1 <= media_id r ->
  MediaItemsModel.update_media_item_meta (media_id r) [("last_checked", KTime t)] s =
  execute (fun d => match MediaItemsModel.update_rows (media_id r) [("last_checked", KTime t)]
                            (media_items d) with
                    | inl e => inl e
                    | inr (n, l) => inr (n, MediaItemsModel.with_media_items d l)
                    end) false s.
Proof.
  intros H. unfold MediaItemsModel.update_media_item_meta, bind, raise_if.
  destruct (Nat.eqb_spec (media_id r) 0) as [E | E]; [lia |]. reflexivity.
Qed.

Lemma index_item_spec rows0 c seen mi s :
  index_inv rows0 c seen (working s) -> clock s = c ->
  clock (snd (MediaItems.index_item mi false s)) = c /\
  match fst (MediaItems.index_item mi false s) with
  | inl _ => working (snd (MediaItems.index_item mi false s)) = working s
  | inr _ => index_inv rows0 c (rm_id mi :: seen) (working (snd (MediaItems.index_item mi false s)))
  end.
Proof.
  intros Hinv Hc. destruct (MediaItems.index_item mi false s) as [res s'] eqn:E. cbn [fst snd].
  revert E. unfold MediaItems.index_item, bind at 1, MediaItemsModel.get_media_item_meta.
  cbn [Nat.eqb andb].
  destruct (String.eqb (rm_id mi) "") eqn:Hrid;
    [intro E; injection E as <- <-; split; [exact Hc | reflexivity] |].
  unfold execute at 1. cbn [fst snd working clock committed fs].
  set (s1 := St (working s) (working s) (fs s) (clock s)).
  assert (Hinv1 : index_inv rows0 c seen (working s1)) by exact Hinv.
  assert (Hc1 : clock s1 = c) by exact Hc.
  assert (Hadd : forall k : nat -> M string,
             (forall n s2, k n s2 = (inr "indexed", s2)) ->
             bind (MediaItems._add_item mi) k s1 = (res, s') ->
             clock s' = c /\
             match res with
             | inl _ => working s' = working s
             | inr _ => index_inv rows0 c (rm_id mi :: seen) (working s')
             end).
  { intros k Hk. pose proof (add_item_spec rows0 c seen mi s1 Hinv1 Hc1) as Hs.
    unfold bind. destruct (MediaItems._add_item mi s1) as [[e | n] s2].
    - intro E; injection E as <- <-. exact Hs.
    - rewrite Hk. intro E; injection E as <- <-. exact Hs. }
  destruct (find _ (media_items (working s))) as [r |] eqn:Hf.
  - apply find_some in Hf as [Hr Hrr]. cbn beta in Hrr. apply String.eqb_eq in Hrr.
    unfold MediaItems._index_needed.
    destruct (mem_str (status r) ["synced"; "pending_sync"; "ignored"]) eqn:Hm; cbn [negb].
    + unfold bind at 1, now. cbn [fst snd].
      pose proof (inv_seq _ _ _ _ Hinv r Hr) as Hid.
      unfold bind. rewrite update_last_checked_eq by lia. unfold execute.
      cbn [working s1]. rewrite (update_rows_last_checked _ _ _ (inv_ids _ _ _ _ Hinv) Hr).
      intro E; injection E as <- <-.
      cbn [fst snd clock working]. split; [exact Hc |].
      rewrite <- Hrr. apply inv_map; [exact Hinv | | | ].
      * intros x Hx. destruct (Nat.eqb_spec (media_id x) (media_id r)) as [E | E];
          [| split; [reflexivity | split; [reflexivity | left; reflexivity]]].
        assert (x = r) by exact (NoDup_map_inj _ _ _ _ (inv_ids _ _ _ _ Hinv) Hx Hr E). subst x.
        cbn. split; [reflexivity | split; [reflexivity |]]. right.
        split; [exact Hc |]. split; [| reflexivity].
        intros Es. rewrite Es in Hm. discriminate.
      * intros x Hx Ex.
        assert (x = r) by exact (NoDup_map_inj _ _ _ _ (inv_rids _ _ _ _ Hinv) Hx Hr Ex). subst x.
        rewrite Nat.eqb_refl. cbn. split; [exact Hc |].
        intros Es. rewrite Es in Hm. discriminate.
      * exists r. auto.
    + apply Hadd. reflexivity.
  - apply Hadd. reflexivity.
Qed.

Lemma index_page_spec rows0 c (items : list remote_media) :
  forall info s seen,
  index_inv rows0 c seen (working s) -> clock s = c ->
  match MediaItems.index_page items info s with
  | (inl _, _) => False
  | (inr info', s') =>
      clock s' = c /\
      exists seen', index_inv rows0 c seen' (working s') /\
        (forall id, In id seen' -> In id seen \/ In id (map rm_id items)) /\
        (forall id, In id seen -> In id seen') /\
        failed info <= failed info' /\
        (failed info' = failed info -> forall id, In id (map rm_id items) -> In id seen')
  end.
Proof.
  induction items as [| mi rest IH]; intros info s seen Hinv Hc.
  - cbn. split; [exact Hc |]. exists seen. split; [exact Hinv |].
    split; [auto |]. split; [auto |]. split; [lia |]. intros _ id [].
  - cbn [MediaItems.index_page]. unfold bind at 1, try_except.
    pose proof (index_item_spec rows0 c seen mi s Hinv Hc) as Hs.
    unfold bind at 1.
    destruct (MediaItems.index_item mi false s) as [[e | stt] s1]; cbn [fst snd] in Hs |- *;
      destruct Hs as [Hc1 Hs].
    + rewrite <- Hs in Hinv. unfold ret. cbv beta iota.
      specialize (IH (inc_failed info) s1 seen Hinv Hc1).
      destruct (MediaItems.index_page rest (inc_failed info) s1) as [[e' | info'] s']; [exact IH |].
      destruct IH as [Hc' [seen' [Hinv' [Hsub [Hsup [Hle Hall]]]]]].
      split; [exact Hc' |]. exists seen'. split; [exact Hinv' |].
      split; [intros id Hid; destruct (Hsub id Hid); simpl; auto |].
      split; [exact Hsup |]. cbn [failed inc_failed] in Hle.
      split; [lia |]. intros E. lia.
    + unfold ret. cbv beta iota.
      set (info1 := if String.eqb stt "indexed" then inc_indexed info else inc_skipped info).
      assert (Hf1 : failed info1 = failed info)
        by (unfold info1; destruct (String.eqb stt "indexed"); reflexivity).
      specialize (IH info1 s1 (rm_id mi :: seen) Hs Hc1).
      destruct (MediaItems.index_page rest info1 s1) as [[e' | info'] s']; [exact IH |].
      destruct IH as [Hc' [seen' [Hinv' [Hsub [Hsup [Hle Hall]]]]]].
      split; [exact Hc' |]. exists seen'. split; [exact Hinv' |].
      split; [intros id Hid; destruct (Hsub id Hid) as [[<- | H] | H]; simpl; auto |].
      split; [intros id Hid; apply Hsup; simpl; auto |].
      split; [lia |]. intros E id [<- | Hid]; [apply Hsup; simpl; auto |].
      apply Hall; [lia | exact Hid].
Qed.

Lemma index_pages_spec rows0 c (pages : list (response remote_media)) :
  forall info s seen,
  index_inv rows0 c seen (working s) -> clock s = c ->
  match MediaItems.index_pages pages info s with
  | (inl e, s') =>
      (exists m, e = GPhotosApiException m) /\ exists seen', index_inv rows0 c seen' (working s')
  | (inr info', s') =>
      clock s' = c /\
      exists seen', index_inv rows0 c seen' (working s') /\
        (forall id, In id seen' -> In id seen \/ In id (listed_ids pages)) /\
        (forall id, In id seen -> In id seen') /\
        failed info <= failed info' /\
        (failed info' = failed info -> forall id, In id (listed_ids pages) -> In id seen')
  end.
Proof.
  induction pages as [| p rest IH]; intros info s seen Hinv Hc.
  - cbn. split; [exact Hc |]. exists seen. split; [exact Hinv |]. split; [auto |]. split; [auto |]. split; [lia |]. intros _ id [].
  - destruct p as [| | items has_next].
    + cbn. split; [eexists; reflexivity | exists seen; exact Hinv].
    + cbn. split; [exact Hc |]. exists seen. split; [exact Hinv |]. split; [auto |]. split; [auto |]. split; [lia |]. intros _ id [].
    + cbn [MediaItems.index_pages listed_ids]. unfold bind at 1.
      pose proof (index_page_spec rows0 c items info s seen Hinv Hc) as Hp.
      destruct (MediaItems.index_page items info s) as [[e | info1] s1]; [destruct Hp |].
      destruct Hp as [Hc1 [seen1 [Hinv1 [Hsub1 [Hsup1 [Hle1 Hall1]]]]]].
      unfold bind at 1, storage_commit.
      set (s2 := St (working s1) (working s1) (fs s1) (clock s1)).
      assert (Hinv2 : index_inv rows0 c seen1 (working s2)) by exact Hinv1.
      assert (Hc2 : clock s2 = c) by exact Hc1.
      destruct has_next.
      * specialize (IH info1 s2 seen1 Hinv2 Hc2).
        destruct (MediaItems.index_pages rest info1 s2) as [[e | info'] s']; [exact IH |].
        destruct IH as [Hc' [seen' [Hinv' [Hsub [Hsup [Hle Hall]]]]]].
        split; [exact Hc' |]. exists seen'. split; [exact Hinv' |].
        split.
        { intros id Hid. rewrite in_app_iff.
          destruct (Hsub id Hid) as [H | H]; [destruct (Hsub1 id H) |]; auto. }
        split; [auto |]. split; [lia |].
        intros E id Hid. apply in_app_iff in Hid as [Hid | Hid].
        -- apply Hsup, Hall1; [lia | exact Hid].
        -- apply Hall; [lia | exact Hid].
      * cbn. split; [exact Hc1 |]. exists seen1. split; [exact Hinv1 |].
        rewrite app_nil_r. auto.
Qed.

Lemma filter_all_true {A} (l : list A) : filter (fun _ => true) l = l.
Proof. induction l; simpl; congruence. Qed.

(** C10: with no cut-off ([None] or [""]) the bulk staleness primitives
    [set_media_items_stale] and [set_albums_meta_stale] set
    [status='stale'] on every row of their table, whatever its status, and
    report every row as matched. *)
Theorem set_stale_without_cutoff_marks_every_row :
  forall (s : st) (arg : date_arg),
    date_cond arg = None ->
    MediaItemsModel.set_media_items_stale arg s =
      (inr (length (media_items (working s))),
       let d := MediaItemsModel.with_media_items (working s)
                  (map (MediaItemsModel.set_status "stale") (media_items (working s))) in
       St d d (fs s) (clock s)) /\
    AlbumsModel.set_albums_meta_stale arg s =
      (inr (length (albums (working s))),
       let d := AlbumsModel.with_albums (working s)
                  (map (AlbumsModel.set_a_status "stale") (albums (working s))) in
       St d d (fs s) (clock s)).
Proof.
  intros s arg Harg.
  unfold MediaItemsModel.set_media_items_stale, AlbumsModel.set_albums_meta_stale,
    execute, MediaItemsModel.set_stale_stmt, AlbumsModel.set_stale_stmt.
  rewrite Harg. simpl.
  rewrite filter_all_true, filter_all_true.
  split; reflexivity.
Qed.

Lemma set_stale_without_cutoff_marks_every_row_witness :
  (date_cond ArgNone = None /\ date_cond ArgEmpty = None) /\
  MediaItemsModel.set_media_items_stale ArgEmpty Fixtures.scan_state =
      (inr 101,
       let d := MediaItemsModel.with_media_items (working Fixtures.scan_state)
                  (map (MediaItemsModel.set_status "stale") Fixtures.synced_rows) in
       St d d (fs Fixtures.scan_state) 10).
Proof.
  split; [split; reflexivity |].
  apply (set_stale_without_cutoff_marks_every_row Fixtures.scan_state ArgEmpty).
  reflexivity.
Defined.

(** C6 (code_bug): [scan_synced_items_fs] pages through the [synced] rows
    with [offset += 100] while it turns the rows of the page it fixed into
    [pending_sync]; the second query skips the first 100 of the remaining
    synced rows, so with 101 synced rows whose files are missing, the
    101st keeps status [synced]. *)
Theorem scan_synced_items_fs_misses_row_101 :
  let '(r, s') := MediaItems.scan_synced_items_fs "lib" Fixtures.scan_state in
  r = inr 100 /\
  nth_error (map status (media_items (working s'))) 100 = Some "synced" /\
  isfile (join (join "lib" "items/2020/01") "p101.jpg") (fs s') = false.
Proof. vm_compute. repeat split. Qed.

(** C5 (code_bug): [delete_album_item_meta] binds only [album_item_id]
    while its query uses [:album_id] and [:media_id]; sqlite3 refuses it
    for every row. *)
Lemma delete_album_item_meta_always_raises :
  forall (aiid : nat) (s : st), aiid <> 0 ->
    fst (AlbumsModel.delete_album_item_meta aiid s) =
      inl (ProgrammingError "You did not supply a value for binding parameter :album_id").
Proof.
  intros aiid s H. unfold AlbumsModel.delete_album_item_meta, raise_if, bind, execute.
  destruct (Nat.eqb_spec aiid 0) as [E|E]; [contradiction|]. reflexivity.
Qed.

(** C5 (code_bug): on one stale album "Trip" with one stale membership,
    [delete_obsolete_albums_items] removes the link but keeps the row
    (one failure), then [delete_obsolete_albums] removes the now empty
    directory and the album row, leaving the membership row orphaned. *)
Theorem delete_obsolete_leaves_orphan_album_item :
  let '(r1, s1) := AlbumsFs.delete_obsolete_albums_items "lib" Fixtures.trip_state in
  let '(r2, s2) := AlbumsFs.delete_obsolete_albums "lib" s1 in
  r1 = inr (0, 1) /\ r2 = inr (1, 0) /\
  isfile "lib/albums/Trip/photo.jpg" (fs s1) = false /\
  albums (committed s2) = [] /\
  isdir "lib/albums/Trip" (fs s2) = false /\
  albums_items (committed s2) = [AlbumItemRow 1 1 1 "stale"].
Proof. vm_compute. repeat split. Qed.

(** C9 (code_bug): [add_album_item_meta] checks no status; a status outside
    the membership enumeration reaches the INSERT and is stored. *)
Theorem add_album_item_meta_stores_unknown_status :
  mem_str "bogus" AlbumsModel.item_statuses = false /\
  let '(r, s') := AlbumsModel.add_album_item_meta 1 1 (Some "bogus") Fixtures.trip_state in
  r = inr 1 /\
  albums_items (working s') = [AlbumItemRow 1 1 1 "bogus"].
Proof. vm_compute. repeat split. Qed.

(** C2 (code_bug): inside a page of [index_items] (which calls
    [index_item(..., commit=False)]), the INSERT of a new media item is
    already durable once that item is processed, before the next item of
    the page and before the page's [self._model.commit()]:
    [add_media_item_meta] runs its statement with the default
    [commit=True]. *)
Theorem index_item_insert_committed_before_page_commit :
  let s0 := Fixtures.empty_state 100 in
  let '(r1, s1) := MediaItems.index_item Fixtures.photo1 false s0 in
  r1 = inr "indexed" /\
  media_items (committed s0) = [] /\
  map remote_id (media_items (committed s1)) = ["m1"] /\
  (* the same holds inside the page loop of index_items *)
  let '(r2, s2) := MediaItems.index_page [Fixtures.photo1; Fixtures.photo2]
                     (IndexStats 0 0 0) s0 in
  r2 = inr (IndexStats 2 0 0) /\
  map remote_id (media_items (committed s2)) = ["m1"; "m2"].
Proof. vm_compute. repeat split. Qed.

(** C3 (code_bug): two [index] runs over the same remote library (one
    photo, one album "Trip" holding it). The second run's
    [Albums._index_needed] raises [TypeError] (see C4), the album is
    counted failed and never refreshed, and the closing
    [set_albums_meta_stale] / [_propagate_stale_albums] turn the album and
    its membership from [indexed] / [pending_sync] into [stale]. *)
Theorem second_index_run_marks_unchanged_album_stale :
  let '(r, s2) := Fixtures.second_run in
  r = inr tt /\
  map a_status (albums (working Fixtures.first_run)) = ["indexed"] /\
  map ai_status (albums_items (working Fixtures.first_run)) = ["pending_sync"] /\
  map a_status (albums (working s2)) = ["stale"] /\
  map ai_status (albums_items (working s2)) = ["stale"] /\
  fst (Albums.index_albums Fixtures.trip_remote None false []
         (St (working Fixtures.first_run) (committed Fixtures.first_run)
             (fs Fixtures.first_run) 200)) = inr (IndexStats 0 0 1).
Proof. vm_compute. repeat split. Qed.

(** C4 (code_bug): the index-needed decision never returns for an album
    that already has a row: its membership count
    [get_albums_items_meta_cnt(album_id=..., status_not=['stale'])] passes
    [negate=True] to [gen_in_condition], whose signature has no such
    parameter, so [_index_needed] raises [TypeError] whatever the row, the
    remote album and the state (nothing is changed). Only an album without
    a row gets a decision ([True]). *)
Theorem index_needed_raises_for_known_album :
  forall (r : album_row) (a : remote_album) (s : st),
    Albums._index_needed (Some r) a s =
      (inl (TypeError "gen_in_condition() got an unexpected keyword argument 'negate'"), s) /\
    Albums._index_needed None a s = (inr true, s).
Proof. intros r a s. split; reflexivity. Qed.

Lemma advance_watermark_spec (key : string) (sdate : nat) (info : index_stats) (s0 : st) :
  String.eqb key "" = false ->
  let gate := negb (Nat.eqb (indexed info) 0) && Nat.eqb (failed info) 0 in
  exists s1, Identity.advance_watermark key sdate info s0 = (inr tt, s1) /\
    working s1 = Identity.with_settings (working s0)
                   (if gate then Identity.upsert_setting key sdate (settings (working s0))
                    else settings (working s0)) /\
    committed s1 = (if gate then working s1 else committed s0) /\
    fs s1 = fs s0 /\ clock s1 = clock s0.
Proof.
  intros Hk gate. unfold Identity.advance_watermark, Identity.stats_truthy, gate.
  destruct (Nat.eqb_spec (indexed info) 0) as [Hi | Hi];
    destruct (Nat.eqb_spec (failed info) 0) as [Hf | Hf];
    destruct (Nat.eqb_spec (indexed info + skipped info + failed info) 0) as [Ht | Ht];
    try lia; cbn [negb andb];
    try (exists s0; destruct s0 as [[] c f k]; repeat split; reflexivity).
  unfold Identity.update_aseting, raise_if, bind, ret, execute. rewrite Hk.
  eexists. repeat split; reflexivity.
Qed.

(** C8 (counterexample): an index pass over a library whose only photo is
    already synced completes with no failure (one skipped, none indexed),
    yet [index] does not write [media_items_last_index]: the gate also
    requires [processed['indexed']] to be non-zero. *)
Lemma watermark_not_advanced_when_nothing_indexed :
  let s := Fixtures.at_rest
             (DB [Fixtures.media 1 "m1" "photo.jpg" "items/2020/01" "synced" 50] [] [] [] 1 0 0)
             (FS [] []) 100 in
  let o := Identity.IndexOptions false true false [] in
  fst (MediaItems.index_items Fixtures.trip_remote None false s) = inr (IndexStats 0 1 0) /\
  fst (Identity.index Fixtures.trip_remote [] o s) = inr tt /\
  settings (working (snd (Identity.index Fixtures.trip_remote [] o s))) = [].
Proof. vm_compute. repeat split. Qed.

(** C8 (amended): in [index], each pass sets its watermark
    ([media_items_last_index] for the media-item pass,
    [albums_last_index] for the album pass) to the pass's start time,
    committed, exactly when the pass returns with at least one item
    indexed and no failure; a pass that raises propagates its exception
    (after a raising media-item pass the album pass does not run); any
    other pass (a failure, or nothing indexed) leaves the settings as the
    pass left them. After the media-item pass and its watermark step,
    [index] goes on exactly as an album-only run from the state they
    left. *)
Theorem index_watermark_gate :
  forall (google_api : api) (ls : list (string * nat)) (sa rsc : bool) (fl : list string) (s : st),
    (match MediaItems.index_items google_api
             (Identity.lookup_setting "media_items_last_index" ls) rsc s with
     | (inl e, s0) => Identity.index google_api ls (Identity.IndexOptions false sa rsc fl) s = (inl e, s0)
     | (inr info, s0) =>
         exists s1,
           working s1 = Identity.with_settings (working s0)
             (if negb (Nat.eqb (indexed info) 0) && Nat.eqb (failed info) 0
              then Identity.upsert_setting "media_items_last_index" (clock s) (settings (working s0))
              else settings (working s0)) /\
           committed s1 = (if negb (Nat.eqb (indexed info) 0) && Nat.eqb (failed info) 0
                           then working s1 else committed s0) /\
           fs s1 = fs s0 /\ clock s1 = clock s0 /\
           Identity.index google_api ls (Identity.IndexOptions false sa rsc fl) s =
             Identity.index google_api ls (Identity.IndexOptions true sa rsc fl) s1
     end) /\
    (match Albums.index_albums google_api (Identity.lookup_setting "albums_last_index" ls) rsc fl s with
     | (inl e, s0) => Identity.index google_api ls (Identity.IndexOptions true false rsc fl) s = (inl e, s0)
     | (inr info, s0) =>
         exists s1,
           Identity.index google_api ls (Identity.IndexOptions true false rsc fl) s = (inr tt, s1) /\
           working s1 = Identity.with_settings (working s0)
             (if negb (Nat.eqb (indexed info) 0) && Nat.eqb (failed info) 0
              then Identity.upsert_setting "albums_last_index" (clock s) (settings (working s0))
              else settings (working s0)) /\
           committed s1 = (if negb (Nat.eqb (indexed info) 0) && Nat.eqb (failed info) 0
                           then working s1 else committed s0) /\
           fs s1 = fs s0 /\ clock s1 = clock s0
     end).
Proof.
  intros google_api ls sa rsc fl s. split.
  - unfold Identity.index. cbn [Identity.skip_media_items Identity.skip_albums
                                 Identity.rescan Identity.filter_albums].
    unfold bind at 1, bind at 1, now.
    destruct (MediaItems.index_items google_api _ rsc s) as [[e | info] s0] eqn:E.
    + unfold bind. try rewrite E. reflexivity.
    + destruct (advance_watermark_spec "media_items_last_index" (clock s) info s0 eq_refl)
        as [s1 [Ea Hs1]].
      exists s1. split; [| split; [| split; [| split]]]; try apply Hs1.
      cbv [bind ret]. rewrite E, Ea. reflexivity.
  - unfold Identity.index. cbn [Identity.skip_media_items Identity.skip_albums
                                 Identity.rescan Identity.filter_albums].
    unfold bind at 1, ret at 1, bind at 1, now.
    destruct (Albums.index_albums google_api _ rsc fl s) as [[e | info] s0] eqn:E.
    + unfold bind. try rewrite E. reflexivity.
    + destruct (advance_watermark_spec "albums_last_index" (clock s) info s0 eq_refl)
        as [s1 [Ea Hs1]].
      exists s1. split; [| exact Hs1].
      cbv [bind ret]. rewrite E, Ea. reflexivity.
Qed.

Lemma isfile_write_file_same :
  forall (p : string) (t : nat) (f : fs_state), isfile p (Fs.write_file p t f) = true.
Proof.
  intros p t f. unfold isfile, Fs.write_file. simpl.
  rewrite existsb_app. simpl. rewrite String.eqb_refl. apply orb_true_r.
Qed.

(** C7: in the per-item sync tasks, an outcome that
    [_sync_items_concurrently] / [_sync_album_items_concurrently] turns
    into [status='synced'] (a returned [synced] or [skipped]) is only
    produced when, in the state the task leaves, the destination file of
    the media item, or the link of the album item, exists. *)
Theorem sync_task_synced_implies_file_exists :
  (forall (dest : string) (ts : string -> nat) (dl : string -> bool) (tmp : string)
          (r : media_row) (item : batch_item) (s : st),
     task_status (fst (MediaSync._sync_item dest ts dl tmp r item s)) = "synced" ->
     isfile (MediaSync.dest_file_of dest r) (fs (snd (MediaSync._sync_item dest ts dl tmp r item s)))
       = true) /\
  (forall (dest mdest : string) (v : AlbumsModel.album_item_view) (sym : bool) (s : st),
     task_status (fst (AlbumsFs._sync_album_item dest mdest v sym s)) = "synced" ->
     isfile (AlbumsFs.link_of dest v) (fs (snd (AlbumsFs._sync_album_item dest mdest v sym s)))
       = true).
Proof.
  split.
  - intros dest ts dl tmp r item s H.
    unfold MediaSync.dest_file_of.
    revert H. unfold MediaSync._sync_item.
    destruct item as [msg | url vstatus]; [simpl; discriminate |].
    destruct (String.eqb url ""); [simpl; discriminate |].
    destruct (String.eqb (status r) "ignored"); [simpl; discriminate |].
    destruct (_ && _); [simpl; discriminate |].
    unfold bind, Fs.get_fs.
    destruct (isfile (join (join dest (path r)) (cname r)) (fs s)) eqn:Hf.
    + destruct (negb _).
      * unfold Fs.modify_fs, ret. cbn [fst snd fs].
        destruct (dl _); simpl; [intros _; apply isfile_write_file_same | discriminate].
      * simpl. intros _. exact Hf.
    + unfold Fs.modify_fs, ret. cbn [fst snd fs].
      destruct (dl _); simpl; [intros _; apply isfile_write_file_same | discriminate].
  - intros dest mdest v sym s H.
    revert H. unfold AlbumsFs._sync_album_item.
    destruct (_ || _); [simpl; discriminate |].
    destruct (negb (mem_str _ _)); [simpl; discriminate |].
    destruct (String.eqb (AlbumsModel.item_status v) "ignored"); [simpl; discriminate |].
    unfold bind, Fs.get_fs.
    destruct (negb (isfile _ (fs s))); [simpl; discriminate |].
    destruct (isfile (AlbumsFs.link_of dest v) (fs s)) eqn:Hf.
    + simpl. intros _. exact Hf.
    + unfold Fs.modify_fs, ret. simpl. intros _. apply isfile_write_file_same.
Qed.

Lemma sync_task_synced_implies_file_exists_witness :
  let r := Fixtures.media 1 "m1" "photo.jpg" "items/2020/01" "pending_sync" 100 in
  let it := BatchItem "https://u" None in
  let v := AlbumsModel.AlbumItemView 1 1 1 "pending_sync" "photo.jpg" "Trip" "photo.jpg" "Trip"
             "items/2020/01" "albums" "synced" "indexed" in
  let s2 := Fixtures.at_rest Fixtures.trip_db (FS [("lib/items/2020/01/photo.jpg", 7)] []) 300 in
  (task_status (fst (MediaSync._sync_item "lib" (fun _ => 9) (fun _ => true) "/tmp/x" r it
                       (Fixtures.empty_state 100))) = "synced" /\
   isfile (MediaSync.dest_file_of "lib" r)
     (fs (snd (MediaSync._sync_item "lib" (fun _ => 9) (fun _ => true) "/tmp/x" r it
                 (Fixtures.empty_state 100)))) = true) /\
  (task_status (fst (AlbumsFs._sync_album_item "lib" "lib" v true s2)) = "synced" /\
   isfile (AlbumsFs.link_of "lib" v) (fs (snd (AlbumsFs._sync_album_item "lib" "lib" v true s2)))
     = true).
Proof.
  intros r it v s2.
  assert (H1 : task_status (fst (MediaSync._sync_item "lib" (fun _ => 9) (fun _ => true) "/tmp/x"
                                   r it (Fixtures.empty_state 100))) = "synced")
    by (vm_compute; reflexivity).
  assert (H2 : task_status (fst (AlbumsFs._sync_album_item "lib" "lib" v true s2)) = "synced")
    by (vm_compute; reflexivity).
  split; split.
  - exact H1.
  - exact (proj1 sync_task_synced_implies_file_exists "lib" (fun _ => 9) (fun _ => true) "/tmp/x"
             r it (Fixtures.empty_state 100) H1).
  - exact H2.
  - exact (proj2 sync_task_synced_implies_file_exists "lib" "lib" v true s2 H2).
Defined.

(* ================================================================== *)
(** * Further properties of the code *)

Lemma list_ascii_of_string_app (a b : string) :
  list_ascii_of_string (a ++ b)%string = list_ascii_of_string a ++ list_ascii_of_string b.
Proof. induction a as [| c a IH]; simpl; [reflexivity | rewrite IH; reflexivity]. Qed.

Lemma string_of_list_ascii_app (a b : list ascii) :
  string_of_list_ascii (a ++ b) = (string_of_list_ascii a ++ string_of_list_ascii b)%string.
Proof. induction a as [| c a IH]; simpl; [reflexivity | rewrite IH; reflexivity]. Qed.

Lemma length_list_ascii_of_string (s : string) :
  String.length s = length (list_ascii_of_string s).
Proof. induction s as [| c s IH]; simpl; congruence. Qed.

Lemma list_ascii_of_string_inj (a b : string) :
  list_ascii_of_string a = list_ascii_of_string b -> a = b.
Proof.
  intros E. rewrite <- (string_of_list_ascii_of_string a), <- (string_of_list_ascii_of_string b).
  congruence.
Qed.

Lemma no_double_us_infix (p l q : list ascii) :
  no_double_us (p ++ l ++ q) -> no_double_us l.
Proof.
  intros H p' q' E. apply (H (p ++ p') (q' ++ q)). rewrite E.
  rewrite <- !app_assoc. reflexivity.
Qed.

Lemma no_double_us_rev (l : list ascii) : no_double_us l -> no_double_us (rev l).
Proof.
  intros H p q E. apply (H (rev q) (rev p)).
  rewrite <- (rev_involutive l), E. rewrite rev_app_distr. simpl.
  rewrite <- !app_assoc. reflexivity.
Qed.

Lemma no_double_us_b_sound (l : list ascii) : no_double_us_b l = true -> no_double_us l.
Proof.
  intros H p. revert l H. induction p as [| a p IH]; intros l H q E; subst l.
  - simpl in H. discriminate.
  - destruct p as [| b p].
    + simpl in H. rewrite ?andb_false_r in H. discriminate.
    + simpl in H. apply andb_true_iff in H as [_ H].
      exact (IH ((b :: p) ++ "_"%char :: "_"%char :: q) H q eq_refl).
Qed.

Lemma no_double_us_b_cons2 (a b : ascii) (l : list ascii) :
  no_double_us_b (a :: b :: l) =
  negb (Ascii.eqb a "_" && Ascii.eqb b "_") && no_double_us_b (b :: l).
Proof. reflexivity. Qed.

Lemma squeeze_spec (prev : bool) (l : list ascii) :
  no_double_us_b (Utils.squeeze_underscores prev l) = true /\
  (prev = true -> head_not_us (Utils.squeeze_underscores prev l)).
Proof.
  revert prev. induction l as [| c l IH]; intros prev; [split; simpl; auto |].
  cbn [Utils.squeeze_underscores].
  destruct (Ascii.eqb_spec c "_") as [Ec | Ec].
  - destruct prev.
    + exact (IH true).
    + split; [| discriminate].
      destruct (IH true) as [H1 H2]. subst c.
      destruct (Utils.squeeze_underscores true l) as [| d l'] eqn:E; [reflexivity |].
      rewrite no_double_us_b_cons2, H1. specialize (H2 eq_refl). simpl in H2.
      destruct (Ascii.eqb_spec d "_"); [contradiction |]. reflexivity.
  - destruct (IH false) as [H1 _]. split; [| intros _; exact Ec].
      destruct (Utils.squeeze_underscores false l) as [| d l'] eqn:E; [reflexivity |].
      rewrite no_double_us_b_cons2, H1.
      destruct (Ascii.eqb_spec c "_"); [contradiction |]. reflexivity.
Qed.

Lemma squeeze_incl (prev : bool) (l : list ascii) (c : ascii) :
  In c (Utils.squeeze_underscores prev l) -> In c l.
Proof.
  revert prev. induction l as [| d l IH]; intros prev H; [exact H |].
  cbn [Utils.squeeze_underscores] in H.
  destruct (Ascii.eqb d "_"), prev; simpl in H |- *;
    first [ right; exact (IH _ H) | destruct H as [H | H]; [left; exact H | right; exact (IH _ H)] ].
Qed.

Lemma squeeze_length (prev : bool) (l : list ascii) :
  length (Utils.squeeze_underscores prev l) <= length l.
Proof.
  revert prev. induction l as [| d l IH]; intros prev; [simpl; lia |].
  cbn [Utils.squeeze_underscores].
  pose proof (IH true); pose proof (IH false).
  destruct (Ascii.eqb d "_"), prev; simpl; lia.
Qed.

Lemma squeeze_id (prev : bool) (l : list ascii) :
  no_double_us l -> (prev = true -> head_not_us l) -> Utils.squeeze_underscores prev l = l.
Proof.
  revert prev. induction l as [| c l IH]; intros prev Hn Hh; [reflexivity |].
  cbn [Utils.squeeze_underscores].
  assert (Hl : no_double_us l) by exact (no_double_us_infix [c] l [] ltac:(rewrite app_nil_r; exact Hn)).
  destruct (Ascii.eqb_spec c "_") as [Ec | Ec].
  - destruct prev; [specialize (Hh eq_refl); simpl in Hh; contradiction |].
    f_equal. apply IH; [exact Hl |]. intros _. subst c.
    destruct l as [| d l]; [exact I |]. simpl. intros Ed. subst d.
    exact (Hn [] l eq_refl).
  - f_equal. apply IH; [exact Hl | discriminate].
Qed.

Lemma drop_leading_suffix (l : list ascii) :
  exists s, l = s ++ Utils.drop_leading_us l.
Proof.
  induction l as [| c l IH]; [exists []; reflexivity |].
  cbn [Utils.drop_leading_us]. destruct (Ascii.eqb c "_").
  - destruct IH as [s E]. exists (c :: s). simpl. congruence.
  - exists []. reflexivity.
Qed.

Lemma drop_leading_head (l : list ascii) : head_not_us (Utils.drop_leading_us l).
Proof.
  induction l as [| c l IH]; [exact I |].
  cbn [Utils.drop_leading_us]. destruct (Ascii.eqb_spec c "_") as [Ec | Ec]; [exact IH | exact Ec].
Qed.

Lemma drop_leading_id (l : list ascii) : head_not_us l -> Utils.drop_leading_us l = l.
Proof.
  destruct l as [| c l]; [reflexivity |]. simpl. intros Hc.
  destruct (Ascii.eqb_spec c "_"); [contradiction | reflexivity].
Qed.

Lemma head_not_us_app (a b : list ascii) : a <> [] -> head_not_us (a ++ b) -> head_not_us a.
Proof. destruct a; [contradiction | simpl; auto]. Qed.

Lemma no_double_us_app_l (a b : list ascii) : no_double_us (a ++ b) -> no_double_us a.
Proof. intros H. apply (no_double_us_infix [] a b). exact H. Qed.

Lemma no_double_us_app_r (a b : list ascii) : no_double_us (a ++ b) -> no_double_us b.
Proof. intros H. apply (no_double_us_infix a b []). rewrite app_nil_r. exact H. Qed.

Lemma transform_fs_safe_core (x : string) :
  Utils.transform_fs_safe x = string_of_list_ascii (firstn 255 (fs_safe_core x)).
Proof. reflexivity. Qed.

Lemma fs_safe_core_spec (x : string) :
  let l := fs_safe_core x in
  Forall (fun c => Utils.keep_char c = true) l /\ no_double_us l /\
  head_not_us l /\ head_not_us (rev l) /\ length l <= String.length x.
Proof.
  unfold fs_safe_core.
  set (L1 := map _ (list_ascii_of_string x)).
  set (L2 := Utils.squeeze_underscores false L1).
  assert (HL2 : no_double_us L2) by (apply no_double_us_b_sound, (squeeze_spec false L1)).
  set (D1 := Utils.drop_leading_us L2).
  destruct (drop_leading_suffix L2) as [s1 E1]. fold D1 in E1.
  assert (HD1 : no_double_us D1) by (rewrite E1 in HL2; exact (no_double_us_app_r _ _ HL2)).
  set (D2 := Utils.drop_leading_us (rev D1)).
  destruct (drop_leading_suffix (rev D1)) as [s2 E2]. fold D2 in E2.
  assert (ED1 : D1 = rev D2 ++ rev s2) by (rewrite <- rev_app_distr, <- E2, rev_involutive; reflexivity).
  repeat split.
  - apply Forall_forall. intros c Hc. apply in_rev in Hc.
    assert (Hc1 : In c (rev D1)) by (rewrite E2; apply in_or_app; right; exact Hc).
    apply in_rev in Hc1.
    assert (Hc2 : In c L2) by (rewrite E1; apply in_or_app; right; exact Hc1).
    apply squeeze_incl in Hc2. unfold L1 in Hc2. apply in_map_iff in Hc2 as [d [<- _]].
    destruct (Utils.keep_char d) eqn:K; [exact K | reflexivity].
  - rewrite ED1 in HD1. exact (no_double_us_app_l _ _ HD1).
  - destruct (rev D2) as [| c r] eqn:R; [exact I |].
    apply (head_not_us_app (c :: r) (rev s2)); [discriminate |].
    rewrite <- ED1. apply drop_leading_head.
  - rewrite rev_involutive. apply drop_leading_head.
  - rewrite length_rev.
    assert (length D2 <= length (rev D1)) by (rewrite E2, length_app; lia).
    assert (length D1 <= length L2) by (rewrite E1, length_app; lia).
    pose proof (squeeze_length false L1). unfold L2, L1 in *. rewrite length_map in *.
    rewrite length_rev in *. rewrite length_list_ascii_of_string. lia.
Qed.

(** Extra X1 (utils.py, transform_fs_safe): the result holds only kept
    characters (ASCII letters and digits, '-', '_', '(', ')', space), has at most 255
    characters, does not start with '_' and never holds "__". *)
Lemma transform_fs_safe_shape (x : string) :
  let out := Utils.transform_fs_safe x in
  Forall (fun c => Utils.keep_char c = true) (list_ascii_of_string out) /\
  String.length out <= 255 /\
  (forall rest, out <> String "_" rest) /\
  (forall pre post, out <> (pre ++ "__" ++ post)%string).
Proof.
  cbv zeta. rewrite transform_fs_safe_core.
  destruct (fs_safe_core_spec x) as (HF & HN & HH & _ & _).
  set (l := fs_safe_core x) in *.
  rewrite <- (firstn_skipn 255 l) in HF, HN, HH.
  set (a := firstn 255 l) in *. set (b := skipn 255 l) in *.
  rewrite list_ascii_of_string_of_list_ascii. repeat split.
  - apply Forall_app in HF. tauto.
  - rewrite length_list_ascii_of_string, list_ascii_of_string_of_list_ascii.
    unfold a. rewrite length_firstn. lia.
  - intros rest E. apply (f_equal list_ascii_of_string) in E.
    rewrite list_ascii_of_string_of_list_ascii in E.
    apply (head_not_us_app a b) in HH; [| rewrite E; discriminate].
    rewrite E in HH. apply HH. reflexivity.
  - intros pre post E. apply (f_equal list_ascii_of_string) in E.
    rewrite list_ascii_of_string_of_list_ascii, !list_ascii_of_string_app in E.
    apply (no_double_us_app_l a b HN (list_ascii_of_string pre) (list_ascii_of_string post)).
    exact E.
Qed.

Lemma transform_fs_safe_fixed (l : list ascii) :
  Forall (fun c => Utils.keep_char c = true) l -> no_double_us l ->
  head_not_us l -> head_not_us (rev l) -> length l <= 255 ->
  Utils.transform_fs_safe (string_of_list_ascii l) = string_of_list_ascii l.
Proof.
  intros HF HN HH HR HL. rewrite transform_fs_safe_core. unfold fs_safe_core.
  rewrite list_ascii_of_string_of_list_ascii.
  rewrite (map_ext_in _ (fun c => c)), map_id.
  2:{ intros c Hc. rewrite Forall_forall in HF. rewrite (HF c Hc). reflexivity. }
  rewrite (squeeze_id false l HN ltac:(discriminate)), (drop_leading_id l HH),
    (drop_leading_id (rev l) HR), rev_involutive, firstn_all2 by exact HL.
  reflexivity.
Qed.

Lemma last_not_us (a : list ascii) :
  (forall pre, string_of_list_ascii a <> (pre ++ "_")%string) -> head_not_us (rev a).
Proof.
  intros H. destruct (rev a) as [| c r] eqn:R; [exact I |]. cbn. intros ->.
  apply (H (string_of_list_ascii (rev r))).
  rewrite <- (rev_involutive a), R. cbn [rev]. rewrite string_of_list_ascii_app. reflexivity.
Qed.

Lemma transform_fs_safe_trailing_us (l : list ascii) :
  Forall (fun c => Utils.keep_char c = true) l -> no_double_us l -> head_not_us l ->
  forall lp, l = lp ++ ["_"%char] ->
  length (list_ascii_of_string (Utils.transform_fs_safe (string_of_list_ascii l))) < length l.
Proof.
  intros HF HN HH lp E. rewrite transform_fs_safe_core. unfold fs_safe_core.
  rewrite (list_ascii_of_string_of_list_ascii l).
  rewrite (map_ext_in _ (fun c => c)), map_id.
  2:{ intros c Hc. rewrite Forall_forall in HF. rewrite (HF c Hc). reflexivity. }
  rewrite (squeeze_id false l HN ltac:(discriminate)), (drop_leading_id l HH).
  rewrite list_ascii_of_string_of_list_ascii, length_firstn.
  destruct (drop_leading_suffix (rev lp)) as [s1 E1].
  assert (Hd : Utils.drop_leading_us (rev l) = Utils.drop_leading_us (rev lp))
    by (rewrite E, rev_app_distr; reflexivity).
  rewrite Hd, length_rev.
  assert (length (Utils.drop_leading_us (rev lp)) <= length lp)
    by (pose proof (f_equal (@length ascii) E1) as HL; rewrite length_app, length_rev in HL; lia).
  rewrite E, length_app. cbn [length]. lia.
Qed.

(** Extra X2 (utils.py, transform_fs_safe): applying the transformation to
    its own result gives the result back exactly when that result does not
    end with '_'; it can end with '_' only when the 255-character cut
    shortened the cleaned name (the name after replacement, squeezing and
    trimming). *)
Theorem transform_fs_safe_idempotent (x : string) :
  let out := Utils.transform_fs_safe x in
  (Utils.transform_fs_safe out = out <-> forall pre, out <> (pre ++ "_")%string) /\
  (forall pre, out = (pre ++ "_")%string -> 255 < length (fs_safe_core x)).
Proof.
  cbv zeta. rewrite (transform_fs_safe_core x).
  destruct (fs_safe_core_spec x) as (HF & HN & HH & HR & _).
  set (l := fs_safe_core x) in *.
  assert (Ha : Forall (fun c => Utils.keep_char c = true) (firstn 255 l) /\
               no_double_us (firstn 255 l) /\ head_not_us (firstn 255 l)).
  { rewrite <- (firstn_skipn 255 l) in HF, HN, HH.
    split; [apply Forall_app in HF; tauto |]. split; [exact (no_double_us_app_l _ _ HN) |].
    destruct (firstn 255 l) as [| c r] eqn:R; [exact I |].
    exact (head_not_us_app (c :: r) _ ltac:(discriminate) HH). }
  destruct Ha as (HFa & HNa & HHa).
  split; [split |].
  - intros Hfix pre E.
    assert (Ea : firstn 255 l = list_ascii_of_string pre ++ ["_"%char]).
    { apply (f_equal list_ascii_of_string) in E.
      rewrite list_ascii_of_string_of_list_ascii, list_ascii_of_string_app in E. exact E. }
    pose proof (transform_fs_safe_trailing_us _ HFa HNa HHa _ Ea) as Hlt.
    rewrite Hfix, list_ascii_of_string_of_list_ascii in Hlt. lia.
  - intros Hend. apply transform_fs_safe_fixed; auto.
    + apply last_not_us, Hend.
    + rewrite length_firstn. lia.
  - intros pre E. destruct (Nat.le_gt_cases (length l) 255) as [Hle | Hgt]; [| exact Hgt].
    exfalso. rewrite firstn_all2 in E by exact Hle.
    apply (f_equal list_ascii_of_string) in E.
    rewrite list_ascii_of_string_of_list_ascii, list_ascii_of_string_app in E.
    rewrite E, rev_app_distr in HR. apply HR. reflexivity.
Qed.

Lemma string_app_empty_r (s : string) : (s ++ "")%string = s.
Proof. induction s as [| c s IH]; simpl; congruence. Qed.

Lemma rfind_aux_spec (c : ascii) (l : list ascii) (i : nat) (acc : option nat) :
  (Utils.rfind_aux c l i acc = acc /\ ~ In c l) \/
  (exists j, Utils.rfind_aux c l i acc = Some (i + j) /\ nth_error l j = Some c /\
             forall j', j < j' -> nth_error l j' <> Some c).
Proof.
  revert i acc. induction l as [| x l IH]; intros i acc.
  - left. split; [reflexivity | intros []].
  - cbn [Utils.rfind_aux].
    destruct (IH (S i) (if Ascii.eqb x c then Some i else acc)) as [[E N] | (j & E & Hj & Hl)].
    + rewrite E. destruct (Ascii.eqb_spec x c) as [Ex | Ex].
      * right. exists 0. rewrite Nat.add_0_r. split; [reflexivity |]. subst x.
        split; [reflexivity |]. intros [| j'] Hj' Ej'; [lia |]. simpl in Ej'.
        apply N. exact (nth_error_In _ _ Ej').
      * left. split; [reflexivity |]. intros [H | H]; [exact (Ex H) | exact (N H)].
    + right. exists (S j). rewrite E. split; [f_equal; lia |].
      split; [exact Hj |]. intros [| j'] Hj'; [lia |]. simpl. apply Hl. lia.
Qed.

Lemma rfind_aux_0 (c : ascii) (l : list ascii) :
  (Utils.rfind_aux c l 0 None = None /\ ~ In c l) \/
  (exists j, Utils.rfind_aux c l 0 None = Some j /\ nth_error l j = Some c /\
             forall j', j < j' -> nth_error l j' <> Some c).
Proof. exact (rfind_aux_spec c l 0 None). Qed.

(** Extra X3 (os.path.splitext as used by _get_canonicalized_name): the
    root and the extension concatenate back to the path; the extension is
    empty or starts with '.', and holds no '/'. *)
Theorem splitext_parts (p : string) :
  let (root, ext) := Utils.splitext p in
  (root ++ ext)%string = p /\
  (ext = ""%string \/ exists e, ext = String "." e) /\
  ~ In "/"%char (list_ascii_of_string ext).
Proof.
  unfold Utils.splitext. set (l := list_ascii_of_string p).
  destruct (rfind_aux_0 "." l) as [[E _] | (dot & E & Hdot & _)]; rewrite E.
  { split; [apply string_app_empty_r | split; [left; reflexivity | intros []]]. }
  destruct (Nat.ltb _ dot && _) eqn:C.
  2:{ split; [apply string_app_empty_r | split; [left; reflexivity | intros []]]. }
  split; [| split].
  - rewrite <- string_of_list_ascii_app, firstn_skipn. apply string_of_list_ascii_of_string.
  - right. destruct (nth_error_split l dot Hdot) as (a & b & El & La).
    exists (string_of_list_ascii b). rewrite El, skipn_app, skipn_all2 by lia.
    replace (dot - length a) with 0 by lia. reflexivity.
  - rewrite list_ascii_of_string_of_list_ascii. intros Hin.
    apply In_nth_error in Hin as [n Hn]. rewrite nth_error_skipn in Hn.
    apply andb_true_iff in C as [C _]. apply Nat.ltb_lt in C.
    destruct (rfind_aux_0 "/" l) as [[E' N] | (k & E' & _ & Hk)]; rewrite E' in C.
    + exact (N (nth_error_In _ _ Hn)).
    + exact (Hk (dot + n) ltac:(lia) Hn).
Qed.

Lemma string_length_app (a b : string) :
  String.length (a ++ b) = String.length a + String.length b.
Proof. induction a as [| c a IH]; simpl; congruence. Qed.

(** Each retry of [_get_canonicalized_name] tries a strictly longer name. *)
Lemma canon_next_longer (c : string) (u : nat) :
  let (nm, ext) := Utils.splitext c in
  String.length c < String.length (nm ++ " (" ++ string_of_nat u ++ ")" ++ ext).
Proof.
  pose proof (splitext_parts c) as H. destruct (Utils.splitext c) as [nm ext].
  destruct H as [E _]. rewrite <- E, !string_length_app. simpl. lia.
Qed.

Lemma filter_length_mono {A} (p q : A -> bool) (l : list A) :
  (forall x, In x l -> q x = true -> p x = true) ->
  length (filter q l) <= length (filter p l).
Proof.
  induction l as [| a l IH]; intros H; simpl; [lia |].
  assert (IH' := IH (fun x Hx => H x (or_intror Hx))).
  specialize (H a (or_introl eq_refl)).
  destruct (q a), (p a); simpl; try lia; discriminate (H eq_refl).
Qed.

Lemma filter_length_strict {A} (p q : A -> bool) (l : list A) (x0 : A) :
  (forall x, In x l -> q x = true -> p x = true) ->
  In x0 l -> p x0 = true -> q x0 = false ->
  length (filter q l) < length (filter p l).
Proof.
  induction l as [| a l IH]; intros H Hx0 Hp Hq; [destruct Hx0 |].
  pose proof (filter_length_mono p q l (fun x Hx => H x (or_intror Hx))) as M.
  simpl. destruct Hx0 as [<- | Hx0].
  - rewrite Hp, Hq. simpl. lia.
  - specialize (IH (fun x Hx => H x (or_intror Hx)) Hx0 Hp Hq).
    specialize (H a (or_introl eq_refl)).
    destruct (q a), (p a); simpl; try lia; discriminate (H eq_refl).
Qed.

Lemma filter_nonempty_length {A} (p : A -> bool) (l : list A) (x : A) :
  In x l -> p x = true -> 0 < length (filter p l).
Proof.
  intros Hx Hp. assert (In x (filter p l)) as H by (apply filter_In; auto).
  destruct (filter p l); [destruct H | simpl; lia].
Qed.

Lemma canon_room_step {A} (cn_of pth_of : A -> string) (rows : list A) (c c' pth : string) (r0 : A) :
  String.length c < String.length c' -> In r0 rows -> canon_hit cn_of pth_of c pth r0 = true ->
  canon_room cn_of pth_of rows c' pth < canon_room cn_of pth_of rows c pth + (if String.eqb c "" then 1 else 0).
Proof.
  intros Hl Hr0 Hhit. unfold canon_room.
  destruct (String.eqb_spec c "") as [Ec | Ec].
  - rewrite Nat.add_1_r. apply Nat.lt_succ_r.
    apply filter_length_mono. intros x _ Hx.
    apply andb_true_iff in Hx as [Hx1 Hx2]. rewrite Hx1. simpl.
    apply Nat.leb_le. apply Nat.leb_le in Hx2. lia.
  - rewrite Nat.add_0_r. apply (filter_length_strict _ _ _ r0).
    + intros x _ Hx. apply andb_true_iff in Hx as [Hx1 Hx2]. rewrite Hx1. simpl.
      apply Nat.leb_le. apply Nat.leb_le in Hx2. lia.
    + exact Hr0.
    + unfold canon_hit in Hhit. apply andb_true_iff in Hhit as [H1 H2].
      apply String.eqb_neq in Ec. rewrite Ec in H1. simpl in H1.
      apply String.eqb_eq in H1. subst c. rewrite H2. simpl. apply Nat.leb_le. lia.
    + unfold canon_hit in Hhit. apply andb_true_iff in Hhit as [H1 _].
      apply String.eqb_neq in Ec. rewrite Ec in H1. simpl in H1.
      apply String.eqb_eq in H1. subst c. rewrite andb_false_iff. right.
      apply Nat.leb_gt. exact Hl.
Qed.

Lemma canon_room_zero {A} (cn_of pth_of : A -> string) (rows : list A) (c pth : string) (r : A) :
  canon_room cn_of pth_of rows c pth + (if String.eqb c "" then 1 else 0) <= 0 ->
  In r rows -> canon_hit cn_of pth_of c pth r = false.
Proof.
  intros H Hr. destruct (String.eqb_spec c "") as [Ec | Ec]; [lia |].
  destruct (canon_hit cn_of pth_of c pth r) eqn:Hh; [| reflexivity]. exfalso.
  unfold canon_hit in Hh. apply andb_true_iff in Hh as [H1 H2].
  apply String.eqb_neq in Ec. rewrite Ec in H1. simpl in H1. apply String.eqb_eq in H1.
  assert (0 < canon_room cn_of pth_of rows c pth); [| lia].
  apply (filter_nonempty_length _ _ r Hr). rewrite H2. simpl. apply Nat.leb_le. rewrite H1. lia.
Qed.

Lemma canon_room_le {A} (cn_of pth_of : A -> string) (rows : list A) (c pth : string) :
  canon_room cn_of pth_of rows c pth <= length rows.
Proof. unfold canon_room. apply filter_length_le. Qed.

Lemma canon_hit_fresh {A} (cn_of pth_of : A -> string) (c pth : string) (r : A) :
  canon_hit cn_of pth_of c pth r = false -> pth_of r = pth -> cn_of r <> c.
Proof.
  intros H Ep Ec. unfold canon_hit in H. subst.
  rewrite !String.eqb_refl, !orb_true_r in H. discriminate.
Qed.

Lemma nonempty_string_eqb (c : string) : 0 < String.length c -> String.eqb c "" = false.
Proof. destruct c; [simpl; lia | reflexivity]. Qed.

Lemma limit_offset_100_nil {A} (l : list A) : limit_offset 100 0 l = [] -> l = [].
Proof. destruct l; [reflexivity | discriminate]. Qed.

Lemma sort_by_id_nil (l : list media_row) : MediaItemsModel.sort_by_id l = [] -> l = [].
Proof.
  destruct l as [| a l]; [reflexivity |]. unfold MediaItemsModel.sort_by_id. simpl.
  destruct (fold_right _ _ l); simpl; [discriminate |]. destruct (Nat.leb _ _); discriminate.
Qed.

Lemma isort_nil {A} (le : A -> A -> bool) (l : list A) : AlbumsModel.isort le l = [] -> l = [].
Proof.
  destruct l as [| a l]; [reflexivity |]. unfold AlbumsModel.isort. simpl.
  destruct (fold_right _ _ l); simpl; [discriminate |]. destruct (le _ _); discriminate.
Qed.

Lemma search_where_hit (c pth : string) (r : media_row) :
  MediaItemsModel.search_where c pth None r = canon_hit cname path c pth r.
Proof.
  unfold MediaItemsModel.search_where, canon_hit. rewrite andb_true_r.
  destruct (String.eqb c ""), (String.eqb pth ""); reflexivity.
Qed.

Lemma media_canon_loop_fresh (fuel : nat) : forall u c pth s,
  canon_room cname path (media_items (working s)) c pth + (if String.eqb c "" then 1 else 0) <= fuel ->
  match MediaItems.canon_loop fuel u c pth s with
  | (inr cn, s') => working s' = working s /\
      forall r, In r (media_items (working s)) -> canon_hit cname path cn pth r = false
  | (inl _, _) => False
  end.
Proof.
  induction fuel as [| f IH]; intros u c pth s Hm.
  - cbn. split; [reflexivity |]. intros r Hr. exact (canon_room_zero _ _ _ _ _ r Hm Hr).
  - cbn [MediaItems.canon_loop]. unfold bind at 1, MediaItemsModel.search_media_items_meta, execute.
    cbn [fst snd].
    destruct (limit_offset _ _ _) as [| x l] eqn:E.
    + apply limit_offset_100_nil, sort_by_id_nil in E.
      split; [reflexivity |]. intros r Hr. rewrite <- search_where_hit.
      destruct (MediaItemsModel.search_where c pth None r) eqn:Hw; [| reflexivity].
      assert (In r []) as []. rewrite <- E. apply filter_In. auto.
    + assert (exists r0, In r0 (media_items (working s)) /\ canon_hit cname path c pth r0 = true)
        as (r0 & Hr0 & Hh).
      { destruct (filter (MediaItemsModel.search_where c pth None) (media_items (working s)))
          as [| r0 l0] eqn:F; [discriminate |].
        exists r0. assert (In r0 (r0 :: l0)) as Hin by (left; reflexivity).
        rewrite <- F, filter_In in Hin. rewrite <- search_where_hit. exact Hin. }
      pose proof (canon_next_longer c u) as Hlen.
      destruct (Utils.splitext c) as [nm ext].
      set (c' := (nm ++ " (" ++ string_of_nat u ++ ")" ++ ext)%string) in *.
      apply (IH (S u) c' pth (St (working s) (working s) (fs s) (clock s))).
      cbn [working]. rewrite (nonempty_string_eqb c') by lia.
      pose proof (canon_room_step cname path (media_items (working s)) c c' pth r0 Hlen Hr0 Hh).
      lia.
Qed.

(** Extra X4 (media_items.py, MediaItems._get_canonicalized_name): the
    lookup never raises, changes no catalog data, and the name it returns is
    held by no media row of the same path. *)
Theorem media_get_canonicalized_name_fresh (fn pth : string) (s : st) :
  match MediaItems._get_canonicalized_name fn pth s with
  | (inr cn, s') => working s' = working s /\
      forall r, In r (media_items (working s)) -> path r = pth -> cname r <> cn
  | (inl _, _) => False
  end.
Proof.
  unfold MediaItems._get_canonicalized_name, bind at 1. cbv beta iota delta [get].
  destruct (Utils.splitext fn) as [nm ext].
  set (c := (Utils.transform_fs_safe nm ++ ext)%string).
  pose proof (media_canon_loop_fresh (S (length (media_items (working s)))) 1 c pth s) as H.
  destruct (MediaItems.canon_loop _ _ _ _ _) as [[e | cn] s'].
  - apply H. pose proof (canon_room_le cname path (media_items (working s)) c pth).
    destruct (String.eqb c ""); lia.
  - destruct H as [Hw Hf].
    { pose proof (canon_room_le cname path (media_items (working s)) c pth).
      destruct (String.eqb c ""); lia. }
    split; [exact Hw |]. intros r Hr Hp. exact (canon_hit_fresh _ _ _ _ _ (Hf r Hr) Hp).
Qed.

Lemma album_canon_loop_fresh (fuel : nat) : forall u c pth s,
  canon_room a_cname a_path (albums (working s)) c pth + (if String.eqb c "" then 1 else 0) <= fuel ->
  match Albums.canon_loop fuel u c pth s with
  | (inr cn, s') => working s' = working s /\
      forall r, In r (albums (working s)) -> canon_hit a_cname a_path cn pth r = false
  | (inl _, _) => False
  end.
Proof.
  induction fuel as [| f IH]; intros u c pth s Hm.
  - cbn. split; [reflexivity |]. intros r Hr. exact (canon_room_zero _ _ _ _ _ r Hm Hr).
  - cbn [Albums.canon_loop]. unfold bind at 1, AlbumsModel.search_albums_meta, execute.
    cbn [fst snd].
    assert (Ef : forall r, ((c =? "") || (a_cname r =? c)) && ((pth =? "") || (a_path r =? pth))
                           && AlbumsModel.status_filter None (a_status r) = canon_hit a_cname a_path c pth r)
      by (intros r; apply andb_true_r).
    destruct (limit_offset _ _ _) as [| x l] eqn:E.
    + apply limit_offset_100_nil, isort_nil in E.
      split; [reflexivity |]. intros r Hr. rewrite <- Ef.
      destruct (_ && _ && _) eqn:Hw; [| reflexivity].
      assert (In r []) as []. rewrite <- E. apply filter_In. auto.
    + assert (exists r0, In r0 (albums (working s)) /\ canon_hit a_cname a_path c pth r0 = true)
        as (r0 & Hr0 & Hh).
      { destruct (filter _ (albums (working s))) as [| r0 l0] eqn:F; [discriminate |].
        exists r0. assert (In r0 (r0 :: l0)) as Hin by (left; reflexivity).
        rewrite <- F, filter_In in Hin. rewrite <- Ef. exact Hin. }
      pose proof (canon_next_longer c u) as Hlen.
      destruct (Utils.splitext c) as [nm ext].
      set (c' := (nm ++ " (" ++ string_of_nat u ++ ")" ++ ext)%string) in *.
      apply (IH (S u) c' pth (St (working s) (working s) (fs s) (clock s))).
      cbn [working]. rewrite (nonempty_string_eqb c') by lia.
      pose proof (canon_room_step a_cname a_path (albums (working s)) c c' pth r0 Hlen Hr0 Hh).
      lia.
Qed.

(** Extra X5 (albums.py, Albums._get_canonicalized_name): the lookup never
    raises, changes no catalog data, and the name it returns is held by no
    album row of the same path. *)
Theorem album_get_canonicalized_name_fresh (an pth : string) (s : st) :
  match Albums._get_canonicalized_name an pth s with
  | (inr cn, s') => working s' = working s /\
      forall r, In r (albums (working s)) -> a_path r = pth -> a_cname r <> cn
  | (inl _, _) => False
  end.
Proof.
  unfold Albums._get_canonicalized_name, bind at 1. cbv beta iota delta [get].
  set (c := Utils.transform_fs_safe _).
  pose proof (album_canon_loop_fresh (S (length (albums (working s)))) 1 c pth s) as H.
  pose proof (canon_room_le a_cname a_path (albums (working s)) c pth).
  destruct (Albums.canon_loop _ _ _ _ _) as [[e | cn] s'].
  - apply H. destruct (String.eqb c ""); lia.
  - destruct H as [Hw Hf]; [destruct (String.eqb c ""); lia |].
    split; [exact Hw |]. intros r Hr Hp. exact (canon_hit_fresh _ _ _ _ _ (Hf r Hr) Hp).
Qed.

Lemma update_rows_status (sv : string) (mid : nat) (l : list media_row) :
  mem_str sv MediaItemsModel.item_statuses = true -> NoDup (map media_id l) ->
  MediaItemsModel.update_rows mid [("status", KStr sv)] l =
    inr (if existsb (fun r => Nat.eqb (media_id r) mid) l then 1 else 0,
         map (fun x => if Nat.eqb (media_id x) mid then MediaItemsModel.set_status sv x else x) l).
Proof.
  intros Hs. induction l as [| a l IH]; intros Hnd; [reflexivity |].
  inversion Hnd as [| ? ? Hnin Hnd']; subst. cbn [MediaItemsModel.update_rows existsb map].
  destruct (Nat.eqb_spec (media_id a) mid) as [E | E].
  - cbn [MediaItemsModel.apply_fields MediaItemsModel.apply_field]. rewrite Hs. simpl.
    do 3 f_equal. rewrite <- (map_id l) at 1. symmetry. apply map_ext_in.
    intros x Hx. destruct (Nat.eqb_spec (media_id x) mid) as [E' | E']; [| reflexivity].
    exfalso. apply Hnin. rewrite E, <- E'. apply in_map, Hx.
  - rewrite (IH Hnd'). reflexivity.
Qed.

Lemma map_media_id_set_status (sv : string) (f : media_row -> bool) (l : list media_row) :
  map media_id (map (fun x => if f x then MediaItemsModel.set_status sv x else x) l) = map media_id l.
Proof. rewrite map_map. apply map_ext. intros x. destruct (f x); reflexivity. Qed.

Lemma mark_ignored_cons (mid : nat) (ids : list nat) (rows : list media_row) :
  mark_ignored (mid :: ids) rows =
  mark_ignored ids (if Nat.eqb mid 0 then rows
                    else map (fun x => if Nat.eqb (media_id x) mid
                                       then MediaItemsModel.set_status "ignored" x else x) rows).
Proof.
  unfold mark_ignored, ignore_target. destruct (Nat.eqb_spec mid 0) as [E | E].
  - apply map_ext. intros r. cbn [existsb].
    destruct (Nat.eqb_spec (media_id r) 0); simpl; [reflexivity |].
    destruct (Nat.eqb_spec (media_id r) mid); [lia |]. reflexivity.
  - rewrite map_map. apply map_ext. intros r. cbn [existsb].
    destruct (Nat.eqb_spec (media_id r) mid) as [E' | E']; simpl.
    + rewrite E'. destruct (Nat.eqb_spec mid 0); [lia |]. simpl. rewrite ?Nat.eqb_refl, ?orb_true_r. destruct (existsb _ ids); reflexivity.
    + reflexivity.
Qed.

Lemma ignore_hits_cons (mid : nat) (ids : list nat) (rows : list media_row) :
  NoDup (map media_id rows) ->
  ignore_hits rows (mid :: ids) =
  (if Nat.eqb mid 0 then 0 else if existsb (fun r => Nat.eqb (media_id r) mid) rows then 1 else 0) +
  ignore_hits (if Nat.eqb mid 0 then rows
               else map (fun x => if Nat.eqb (media_id x) mid
                                  then MediaItemsModel.set_status "ignored" x else x) rows) ids.
Proof.
  intros _. unfold ignore_hits. cbn [filter].
  destruct (Nat.eqb mid 0); simpl; [reflexivity |].
  assert (Eq : forall m, existsb (fun r => Nat.eqb (media_id r) m)
                 (map (fun x => if Nat.eqb (media_id x) mid
                                then MediaItemsModel.set_status "ignored" x else x) rows) =
                 existsb (fun r => Nat.eqb (media_id r) m) rows).
  { intros m. clear ids. induction rows as [| x l IHl]; [reflexivity |]. simpl. rewrite IHl.
    destruct (Nat.eqb (media_id x) mid); reflexivity. }
  rewrite (filter_ext (fun m => negb (Nat.eqb m 0) && existsb (fun r => Nat.eqb (media_id r) m)
                        (map (fun x => if Nat.eqb (media_id x) mid
                                       then MediaItemsModel.set_status "ignored" x else x) rows))
                      (fun m => negb (Nat.eqb m 0) && existsb (fun r => Nat.eqb (media_id r) m) rows))
    by (intros m; rewrite Eq; reflexivity).
  destruct (existsb _ rows); reflexivity.
Qed.

Lemma ignore_loop_spec (ids : list nat) : forall ig fl s,
  NoDup (map media_id (media_items (working s))) ->
  MediaItems.ignore_loop ids ig fl s =
    (inr (ig + ignore_hits (media_items (working s)) ids,
          fl + (length ids - ignore_hits (media_items (working s)) ids)),
     St (MediaItemsModel.with_media_items (working s) (mark_ignored ids (media_items (working s))))
        (committed s) (fs s) (clock s)).
Proof.
  induction ids as [| mid ids IH]; intros ig fl s Hnd.
  - destruct s as [[] c f k]. unfold ignore_hits. simpl. rewrite !Nat.add_0_r. unfold mark_ignored.
    cbn. rewrite map_ext_in with (g := fun r => r), map_id; [reflexivity |].
    intros r _. unfold ignore_target. rewrite andb_false_r. reflexivity.
  - rewrite mark_ignored_cons, (ignore_hits_cons mid ids _ Hnd).
    pose proof (filter_length_le (fun m => negb (Nat.eqb m 0) &&
        existsb (fun r => Nat.eqb (media_id r) m)
          (if Nat.eqb mid 0 then media_items (working s)
           else map (fun x => if Nat.eqb (media_id x) mid
                              then MediaItemsModel.set_status "ignored" x else x)
                  (media_items (working s)))) ids) as Hle.
    fold (ignore_hits (if Nat.eqb mid 0 then media_items (working s)
           else map (fun x => if Nat.eqb (media_id x) mid
                              then MediaItemsModel.set_status "ignored" x else x)
                  (media_items (working s))) ids) in Hle.
    cbn [MediaItems.ignore_loop]. unfold bind at 1, try_except.
    unfold MediaItemsModel.update_media_item_meta, raise_if.
    destruct (Nat.eqb_spec mid 0) as [E | E].
    + cbn. rewrite IH by exact Hnd. cbn [length]. f_equal. f_equal. f_equal. destruct (ignore_hits _ ids); lia.
    + unfold bind, ret, execute.
      cbn - [MediaItemsModel.update_rows ignore_hits mark_ignored Nat.sub Nat.add].
      rewrite update_rows_status by (reflexivity || exact Hnd).
      set (rows' := map (fun x => if Nat.eqb (media_id x) mid
                                  then MediaItemsModel.set_status "ignored" x else x)
                      (media_items (working s))) in *.
      assert (Hnd' : NoDup (map media_id rows')) by (unfold rows'; rewrite map_media_id_set_status; exact Hnd).
      destruct (existsb (fun r => Nat.eqb (media_id r) mid) (media_items (working s))) eqn:Hex;
        cbn - [ignore_hits mark_ignored Nat.sub Nat.add]; rewrite IH by exact Hnd';
        cbn [working committed fs clock length MediaItemsModel.with_media_items media_items].
      * f_equal. f_equal. f_equal; lia.
      * assert (rows' = media_items (working s)) as Er.
        { unfold rows'. rewrite <- (map_id (media_items (working s))) at 2. apply map_ext_in.
          intros x Hx. destruct (Nat.eqb_spec (media_id x) mid) as [Ex | Ex]; [| reflexivity].
          exfalso. assert (existsb (fun r => Nat.eqb (media_id r) mid) (media_items (working s)) = true)
            by (apply existsb_exists; exists x; split; [exact Hx | apply Nat.eqb_eq, Ex]).
          congruence. }
        rewrite Er in *. f_equal. f_equal. f_equal; lia.
Qed.

(** Extra X6 (media_items.py, MediaItems.ignore_items): with distinct row
    ids, the call returns (ignored, not found) where ignored counts the
    non-zero entries of ids naming a row; exactly the rows whose id is such
    an entry get status 'ignored', and the result is committed. *)
Theorem ignore_items_spec (ids : list nat) (s : st) :
  NoDup (map media_id (media_items (working s))) ->
  let h := ignore_hits (media_items (working s)) ids in
  let w := MediaItemsModel.with_media_items (working s) (mark_ignored ids (media_items (working s))) in
  MediaItems.ignore_items ids s = (inr (h, length ids - h), St w w (fs s) (clock s)).
Proof.
  intros Hnd. unfold MediaItems.ignore_items, bind at 1. rewrite (ignore_loop_spec ids 0 0 s Hnd).
  reflexivity.
Qed.

Lemma ignore_items_spec_witness :
  NoDup (map media_id (media_items (working Fixtures.trip_state))) /\
  MediaItems.ignore_items [1; 7] Fixtures.trip_state =
    (inr (1, 1),
     let w := MediaItemsModel.with_media_items (working Fixtures.trip_state)
                (mark_ignored [1; 7] (media_items (working Fixtures.trip_state))) in
     St w w (fs Fixtures.trip_state) (clock Fixtures.trip_state)).
Proof.
  assert (H : NoDup (map media_id (media_items (working Fixtures.trip_state))))
    by (simpl; repeat constructor; simpl; tauto).
  split; [exact H | exact (ignore_items_spec [1; 7] Fixtures.trip_state H)].
Defined.

(** Extra X7 (ignore_items then reset_ignored_items): with distinct row ids,
    resetting after ignoring returns the number of rows that were ignored
    before or by the call, sets exactly those to 'pending_sync', leaves the
    others as they were, and commits. *)
Theorem ignore_then_reset (ids : list nat) (s : st) :
  NoDup (map media_id (media_items (working s))) ->
  let rows := media_items (working s) in
  let back r := ignore_target ids r || String.eqb (status r) "ignored" in
  let (_, s1) := MediaItems.ignore_items ids s in
  let (n, s2) := MediaItems.reset_ignored_items s1 in
  n = inr (length (filter back rows)) /\
  media_items (working s2) =
    map (fun r => if back r then MediaItemsModel.set_status "pending_sync" r else r) rows /\
  committed s2 = working s2.
Proof.
  intros Hnd. rewrite (ignore_items_spec ids s Hnd). cbv zeta.
  unfold MediaItems.reset_ignored_items, MediaItemsModel.reset_ignored_media_items, execute.
  cbn [working committed MediaItemsModel.with_media_items media_items].
  unfold mark_ignored. split; [| split; [| reflexivity]].
  - f_equal. clear Hnd. induction (media_items (working s)) as [| r l IH]; [reflexivity |].
    cbn [map filter]. destruct (ignore_target ids r); simpl;
      [| destruct (String.eqb (status r) "ignored"); simpl]; rewrite IH; reflexivity.
  - rewrite map_map. apply map_ext. intros r.
    destruct (ignore_target ids r); reflexivity.
Qed.

Lemma ignore_then_reset_witness :
  NoDup (map media_id (media_items (working Fixtures.trip_state))) /\
  (let rows := media_items (working Fixtures.trip_state) in
   let back r := ignore_target [1] r || String.eqb (status r) "ignored" in
   let (_, s1) := MediaItems.ignore_items [1] Fixtures.trip_state in
   let (n, s2) := MediaItems.reset_ignored_items s1 in
   n = inr (length (filter back rows)) /\
   media_items (working s2) =
     map (fun r => if back r then MediaItemsModel.set_status "pending_sync" r else r) rows /\
   committed s2 = working s2).
Proof.
  assert (H : NoDup (map media_id (media_items (working Fixtures.trip_state))))
    by (simpl; repeat constructor; simpl; tauto).
  split; [exact H | exact (ignore_then_reset [1] Fixtures.trip_state H)].
Defined.

(** ** Deleting the stale rows and their files *)

Lemma filter_filter_and {A} (f g : A -> bool) (l : list A) :
  filter f (filter g l) = filter (fun x => g x && f x) l.
Proof. induction l as [| a l IH]; simpl; [reflexivity |]. destruct (g a); simpl; destruct (f a); simpl; congruence. Qed.

Lemma filter_absent (p : string) (l : list (string * nat)) :
  existsb (fun e => String.eqb (fst e) p) l = false ->
  filter (fun e => negb (String.eqb (fst e) p)) l = l.
Proof.
  induction l as [| a l IH]; simpl; [reflexivity |].
  intros H. apply orb_false_iff in H as [H1 H2]. rewrite H1. simpl. rewrite IH; auto.
Qed.

Lemma NoDup_map_filter {A B} (f : A -> B) (g : A -> bool) (l : list A) :
  NoDup (map f l) -> NoDup (map f (filter g l)).
Proof.
  induction l as [| a l IH]; simpl; [auto |]. intros H. inversion H as [| ? ? Hn Hd]; subst.
  destruct (g a); simpl; [| auto]. constructor; [| auto].
  intros Hin. apply Hn. apply in_map_iff in Hin as [x [Ex Hx]]. apply filter_In in Hx as [Hx _].
  rewrite <- Ex. apply in_map, Hx.
Qed.

Lemma insert_by_id_perm (r : media_row) (l : list media_row) :
  Permutation (MediaItemsModel.insert_by_id r l) (r :: l).
Proof.
  induction l as [| a l IH]; simpl; [auto |].
  destruct (Nat.leb _ _); [auto |].
  eapply perm_trans; [apply perm_skip, IH | apply perm_swap].
Qed.

Lemma sort_by_id_perm (l : list media_row) : Permutation (MediaItemsModel.sort_by_id l) l.
Proof.
  induction l as [| a l IH]; [auto |]. unfold MediaItemsModel.sort_by_id in *. simpl.
  eapply perm_trans; [apply insert_by_id_perm | apply perm_skip, IH].
Qed.

Lemma stale_search_where (r : media_row) :
  MediaItemsModel.search_where "" "" (Some (false, ["stale"])) r = is_stale r.
Proof. unfold MediaItemsModel.search_where, in_condition, mem_str, is_stale. simpl. apply orb_false_r. Qed.

Section DeleteStale.
Variable dp : string.

Lemma delete_item_file_eq (r : media_row) (s : st) :
  MediaItemsFs._delete_item_file dp r s =
    (inr tt, St (working s) (committed s)
               (FS (filter (fun e => negb (String.eqb (fst e) (MediaItemsFs.dest_file_of dp r))) (files (fs s)))
                   (dirs (fs s))) (clock s)).
Proof.
  unfold MediaItemsFs._delete_item_file, bind, Fs.get_fs.
  destruct (isfile (MediaItemsFs.dest_file_of dp r) (fs s)) eqn:H.
  - reflexivity.
  - unfold isfile in H. rewrite (filter_absent _ _ H). destruct s as [w c [fl dr] k]. reflexivity.
Qed.

Lemma delete_page_spec (page : list media_row) : forall o deleted s,
  (forall r, In r page -> 1 <= media_id r) ->
  MediaItemsFs.delete_page dp page o deleted 0 s =
    (inr (o, deleted + length page, 0),
     St (MediaItemsModel.with_media_items (working s)
           (filter (fun x => negb (in_page page x)) (media_items (working s))))
        (committed s)
        (FS (filter (fun e => negb (page_file dp page (fst e))) (files (fs s))) (dirs (fs s)))
        (clock s)).
Proof.
  induction page as [| r page IH]; intros o deleted s Hid.
  - destruct s as [[] c [fl dr] k]. cbn. rewrite Nat.add_0_r, !filter_all_true. reflexivity.
  - cbn [MediaItemsFs.delete_page]. unfold bind at 1, try_except.
    unfold bind at 1. rewrite delete_item_file_eq.
    unfold MediaItemsModel.delete_media_item_meta, raise_if.
    assert (Hr : Nat.eqb (media_id r) 0 = false) by (apply Nat.eqb_neq; specialize (Hid r (or_introl eq_refl)); lia).
    rewrite Hr. cbn - [MediaItemsFs.delete_page].
    rewrite IH by (intros x Hx; apply Hid; right; exact Hx).
    cbn [working committed fs clock files dirs media_items MediaItemsModel.with_media_items length].
    rewrite !filter_filter_and.
    replace (S deleted + length page) with (deleted + S (length page)) by lia.
    rewrite (filter_ext (fun x => negb (Nat.eqb (media_id x) (media_id r)) && negb (in_page page x))
                        (fun x => negb (in_page (r :: page) x)))
      by (intros x; unfold in_page; cbn [existsb]; rewrite negb_orb; reflexivity).
    rewrite (filter_ext (fun x : string * nat => negb (String.eqb (fst x) (MediaItemsFs.dest_file_of dp r))
                                                 && negb (page_file dp page (fst x)))
                        (fun e => negb (page_file dp (r :: page) (fst e))))
      by (intros e; unfold page_file; cbn [existsb]; rewrite negb_orb; reflexivity).
    reflexivity.
Qed.

Lemma with_media_items_twice (d : db) (l1 l2 : list media_row) :
  MediaItemsModel.with_media_items (MediaItemsModel.with_media_items d l1) l2 =
  MediaItemsModel.with_media_items d l2.
Proof. reflexivity. Qed.

Lemma in_firstn {A} (n : nat) (l : list A) (x : A) : In x (firstn n l) -> In x l.
Proof. intros H. rewrite <- (firstn_skipn n l). apply in_or_app. left. exact H. Qed.

Lemma stale_page_eq (rows : list media_row) :
  stale_page rows = firstn 100 (MediaItemsModel.sort_by_id (filter is_stale rows)).
Proof.
  unfold stale_page, limit_offset. rewrite (filter_ext _ is_stale) by exact stale_search_where.
  reflexivity.
Qed.

Lemma stale_page_in (rows : list media_row) (r : media_row) :
  In r (stale_page rows) -> In r rows /\ is_stale r = true.
Proof.
  rewrite stale_page_eq. intros H. apply in_firstn in H.
  apply (Permutation_in _ (sort_by_id_perm _)) in H. apply filter_In in H. exact H.
Qed.

Lemma stale_page_nodup (rows : list media_row) :
  NoDup (map media_id rows) -> NoDup (map media_id (stale_page rows)).
Proof.
  intros H. rewrite stale_page_eq.
  apply (NoDup_app_remove_r _ (map media_id (skipn 100 (MediaItemsModel.sort_by_id (filter is_stale rows))))).
  rewrite <- map_app, firstn_skipn.
  apply (Permutation_NoDup (Permutation_map _ (Permutation_sym (sort_by_id_perm _)))).
  apply NoDup_map_filter, H.
Qed.

Lemma stale_page_nil (rows : list media_row) :
  stale_page rows = [] -> filter is_stale rows = [].
Proof.
  rewrite stale_page_eq. intros H.
  destruct (MediaItemsModel.sort_by_id (filter is_stale rows)) as [| x l] eqn:E; [| discriminate].
  apply sort_by_id_nil in E. exact E.
Qed.

Lemma in_page_in (rows page : list media_row) (x : media_row) :
  NoDup (map media_id rows) -> (forall r, In r page -> In r rows) ->
  In x rows -> in_page page x = true -> In x page.
Proof.
  intros Hnd Hsub Hx Hp. unfold in_page in Hp. apply existsb_exists in Hp as [r [Hr E]].
  apply Nat.eqb_eq in E. rewrite (NoDup_map_inj media_id rows x r Hnd Hx (Hsub r Hr) E). exact Hr.
Qed.

Lemma stale_page_count (rows : list media_row) :
  NoDup (map media_id rows) ->
  length (filter is_stale rows) =
  length (stale_page rows) + length (filter is_stale (filter (fun x => negb (in_page (stale_page rows) x)) rows)).
Proof.
  intros Hnd. set (page := stale_page rows).
  assert (Hin : forall r, In r page -> In r rows /\ is_stale r = true) by exact (stale_page_in rows).
  assert (Hpnd : NoDup (map media_id page)) by exact (stale_page_nodup rows Hnd).
  assert (Split : forall (g f : media_row -> bool) l,
             length (filter f l) = length (filter (fun x => g x && f x) l) +
                                   length (filter (fun x => negb (g x) && f x) l)).
  { intros g f l. induction l as [| a l IH]; [reflexivity |]. simpl.
    destruct (g a), (f a); simpl; lia. }
  rewrite (Split (in_page page)), filter_filter_and. f_equal.
  rewrite (filter_ext_in _ (in_page page)).
  2:{ intros x Hx. destruct (in_page page x) eqn:E; [| reflexivity].
      exact (proj2 (Hin x (in_page_in rows page x Hnd (fun r Hr => proj1 (Hin r Hr)) Hx E))). }
  rewrite <- (length_map media_id (filter _ rows)), <- (length_map media_id page).
  symmetry. apply Permutation_length, NoDup_Permutation; [exact Hpnd | apply NoDup_map_filter, Hnd |].
  intros id. rewrite !in_map_iff. split.
  - intros [r [<- Hr]]. exists r. split; [reflexivity |]. apply filter_In.
    split; [exact (proj1 (Hin r Hr)) |]. unfold in_page. apply existsb_exists.
    exists r. split; [exact Hr | apply Nat.eqb_refl].
  - intros [x [<- Hx]]. apply filter_In in Hx as [Hx Hp]. exists x. split; [reflexivity |].
    exact (in_page_in rows page x Hnd (fun r Hr => proj1 (Hin r Hr)) Hx Hp).
Qed.

Lemma stale_page_keep (rows : list media_row) :
  NoDup (map media_id rows) ->
  filter (fun r => negb (is_stale r)) (filter (fun x => negb (in_page (stale_page rows) x)) rows) =
  filter (fun r => negb (is_stale r)) rows.
Proof.
  intros Hnd. rewrite filter_filter_and. apply filter_ext_in. intros x Hx.
  destruct (in_page (stale_page rows) x) eqn:E; [| reflexivity].
  pose proof (in_page_in rows _ x Hnd (fun r Hr => proj1 (stale_page_in rows r Hr)) Hx E) as Hp.
  rewrite (proj2 (stale_page_in rows x Hp)). reflexivity.
Qed.

Lemma stale_page_files (rows : list media_row) (n : string) :
  NoDup (map media_id rows) ->
  stale_file dp rows n =
  stale_file dp (filter (fun x => negb (in_page (stale_page rows) x)) rows) n ||
  page_file dp (stale_page rows) n.
Proof.
  intros Hnd. set (page := stale_page rows). unfold stale_file, page_file.
  apply eq_true_iff_eq. rewrite orb_true_iff, !existsb_exists. split.
  - intros [x [Hx Hs]]. destruct (in_page page x) eqn:E.
    + right. exists x. split; [| apply andb_true_iff in Hs; tauto].
      exact (in_page_in rows page x Hnd (fun r Hr => proj1 (stale_page_in rows r Hr)) Hx E).
    + left. exists x. split; [apply filter_In; rewrite E; auto | exact Hs].
  - intros [[x [Hx Hs]] | [r [Hr Hs]]].
    + apply filter_In in Hx. exists x. tauto.
    + exists r. destruct (stale_page_in rows r Hr) as [Hr' Hst]. split; [exact Hr' |].
      rewrite Hst. exact Hs.
Qed.

Lemma no_stale_noop (rows : list media_row) (fl : list (string * nat)) :
  filter is_stale rows = [] ->
  filter (fun r => negb (is_stale r)) rows = rows /\
  filter (fun e => negb (stale_file dp rows (fst e))) fl = fl.
Proof.
  intros Ep. split.
  - rewrite <- (filter_all_true rows) at 2. apply filter_ext_in.
    intros r Hr. destruct (is_stale r) eqn:E; [| reflexivity].
    assert (In r []) as []. rewrite <- Ep. apply filter_In. auto.
  - rewrite <- (filter_all_true fl) at 2. apply filter_ext. intros e.
    unfold stale_file. destruct (existsb _ _) eqn:E; [| reflexivity].
    apply existsb_exists in E as [r [Hr Hs]]. apply andb_true_iff in Hs as [Hs _].
    assert (In r []) as []. rewrite <- Ep. apply filter_In. auto.
Qed.

Lemma delete_loop_spec (fuel : nat) : forall deleted s,
  NoDup (map media_id (media_items (working s))) ->
  (forall r, In r (media_items (working s)) -> 1 <= media_id r) ->
  length (filter is_stale (media_items (working s))) < fuel ->
  let rows := media_items (working s) in
  let w := MediaItemsModel.with_media_items (working s) (filter (fun r => negb (is_stale r)) rows) in
  MediaItemsFs.delete_loop dp fuel 0 deleted 0 s =
    (inr (deleted + length (filter is_stale rows), 0),
     St w w (FS (filter (fun e => negb (stale_file dp rows (fst e))) (files (fs s))) (dirs (fs s)))
        (clock s)).
Proof.
  induction fuel as [| f IH]; intros deleted s Hnd Hid Hf; [lia |]. cbv zeta.
  cbn [MediaItemsFs.delete_loop]. unfold bind at 1, MediaItemsModel.search_media_items_meta, execute.
  cbn [fst snd]. fold (stale_page (media_items (working s))).
  destruct (stale_page (media_items (working s))) as [| x l] eqn:Ep.
  - apply stale_page_nil in Ep. rewrite Ep. cbn [length]. rewrite Nat.add_0_r.
    destruct (no_stale_noop (media_items (working s)) (files (fs s)) Ep) as [Ek Ef].
    rewrite Ek, Ef. destruct s as [[] c [fl dr] k]. reflexivity.
  - rewrite <- Ep. set (page := stale_page (media_items (working s))) in *.
    unfold bind at 1.
    rewrite (delete_page_spec page 0 deleted (St (working s) (working s) (fs s) (clock s)))
      by (intros r Hr; exact (Hid r (proj1 (stale_page_in _ r Hr)))).
    unfold bind, storage_commit. cbn [working committed fs clock files dirs].
    set (rows3 := filter (fun x => negb (in_page page x)) (media_items (working s))).
    pose proof (stale_page_count (media_items (working s)) Hnd) as Hc. fold page rows3 in Hc.
    assert (Hpos : 0 < length page) by (rewrite Ep; simpl; lia).
    rewrite IH; cbn [working media_items MediaItemsModel.with_media_items fs files dirs clock].
    + assert (Ek : filter (fun r => negb (is_stale r)) rows3 =
                   filter (fun r => negb (is_stale r)) (media_items (working s)))
        by exact (stale_page_keep _ Hnd).
      rewrite with_media_items_twice, Ek, filter_filter_and.
      rewrite (filter_ext (fun x => negb (page_file dp page (fst x)) && negb (stale_file dp rows3 (fst x)))
                          (fun e => negb (stale_file dp (media_items (working s)) (fst e)))).
      2:{ intros e. rewrite (stale_page_files _ (fst e) Hnd). fold page rows3.
          rewrite negb_orb, andb_comm. reflexivity. }
      rewrite Hc, Nat.add_assoc. reflexivity.
    + apply NoDup_map_filter, Hnd.
    + intros r Hr. apply filter_In in Hr. exact (Hid r (proj1 Hr)).
    + fold rows3. lia.
Qed.

(** Extra X8 (media_items.py, MediaItems._delete_obsolete_items_by_db): with
    distinct positive row ids, the call deletes every 'stale' row and keeps
    the others, removes exactly the files of the stale rows, commits, and
    returns (number of stale rows, 0). *)
Theorem delete_obsolete_items_by_db_spec (s : st) :
  NoDup (map media_id (media_items (working s))) ->
  (forall r, In r (media_items (working s)) -> 1 <= media_id r) ->
  let rows := media_items (working s) in
  let w := MediaItemsModel.with_media_items (working s) (filter (fun r => negb (is_stale r)) rows) in
  MediaItemsFs._delete_obsolete_items_by_db dp s =
    (inr (length (filter is_stale rows), 0),
     St w w (FS (filter (fun e => negb (stale_file dp rows (fst e))) (files (fs s))) (dirs (fs s)))
        (clock s)).
Proof.
  intros Hnd Hid. cbv zeta.
  unfold MediaItemsFs._delete_obsolete_items_by_db, bind at 1, MediaItemsModel.get_media_items_meta_cnt, execute.
  cbn [fst snd]. rewrite (filter_ext _ is_stale) by exact stale_search_where.
  destruct (Nat.eqb_spec (length (filter is_stale (media_items (working s)))) 0) as [E | E].
  - rewrite E. apply length_zero_iff_nil in E.
    destruct (no_stale_noop (media_items (working s)) (files (fs s)) E) as [Ek Ef].
    rewrite Ek, Ef. destruct s as [[] c [fl dr] k]. reflexivity.
  - unfold bind. cbv beta iota delta [get].
    rewrite (delete_loop_spec _ 0 (St (working s) (working s) (fs s) (clock s))); cbn [working fs clock];
      [reflexivity | exact Hnd | exact Hid |].
    pose proof (filter_length_le is_stale (media_items (working s))). lia.
Qed.

End DeleteStale.

Lemma delete_obsolete_items_by_db_spec_witness :
  NoDup (map media_id (media_items (working stale_state))) /\
  (forall r, In r (media_items (working stale_state)) -> 1 <= media_id r) /\
  MediaItemsFs._delete_obsolete_items_by_db "lib" stale_state =
    (inr (1, 0),
     let w := MediaItemsModel.with_media_items stale_db
                [Fixtures.media 2 "m2" "beach.jpg" "items/2020/01" "synced" 100] in
     St w w (FS [("lib/albums/Trip/photo.jpg", 7)] ["lib/items/2020/01"; "lib/albums/Trip"]) 300).
Proof.
  assert (H1 : NoDup (map media_id (media_items (working stale_state))))
    by (simpl; repeat constructor; simpl; intuition discriminate).
  assert (H2 : forall r, In r (media_items (working stale_state)) -> 1 <= media_id r)
    by (simpl; intros r [<- | [<- | []]]; simpl; lia).
  split; [exact H1 | split; [exact H2 |]].
  rewrite (delete_obsolete_items_by_db_spec "lib" stale_state H1 H2). vm_compute. reflexivity.
Defined.

Lemma lookup_replace_other (k k' : string) (v : nat) (l : list (string * nat)) :
  k' <> k ->
  Identity.lookup_setting k' (map (fun e => if String.eqb (fst e) k then (k, v) else e) l) =
  Identity.lookup_setting k' l.
Proof.
  intros Ne. unfold Identity.lookup_setting.
  induction l as [| [a x] l IH]; simpl; [reflexivity |].
  destruct (String.eqb_spec a k) as [-> | Na]; simpl.
  - rewrite (proj2 (String.eqb_neq k k') (fun H => Ne (eq_sym H))). exact IH.
  - destruct (String.eqb a k'); [reflexivity | exact IH].
Qed.

Lemma lookup_upsert_setting (k k' : string) (v : nat) (l : list (string * nat)) :
  Identity.lookup_setting k' (Identity.upsert_setting k v l) =
  if String.eqb k' k then Some v else Identity.lookup_setting k' l.
Proof.
  destruct (String.eqb_spec k' k) as [-> | Ne].
  - unfold Identity.upsert_setting, Identity.lookup_setting.
    destruct (existsb (fun e => String.eqb (fst e) k) l) eqn:Ex.
    + induction l as [| [a x] l IH]; simpl in *; [discriminate |].
      destruct (String.eqb_spec a k) as [-> | Na]; simpl; [rewrite String.eqb_refl; reflexivity |].
      rewrite (proj2 (String.eqb_neq a k) Na). exact (IH Ex).
    + induction l as [| [a x] l IH]; simpl in *; [rewrite String.eqb_refl; reflexivity |].
      apply orb_false_iff in Ex as [Ea Ex]. rewrite Ea. exact (IH Ex).
  - unfold Identity.upsert_setting.
    destruct (existsb (fun e => String.eqb (fst e) k) l); [apply lookup_replace_other, Ne |].
    unfold Identity.lookup_setting. induction l as [| [a x] l IH]; simpl in *.
    + rewrite (proj2 (String.eqb_neq k k') (fun H => Ne (eq_sym H))). reflexivity.
    + destruct (String.eqb a k'); [reflexivity | exact IH].
Qed.

Lemma upsert_setting_nodup (k : string) (v : nat) (l : list (string * nat)) :
  NoDup (map fst l) -> NoDup (map fst (Identity.upsert_setting k v l)).
Proof.
  unfold Identity.upsert_setting. destruct (existsb (fun e => String.eqb (fst e) k) l) eqn:Ex; intros H.
  - rewrite map_map. erewrite map_ext; [exact H |]. intros [a x]. simpl.
    destruct (String.eqb_spec a k); simpl; congruence.
  - rewrite map_app. apply (NoDup_snoc (map fst l) k H). intros Hin.
    apply in_map_iff in Hin as [e [Ee He]].
    assert (existsb (fun e => String.eqb (fst e) k) l = true) as Ht
      by (apply existsb_exists; exists e; rewrite Ee, String.eqb_refl; auto).
    congruence.
Qed.

(** Extra X9 (settings_model.py, update_aseting and get_settings): an empty
    key raises ValueError and changes nothing; otherwise the call returns 1,
    commits, and get_settings then maps the key to the new value and every
    other key to its old value, keeping the keys distinct. *)
Theorem update_aseting_then_get_settings (k : string) (v : nat) (s : st) :
  match Identity.update_aseting k v s with
  | (inl e, s1) => k = ""%string /\ e = ValueError "key must be specified" /\ s1 = s
  | (inr n, s1) =>
      n = 1 /\ committed s1 = working s1 /\
      match Identity.get_settings s1 with
      | (inr l, _) =>
          (forall k', Identity.lookup_setting k' l =
                      if String.eqb k' k then Some v
                      else Identity.lookup_setting k' (settings (working s))) /\
          (NoDup (map fst (settings (working s))) -> NoDup (map fst l))
      | (inl _, _) => False
      end
  end.
Proof.
  unfold Identity.update_aseting, raise_if, bind.
  destruct (String.eqb_spec k "") as [-> | Ne].
  - cbn. auto.
  - unfold ret, execute, Identity.get_settings. cbn [working committed Identity.with_settings settings].
    split; [reflexivity | split; [reflexivity | split]].
    + intros k'. apply lookup_upsert_setting.
    + apply upsert_setting_nodup.
Qed.

Lemma update_rows_last_checked_keys (mid t : nat) (l l' : list media_row) (n : nat) :
  MediaItemsModel.update_rows mid [("last_checked", KTime t)] l = inr (n, l') ->
  map row_key l' = map row_key l.
Proof.
  revert n l'. induction l as [| a l IH]; intros n l' E; cbn [MediaItemsModel.update_rows] in E.
  - injection E as <- <-. reflexivity.
  - destruct (Nat.eqb (media_id a) mid).
    + cbn in E. injection E as <- <-. reflexivity.
    + destruct (MediaItemsModel.update_rows mid _ l) as [e | [m l'']] eqn:E'; [discriminate |].
      injection E as <- <-. simpl. rewrite (IH _ _ eq_refl). reflexivity.
Qed.

Lemma indexed_ok_keys (rid : string) (l l' : list media_row) (d : db) :
  map row_key l' = map row_key l ->
  indexed_ok rid (MediaItemsModel.with_media_items d l) ->
  indexed_ok rid (MediaItemsModel.with_media_items d l').
Proof.
  unfold indexed_ok. cbn [MediaItemsModel.with_media_items media_items].
  revert l. induction l' as [| a l' IH]; intros l E [r [Hf Hm]].
  - destruct l; [discriminate Hf | discriminate E].
  - destruct l as [| b l]; [discriminate E |].
    assert (Eab : row_key a = row_key b) by (cbn [map] in E; congruence).
    assert (El : map row_key l' = map row_key l) by (cbn [map] in E; congruence).
    unfold row_key in Eab. injection Eab as Ei Er Es.
    cbn [find] in Hf |- *. rewrite Er. destruct (String.eqb (remote_id b) rid).
    + injection Hf as <-. exists a. split; [reflexivity | rewrite Es; exact Hm].
    + exact (IH l El (ex_intro _ r (conj Hf Hm))).
Qed.

Lemma with_media_items_same (d : db) : MediaItemsModel.with_media_items d (media_items d) = d.
Proof. destruct d; reflexivity. Qed.

Lemma index_item_establishes (mi : remote_media) (c : bool) (s : st) :
  (forall r, In r (media_items (working s)) -> 1 <= media_id r) ->
  match MediaItems.index_item mi c s with
  | (inr _, s1) =>
      rm_id mi <> ""%string /\ indexed_ok (rm_id mi) (working s1) /\
      (forall r, In r (media_items (working s1)) -> 1 <= media_id r)
  | (inl _, _) => True
  end.
Proof.
  intros Hid. unfold MediaItems.index_item, bind at 1, MediaItemsModel.get_media_item_meta.
  cbn [Nat.eqb andb].
  destruct (String.eqb_spec (rm_id mi) "") as [Hrid | Hrid]; [exact I |].
  unfold execute at 1. cbn [fst snd working clock committed fs].
  set (s1 := St (working s) (working s) (fs s) (clock s)).
  assert (Hadd : forall k : nat -> M string,
             (forall n s2, exists s3, k n s2 = (inr "indexed", s3) /\ working s3 = working s2) ->
             match bind (MediaItems._add_item mi) k s1 with
             | (inr _, s2) =>
                 rm_id mi <> ""%string /\ indexed_ok (rm_id mi) (working s2) /\
                 (forall r, In r (media_items (working s2)) -> 1 <= media_id r)
             | (inl _, _) => True
             end).
  { intros k Hk. unfold bind.
    destruct (add_item_cases mi s1) as [[e [s2 [-> _]]] | [v [n [d' [s2 [-> [E [Hr [_ [Hw _]]]]]]]]]];
      [exact I |].
    destruct (Hk n s2) as [s3 [-> Hw3]]. split; [exact Hrid |]. rewrite Hw3, Hw. revert E. rewrite upsert_stmt_pending, Hr.
    cbn [working s1]. destruct (find _ (media_items (working s))) as [old |] eqn:Hf; intro E;
      injection E as <- <-; cbn [media_items MediaItemsModel.with_media_items]; split.
    - apply find_some in Hf as [Ho Hor]. clear Hk Hw Hid.
      unfold indexed_ok. cbn [MediaItemsModel.with_media_items media_items].
      induction (media_items (working s)) as [| a l IH]; [destruct Ho |].
      cbn [map find]. destruct (String.eqb (remote_id a) (rm_id mi)) eqn:Ea.
      + eexists. split; [cbn [remote_id]; rewrite Ea; reflexivity | reflexivity].
      + rewrite Ea. destruct Ho as [<- | Ho]; [congruence |]. exact (IH Ho).
    - intros r Hr'. apply in_map_iff in Hr' as [x [<- Hx]]. specialize (Hid x Hx).
      destruct (String.eqb _ _); exact Hid.
    - exists (MediaRow (S (seq_media (working s))) (rm_id mi) (MediaItemsModel.i_name v)
                (MediaItemsModel.i_cname v) (MediaItemsModel.i_mime_type v)
                (MediaItemsModel.i_create_date v) (MediaItemsModel.i_modify_date v)
                (MediaItemsModel.i_path v) (MediaItemsModel.i_index_date v)
                (MediaItemsModel.i_last_checked v) "pending_sync").
      split; [| reflexivity].
      clear Hid Hk Hw Hw3. induction (media_items (working s)) as [| a l IH]; cbn [media_items app find] in *.
      + cbn [remote_id]. rewrite String.eqb_refl. reflexivity.
      + destruct (String.eqb (remote_id a) (rm_id mi)); [discriminate | exact (IH Hf)].
    - intros r Hr'. apply in_app_iff in Hr' as [Hr' | [<- | []]]; [exact (Hid r Hr') | cbn; lia]. }
  destruct (find _ (media_items (working s))) as [r |] eqn:Hf.
  - pose proof (find_some _ _ Hf) as [Hr Hrr]. cbn beta in Hrr. apply String.eqb_eq in Hrr.
    unfold MediaItems._index_needed.
    destruct (mem_str (status r) ["synced"; "pending_sync"; "ignored"]) eqn:Hm; cbn [negb].
    + unfold bind at 1, now. cbn [fst snd].
      unfold bind. rewrite update_last_checked_eq by exact (Hid r Hr). unfold execute.
      cbn [working s1].
      destruct (MediaItemsModel.update_rows _ _ _) as [e | [n l']] eqn:Eu; [exact I |].
      cbn [working media_items MediaItemsModel.with_media_items]. split; [exact Hrid |].
      pose proof (update_rows_last_checked_keys _ _ _ _ _ Eu) as Ek. split.
      * apply (indexed_ok_keys _ (media_items (working s)) l' (working s) Ek).
        rewrite with_media_items_same. exists r. split; [exact Hf | exact Hm].
      * intros x Hx. assert (In (media_id x) (map media_id (media_items (working s)))) as Hx'.
        { replace (map media_id (media_items (working s))) with (map (fun k => fst (fst k)) (map row_key (media_items (working s))))
            by (rewrite map_map; reflexivity).
          rewrite <- Ek, map_map. apply (in_map (fun x => media_id x)), Hx. }
        apply in_map_iff in Hx' as [y [Ey Hy]]. rewrite <- Ey. exact (Hid y Hy).
    + apply Hadd. intros n s2. destruct c; eexists; split; reflexivity.
  - apply Hadd. intros n s2. destruct c; eexists; split; reflexivity.
Qed.

Lemma index_item_when_ok (mi : remote_media) (c : bool) (s : st) :
  rm_id mi <> ""%string -> indexed_ok (rm_id mi) (working s) ->
  (forall r, In r (media_items (working s)) -> 1 <= media_id r) ->
  let (res, s2) := MediaItems.index_item mi c s in
  res = inr "skipped" /\ map row_key (media_items (working s2)) = map row_key (media_items (working s)).
Proof.
  intros Hrid [r [Hf Hm]] Hid. unfold MediaItems.index_item, bind at 1, MediaItemsModel.get_media_item_meta.
  cbn [Nat.eqb andb]. rewrite (proj2 (String.eqb_neq _ _) Hrid).
  unfold execute at 1. cbn [fst snd working clock committed fs]. rewrite Hf.
  unfold MediaItems._index_needed. rewrite Hm. cbn [negb].
  unfold bind at 1, now. cbn [fst snd].
  pose proof (find_some _ _ Hf) as [Hr _].
  unfold bind. rewrite update_last_checked_eq by exact (Hid r Hr). unfold execute.
  cbn [working].
  destruct (MediaItemsModel.update_rows _ _ _) as [e | [n l']] eqn:Eu.
  - exfalso. revert Eu. clear. induction (media_items (working s)) as [| a l IH]; [discriminate |].
    cbn [MediaItemsModel.update_rows]. destruct (Nat.eqb _ _); [discriminate |].
    destruct (MediaItemsModel.update_rows _ _ l); [exact IH | destruct p; discriminate].
  - split; [reflexivity |]. exact (update_rows_last_checked_keys _ _ _ _ _ Eu).
Qed.

(** Extra X10 (media_items.py, MediaItems.index_item): with positive row
    ids, once index_item has succeeded for an item, with either commit
    mode, indexing the same item again, with either commit mode, returns
    'skipped' and changes no row's id, remote id or status. *)
Theorem index_item_again_skipped (mi : remote_media) (c1 c2 : bool) (s : st) :
  (forall r, In r (media_items (working s)) -> 1 <= media_id r) ->
  match MediaItems.index_item mi c1 s with
  | (inr _, s1) =>
      let (res2, s2) := MediaItems.index_item mi c2 s1 in
      res2 = inr "skipped" /\
      map row_key (media_items (working s2)) = map row_key (media_items (working s1))
  | (inl _, _) => True
  end.
Proof.
  intros Hid. pose proof (index_item_establishes mi c1 s Hid) as H.
  destruct (MediaItems.index_item mi c1 s) as [[e | x] s1]; [exact I |].
  destruct H as [Hrid [Hok Hid1]]. exact (index_item_when_ok mi c2 s1 Hrid Hok Hid1).
Qed.

Lemma index_item_again_skipped_witness :
  (forall r, In r (media_items (working Fixtures.trip_state)) -> 1 <= media_id r) /\
  match MediaItems.index_item Fixtures.photo2 true Fixtures.trip_state with
  | (inr _, s1) =>
      let (res2, s2) := MediaItems.index_item Fixtures.photo2 true s1 in
      res2 = inr "skipped" /\
      map row_key (media_items (working s2)) = map row_key (media_items (working s1))
  | (inl _, _) => True
  end.
Proof.
  assert (H : forall r, In r (media_items (working Fixtures.trip_state)) -> 1 <= media_id r)
    by (simpl; intros r [<- | []]; simpl; lia).
  split; [exact H | exact (index_item_again_skipped Fixtures.photo2 true true Fixtures.trip_state H)].
Defined.

(** ** Frames of the per-item sync tasks *)









Lemma same_id_in (r x : media_row) (l : list media_row) :
  In r (x :: l) -> NoDup (map media_id (x :: l)) -> media_id x = media_id r -> x = r.
Proof.
  intros [H | H] Hnd E; [exact H |]. inversion Hnd as [| ? ? Hn _]; subst.
  exfalso. apply Hn. rewrite E. apply in_map, H.
Qed.

Lemma fix_row_absent (mid : nat) (l : list media_row) :
  ~ In mid (map media_id l) -> fix_row mid l = l.
Proof.
  intros Hn. unfold fix_row. rewrite <- (map_id l) at 2. apply map_ext_in. intros x Hx.
  destruct (Nat.eqb_spec (media_id x) mid) as [E | E]; [| reflexivity].
  exfalso. apply Hn. rewrite <- E. apply in_map, Hx.
Qed.

Lemma fix_row_count (r : media_row) (l : list media_row) :
  In r l -> NoDup (map media_id l) -> status r = "synced" ->
  length (filter is_pending (fix_row (media_id r) l)) = S (length (filter is_pending l)).
Proof.
  induction l as [| x l IH]; intros Hin Hnd Hs; [destruct Hin |].
  cbn [fix_row map filter]. fold (fix_row (media_id r) l).
  destruct (Nat.eqb_spec (media_id x) (media_id r)) as [E | E].
  - pose proof (same_id_in r x l Hin Hnd E) as Exr. subst x.
    inversion Hnd as [| ? ? Hn _]; subst. rewrite fix_row_absent by exact Hn.
    replace (is_pending r) with false by (unfold is_pending; rewrite Hs; reflexivity).
    reflexivity.
  - destruct Hin as [-> | Hin]; [congruence |]. inversion Hnd; subst.
    destruct (is_pending x); cbn [length]; rewrite IH; auto.
Qed.

Lemma fix_row_in (r x : media_row) (l : list media_row) :
  In x l -> media_id x <> media_id r -> In x (fix_row (media_id r) l).
Proof.
  intros H E. unfold fix_row. apply in_map_iff. exists x. split; [| exact H].
  destruct (Nat.eqb_spec (media_id x) (media_id r)); [contradiction | reflexivity].
Qed.

Lemma fix_row_ids (mid : nat) (l : list media_row) : map media_id (fix_row mid l) = map media_id l.
Proof. apply map_media_id_set_status. Qed.

Lemma scan_fix_step (dp : string) (f0 : fs_state) (r : media_row) (rows0 : list media_row) :
  forall cur, Forall2 (scan_fix dp f0) rows0 cur -> In r cur -> NoDup (map media_id cur) ->
  status r = "synced" -> isfile (join (join dp (path r)) (cname r)) f0 = false ->
  Forall2 (scan_fix dp f0) rows0 (fix_row (media_id r) cur).
Proof.
  intros cur HF. induction HF as [| o x rows0 cur Hox HF IH]; intros Hin Hnd Hs Hf; [destruct Hin |].
  cbn [fix_row map]. fold (fix_row (media_id r) cur).
  destruct (Nat.eqb_spec (media_id x) (media_id r)) as [E | E].
  - pose proof (same_id_in r x cur Hin Hnd E) as Exr. subst x.
    inversion Hnd as [| ? ? Hn _]; subst. rewrite fix_row_absent by exact Hn.
    constructor; [| exact HF].
    destruct Hox as [-> | [_ [_ ->]]].
    + right. auto.
    + cbn in Hs. discriminate.
  - destruct Hin as [-> | Hin]; [congruence |]. inversion Hnd; subst. constructor; auto.
Qed.

Lemma update_status_pending (mid : nat) (s : st) :
  mid <> 0 -> NoDup (map media_id (media_items (working s))) ->
  exists n, MediaItemsModel.update_media_item_meta mid [("status", KStr "pending_sync")] s =
    (inr n, St (MediaItemsModel.with_media_items (working s) (fix_row mid (media_items (working s))))
               (committed s) (fs s) (clock s)).
Proof.
  intros Hm Hnd. unfold MediaItemsModel.update_media_item_meta, raise_if.
  apply Nat.eqb_neq in Hm. rewrite Hm.
  unfold bind, ret, execute. cbn - [MediaItemsModel.update_rows].
  rewrite update_rows_status by (reflexivity || exact Hnd). eexists. reflexivity.
Qed.

Lemma in_skipn {A} (n : nat) (l : list A) (x : A) : In x (skipn n l) -> In x l.
Proof. intros H. rewrite <- (firstn_skipn n l). apply in_or_app. right. exact H. Qed.

Lemma nodup_limit (k o : nat) (l : list media_row) :
  NoDup (map media_id l) -> NoDup (map media_id (firstn k (skipn o l))).
Proof.
  intros H. apply (NoDup_app_remove_r _ (map media_id (skipn k (skipn o l)))).
  rewrite <- map_app, firstn_skipn.
  apply (NoDup_app_remove_l (map media_id (firstn o l))).
  rewrite <- map_app, firstn_skipn. exact H.
Qed.

Lemma synced_where (r : media_row) :
  MediaItemsModel.search_where "" "" (Some (false, ["synced"])) r = String.eqb (status r) "synced".
Proof. unfold MediaItemsModel.search_where, in_condition, mem_str. simpl. apply orb_false_r. Qed.

Lemma pos_of_ids (l l' : list media_row) :
  map media_id l' = map media_id l -> (forall r, In r l -> 1 <= media_id r) ->
  forall r, In r l' -> 1 <= media_id r.
Proof.
  intros E H r Hr. apply (in_map media_id) in Hr. rewrite E in Hr.
  apply in_map_iff in Hr. destruct Hr as [y [<- Hy]]. apply H, Hy.
Qed.

Lemma scan_fix_refl (dp : string) (f0 : fs_state) (l : list media_row) : Forall2 (scan_fix dp f0) l l.
Proof. induction l; constructor; [left; reflexivity | exact IHl]. Qed.

Section Scan.
Variable dp : string.
Variable f0 : fs_state.
Variable rows0 : list media_row.

Lemma scan_page_spec (page : list media_row) : forall fixed s,
  NoDup (map media_id page) ->
  (forall r, In r page -> In r (media_items (working s)) /\ status r = "synced") ->
  NoDup (map media_id (media_items (working s))) ->
  (forall r, In r (media_items (working s)) -> 1 <= media_id r) ->
  fs s = f0 ->
  Forall2 (scan_fix dp f0) rows0 (media_items (working s)) ->
  exists n cur,
    MediaItems.scan_page dp page fixed s =
      (inr n, St (MediaItemsModel.with_media_items (working s) cur) (committed s) (fs s) (clock s)) /\
    Forall2 (scan_fix dp f0) rows0 cur /\
    map media_id cur = map media_id (media_items (working s)) /\
    n + length (filter is_pending (media_items (working s))) = fixed + length (filter is_pending cur).
Proof.
  induction page as [| r page IH]; intros fixed s Hnd Hpage Hids Hpos Hfs HF.
  - exists fixed, (media_items (working s)). split; [| auto].
    destruct s as [[] c f k]. reflexivity.
  - cbn [map] in Hnd. apply NoDup_cons_iff in Hnd. destruct Hnd as [Hnr Hnd'].
    destruct (Hpage r (or_introl eq_refl)) as [Hr Hs].
    cbn [MediaItems.scan_page]. unfold bind at 1, MediaItems._item_exists_fs, bind at 1, get, ret at 1.
    destruct (isfile (join (join dp (path r)) (cname r)) (fs s)) eqn:Ef.
    + apply IH; auto. intros x Hx. apply Hpage. right. exact Hx.
    + assert (Hm : media_id r <> 0) by (specialize (Hpos r Hr); lia).
      destruct (update_status_pending (media_id r) s Hm Hids) as [u Hu].
      unfold bind at 1. rewrite Hu.
      set (s1 := St _ _ _ _).
      assert (Hids1 : map media_id (media_items (working s1)) = map media_id (media_items (working s)))
        by apply fix_row_ids.
      destruct (IH (S fixed) s1) as [n [cur [E [HF' [Hi Hc]]]]]; auto.
      * intros x Hx. destruct (Hpage x (or_intror Hx)) as [Hx1 Hx2]. split; [| exact Hx2].
        apply fix_row_in; [exact Hx1 |]. intros Ex. apply Hnr. rewrite <- Ex. apply in_map, Hx.
      * rewrite Hids1. exact Hids.
      * intros x Hx. cbn in Hx. unfold fix_row in Hx. apply in_map_iff in Hx.
        destruct Hx as [y [<- Hy]]. destruct (Nat.eqb (media_id y) (media_id r)); exact (Hpos y Hy).
      * apply scan_fix_step; auto. rewrite <- Hfs. exact Ef.
      * exists n, cur. rewrite E. cbn [working committed fs clock s1]. rewrite with_media_items_twice.
        split; [reflexivity |]. split; [exact HF' |]. split; [rewrite Hi; exact Hids1 |].
        cbn [working s1 media_items MediaItemsModel.with_media_items] in Hc.
        rewrite (fix_row_count r _ Hr Hids Hs) in Hc. lia.
Qed.

Lemma scan_loop_spec (fuel : nat) : forall offset fixed s,
  NoDup (map media_id (media_items (working s))) ->
  (forall r, In r (media_items (working s)) -> 1 <= media_id r) ->
  fs s = f0 ->
  Forall2 (scan_fix dp f0) rows0 (media_items (working s)) ->
  committed s = working s ->
  exists n cur,
    MediaItems.scan_loop dp fuel offset fixed s =
      (inr n, St (MediaItemsModel.with_media_items (working s) cur)
                 (MediaItemsModel.with_media_items (working s) cur) (fs s) (clock s)) /\
    Forall2 (scan_fix dp f0) rows0 cur /\
    n + length (filter is_pending (media_items (working s))) = fixed + length (filter is_pending cur).
Proof.
  induction fuel as [| fuel IH]; intros offset fixed s Hids Hpos Hfs HF Hc.
  - exists fixed, (media_items (working s)). split; [| auto].
    destruct s as [w c f k]. cbn in Hc |- *. subst c. rewrite with_media_items_same. reflexivity.
  - cbn [MediaItems.scan_loop]. unfold bind at 1, MediaItemsModel.search_media_items_meta, execute.
    cbn [working committed fs clock].
    set (page := limit_offset 100 offset _).
    assert (Hpage : forall r, In r page -> In r (media_items (working s)) /\ status r = "synced").
    { intros r Hr. unfold page, limit_offset in Hr. apply in_firstn, in_skipn in Hr.
      apply (Permutation_in _ (sort_by_id_perm _)), filter_In in Hr. destruct Hr as [Hr Hw].
      rewrite synced_where in Hw. split; [exact Hr | apply String.eqb_eq, Hw]. }
    assert (Hnd : NoDup (map media_id page)).
    { unfold page, limit_offset. apply nodup_limit.
      apply (Permutation_NoDup (Permutation_map _ (Permutation_sym (sort_by_id_perm _)))).
      apply NoDup_map_filter, Hids. }
    clearbody page. destruct page as [| r page'].
    + exists fixed, (media_items (working s)). split; [| auto].
      destruct s as [w c f k]. cbn. rewrite with_media_items_same. reflexivity.
    + set (s0 := St (working s) (working s) (fs s) (clock s)).
      destruct (scan_page_spec (r :: page') fixed s0) as [m [cur [E [HF' [Hi Hcnt]]]]]; auto.
      unfold bind at 1. rewrite E. unfold bind at 1, storage_commit.
      cbn [working committed fs clock s0].
      set (s1 := St _ _ _ _).
      destruct (IH (offset + 100) m s1) as [n [cur' [E' [HF'' Hcnt']]]].
      * cbn [s1 working media_items MediaItemsModel.with_media_items]. rewrite Hi. exact Hids.
      * cbn [s1 working media_items MediaItemsModel.with_media_items]. apply (pos_of_ids _ _ Hi Hpos).
      * exact Hfs.
      * exact HF'.
      * reflexivity.
      * exists n, cur'. rewrite E'. cbn [s1 working fs clock]. rewrite with_media_items_twice.
        split; [reflexivity |]. split; [exact HF'' |].
        cbn [s1 s0 working media_items MediaItemsModel.with_media_items] in Hcnt, Hcnt'. lia.
Qed.

End Scan.

(** Extra X13 (media_items.py, MediaItems.scan_synced_items_fs): with
    distinct positive row ids, the scan never raises and changes nothing but
    row statuses; each row is kept, or is a 'synced' row whose file is
    missing and becomes 'pending_sync'; the returned count is the number of
    rows that became 'pending_sync', and the result is committed. *)
Theorem scan_synced_items_fs_sound (dp : string) (s : st) :
  NoDup (map media_id (media_items (working s))) ->
  (forall r, In r (media_items (working s)) -> 1 <= media_id r) ->
  let rows := media_items (working s) in
  let (res, s') := MediaItems.scan_synced_items_fs dp s in
  exists n rows', res = inr n /\
    working s' = MediaItemsModel.with_media_items (working s) rows' /\
    committed s' = working s' /\ fs s' = fs s /\ clock s' = clock s /\
    Forall2 (scan_fix dp (fs s)) rows rows' /\
    n + length (filter is_pending rows) = length (filter is_pending rows').
Proof.
  intros Hids Hpos. cbv zeta.
  unfold MediaItems.scan_synced_items_fs, bind at 1, MediaItemsModel.get_media_items_meta_cnt, execute.
  cbn [working committed fs clock].
  destruct (Nat.eqb _ 0).
  - exists 0, (media_items (working s)). cbn. rewrite with_media_items_same.
    repeat split; auto using scan_fix_refl.
  - unfold bind at 1, get. cbn [working committed fs clock].
    destruct (scan_loop_spec dp (fs s) (media_items (working s)) (S (length (media_items (working s)))) 0 0
                (St (working s) (working s) (fs s) (clock s))) as [n [cur [E [HF Hc]]]];
      auto using scan_fix_refl.
    rewrite E. exists n, cur. cbn [working committed fs clock] in *. repeat split; auto.
Qed.

Lemma scan_synced_items_fs_sound_witness :
  NoDup (map media_id (media_items (working stale_state))) /\
  (forall r, In r (media_items (working stale_state)) -> 1 <= media_id r) /\
  let rows := media_items (working stale_state) in
  let (res, s') := MediaItems.scan_synced_items_fs "lib" stale_state in
  exists n rows', res = inr n /\
    working s' = MediaItemsModel.with_media_items (working stale_state) rows' /\
    committed s' = working s' /\ fs s' = fs stale_state /\ clock s' = clock stale_state /\
    Forall2 (scan_fix "lib" (fs stale_state)) rows rows' /\
    n + length (filter is_pending rows) = length (filter is_pending rows').
Proof.
  assert (H1 : NoDup (map media_id (media_items (working stale_state))))
    by (simpl; repeat constructor; simpl; intuition discriminate).
  assert (H2 : forall r, In r (media_items (working stale_state)) -> 1 <= media_id r)
    by (simpl; intros r [<- | [<- | []]]; simpl; lia).
  split; [exact H1 | split; [exact H2 |]].
  exact (scan_synced_items_fs_sound "lib" stale_state H1 H2).
Defined.

(* ------------------------------------------------------------------ *)
(** ** The rescan pass of [index_items], item by item *)

Lemma canon_loop_ok :
  forall fuel u fn pth s, exists cn, fst (MediaItems.canon_loop fuel u fn pth s) = inr cn.
Proof.
  induction fuel as [| f IH]; intros u fn pth s; [eexists; reflexivity |].
  cbn [MediaItems.canon_loop]. unfold bind at 1, MediaItemsModel.search_media_items_meta, execute.
  cbn [fst snd].
  destruct (limit_offset _ _ _) as [| x l]; [eexists; reflexivity |].
  destruct (Utils.splitext fn) as [nm ext]. apply IH.
Qed.

Lemma add_item_outcome mi s :
  match fst (MediaItems._add_item mi s) with
  | inl _ => exists e, Utils.parse_creation_time (rm_creation_time mi) = inl e
  | inr _ => exists p, Utils.parse_creation_time (rm_creation_time mi) = inr p
  end.
Proof.
  unfold MediaItems._add_item, bind.
  destruct (Utils.parse_creation_time (rm_creation_time mi)) as [e | [[y m] cd]];
    [eexists; reflexivity |].
  cbn [MediaItems.lift_exn ret].
  assert (Hc : exists cn, fst (MediaItems._get_canonicalized_name (rm_filename mi)
                                 (join (join "items" y) m) s) = inr cn).
  { unfold MediaItems._get_canonicalized_name, bind, get.
    destruct (Utils.splitext (rm_filename mi)) as [nm ext]. apply canon_loop_ok. }
  destruct Hc as [cn Hc].
  destruct (MediaItems._get_canonicalized_name _ _ s) as [[e | cn'] s1]; cbn [fst] in Hc;
    [discriminate |].
  unfold now. rewrite add_media_item_meta_pending. unfold execute.
  rewrite upsert_stmt_pending. destruct (find _ _); eexists; reflexivity.
Qed.

Lemma index_item_raises_spec mi s :
  NoDup (map media_id (media_items (working s))) ->
  (forall r, In r (media_items (working s)) -> 1 <= media_id r) ->
  match fst (MediaItems.index_item mi false s) with
  | inl _ => index_item_raises (media_items (working s)) mi = true
  | inr _ => index_item_raises (media_items (working s)) mi = false
  end.
Proof.
  intros Hids Hpos. destruct (MediaItems.index_item mi false s) as [res s'] eqn:E. cbn [fst].
  revert E. unfold index_item_raises, MediaItems.index_item, bind at 1,
    MediaItemsModel.get_media_item_meta.
  cbn [Nat.eqb andb].
  destruct (String.eqb (rm_id mi) "") eqn:Hrid; [intro E; injection E as <- <-; reflexivity |].
  cbn [orb]. unfold execute at 1. cbn [fst snd working clock committed fs].
  set (s1 := St (working s) (working s) (fs s) (clock s)).
  assert (Hadd : forall k : nat -> M string,
             (forall n s2, k n s2 = (inr "indexed", s2)) ->
             bind (MediaItems._add_item mi) k s1 = (res, s') ->
             match res with
             | inl _ => (match Utils.parse_creation_time (rm_creation_time mi) with
                         | inl _ => true | inr _ => false end) = true
             | inr _ => (match Utils.parse_creation_time (rm_creation_time mi) with
                         | inl _ => true | inr _ => false end) = false
             end).
  { intros k Hk. pose proof (add_item_outcome mi s1) as Ho. unfold bind.
    destruct (MediaItems._add_item mi s1) as [[e | n] s2]; cbn [fst] in Ho.
    - intro E; injection E as <- <-. destruct Ho as [e' ->]. reflexivity.
    - rewrite Hk. intro E; injection E as <- <-. destruct Ho as [p ->]. reflexivity. }
  destruct (find _ (media_items (working s))) as [r |] eqn:Hf.
  - pose proof (find_some _ _ Hf) as [Hr _].
    unfold MediaItems._index_needed.
    destruct (mem_str (status r) ["synced"; "pending_sync"; "ignored"]) eqn:Hm; cbn [negb andb].
    + unfold bind at 1, now. cbn [fst snd].
      unfold bind. rewrite update_last_checked_eq by exact (Hpos r Hr). unfold execute.
      cbn [working s1]. rewrite (update_rows_last_checked _ _ _ Hids Hr).
      intro E; injection E as <- <-. reflexivity.
    + apply Hadd. reflexivity.
  - apply Hadd. reflexivity.
Qed.

Lemma index_item_keeps_others mi s :
  NoDup (map media_id (media_items (working s))) ->
  (forall r, In r (media_items (working s)) -> 1 <= media_id r) ->
  match MediaItems.index_item mi false s with
  | (inr _, s1) => forall x, In x (media_items (working s)) -> remote_id x <> rm_id mi ->
                             In x (media_items (working s1))
  | (inl _, _) => True
  end.
Proof.
  intros Hids Hpos. destruct (MediaItems.index_item mi false s) as [[e | v] s'] eqn:E; [exact I |].
  revert E. unfold MediaItems.index_item, bind at 1, MediaItemsModel.get_media_item_meta.
  cbn [Nat.eqb andb].
  destruct (String.eqb (rm_id mi) "") eqn:Hrid; [discriminate |].
  unfold execute at 1. cbn [fst snd working clock committed fs].
  set (s1 := St (working s) (working s) (fs s) (clock s)).
  assert (Hadd : forall k : nat -> M string,
             (forall n s2, k n s2 = (inr "indexed", s2)) ->
             bind (MediaItems._add_item mi) k s1 = (inr v, s') ->
             forall x, In x (media_items (working s)) -> remote_id x <> rm_id mi ->
                       In x (media_items (working s'))).
  { intros k Hk. unfold bind.
    destruct (add_item_cases mi s1) as [[e [s2 [-> _]]] | [w [n [d' [s2 [-> [E [Hr [_ [Hw _]]]]]]]]]];
      [discriminate |].
    rewrite Hk. intro E'; injection E' as <- <-. rewrite Hw. revert E.
    rewrite upsert_stmt_pending, Hr. cbn [working s1].
    destruct (find _ (media_items (working s))) as [old |]; intro E; injection E as <- <-;
      cbn [media_items MediaItemsModel.with_media_items]; intros x Hx Hne.
    - apply in_map_iff. exists x. split; [| exact Hx].
      rewrite (proj2 (String.eqb_neq _ _) Hne). reflexivity.
    - apply in_app_iff. left. exact Hx. }
  destruct (find _ (media_items (working s))) as [r |] eqn:Hf.
  - pose proof (find_some _ _ Hf) as [Hr Hrr]. cbn beta in Hrr. apply String.eqb_eq in Hrr.
    unfold MediaItems._index_needed.
    destruct (mem_str (status r) ["synced"; "pending_sync"; "ignored"]) eqn:Hm; cbn [negb].
    + unfold bind at 1, now. cbn [fst snd].
      unfold bind. rewrite update_last_checked_eq by exact (Hpos r Hr). unfold execute.
      cbn [working s1]. rewrite (update_rows_last_checked _ _ _ Hids Hr).
      intro E; injection E as <- <-. cbn [working media_items MediaItemsModel.with_media_items].
      intros x Hx Hne. apply in_map_iff. exists x. split; [| exact Hx].
      destruct (Nat.eqb_spec (media_id x) (media_id r)) as [Ei | Ei]; [| reflexivity].
      exfalso. apply Hne. rewrite (NoDup_map_inj _ _ _ _ Hids Hx Hr Ei). exact Hrr.
    + apply Hadd. reflexivity.
  - apply Hadd. reflexivity.
Qed.

Lemma track_find_unseen rows0 c seen d id :
  index_inv rows0 c seen d -> track_inv rows0 seen d -> ~ In id seen ->
  find (fun r => String.eqb (remote_id r) id) (media_items d) =
  find (fun r => String.eqb (remote_id r) id) rows0.
Proof.
  intros Hinv Htr Hn.
  destruct (find _ rows0) as [r0 |] eqn:F0.
  - apply find_some in F0 as [Hr0 Hr0e]. apply String.eqb_eq in Hr0e.
    assert (Hin : In r0 (media_items d))
      by (apply (trk_keep _ _ _ Htr r0 Hr0); rewrite Hr0e; exact Hn).
    destruct (find _ (media_items d)) as [x |] eqn:F.
    + apply find_some in F as [Hx Hxe]. apply String.eqb_eq in Hxe. f_equal.
      apply (NoDup_map_inj _ _ _ _ (inv_rids _ _ _ _ Hinv) Hx Hin). congruence.
    + pose proof (find_none _ _ F r0 Hin) as H. cbn beta in H.
      rewrite Hr0e, String.eqb_refl in H. discriminate.
  - destruct (find _ (media_items d)) as [x |] eqn:F; [| reflexivity].
    apply find_some in F as [Hx Hxe]. apply String.eqb_eq in Hxe.
    destruct (inv_rows _ _ _ _ Hinv x Hx) as [[Hx0 _] | [_ [_ Hs]]].
    + pose proof (find_none _ _ F0 x Hx0) as H. cbn beta in H.
      rewrite Hxe, String.eqb_refl in H. discriminate.
    + exfalso. apply Hn. rewrite <- Hxe. exact Hs.
Qed.

Lemma track_raises_seen rows0 c seen d mi :
  index_inv rows0 c seen d -> track_inv rows0 seen d -> In (rm_id mi) seen ->
  index_item_raises (media_items d) mi = false.
Proof.
  intros Hinv Htr Hin. unfold index_item_raises.
  assert (Hne : String.eqb (rm_id mi) "" = false).
  { apply String.eqb_neq. intros E. apply (trk_nonempty _ _ _ Htr). rewrite <- E. exact Hin. }
  rewrite Hne. cbn [orb].
  destruct (trk_ok _ _ _ Htr _ Hin) as [r [Hr [Er Hm]]].
  destruct (find _ (media_items d)) as [x |] eqn:F.
  - apply find_some in F as [Hx Hxe]. apply String.eqb_eq in Hxe.
    assert (x = r) by (apply (NoDup_map_inj _ _ _ _ (inv_rids _ _ _ _ Hinv) Hx Hr); congruence).
    subst x. unfold MediaItems._index_needed. rewrite Hm. reflexivity.
  - pose proof (find_none _ _ F r Hr) as H. cbn beta in H.
    rewrite Er, String.eqb_refl in H. discriminate.
Qed.

Lemma track_raises_unseen rows0 c seen d mi :
  index_inv rows0 c seen d -> track_inv rows0 seen d -> ~ In (rm_id mi) seen ->
  index_item_raises (media_items d) mi = index_item_raises rows0 mi.
Proof.
  intros Hinv Htr Hn. unfold index_item_raises.
  rewrite (track_find_unseen _ _ _ _ _ Hinv Htr Hn). reflexivity.
Qed.

Lemma index_item_track rows0 c seen mi s :
  index_inv rows0 c seen (working s) -> track_inv rows0 seen (working s) -> clock s = c ->
  match MediaItems.index_item mi false s with
  | (inl _, s1) =>
      working s1 = working s /\ clock s1 = c /\ ~ In (rm_id mi) seen /\
      index_item_raises rows0 mi = true
  | (inr _, s1) =>
      clock s1 = c /\ index_inv rows0 c (rm_id mi :: seen) (working s1) /\
      track_inv rows0 (rm_id mi :: seen) (working s1) /\
      (In (rm_id mi) seen \/ index_item_raises rows0 mi = false)
  end.
Proof.
  intros Hinv Htr Hc.
  assert (Hpos : forall r, In r (media_items (working s)) -> 1 <= media_id r)
    by (intros r Hr; apply (inv_seq _ _ _ _ Hinv r Hr)).
  pose proof (inv_ids _ _ _ _ Hinv) as Hids.
  pose proof (index_item_spec rows0 c seen mi s Hinv Hc) as Hs.
  pose proof (index_item_raises_spec mi s Hids Hpos) as Hr.
  pose proof (index_item_keeps_others mi s Hids Hpos) as Hk.
  pose proof (index_item_establishes mi false s Hpos) as He.
  destruct (in_dec string_dec (rm_id mi) seen) as [Hin | Hnin].
  - rewrite (track_raises_seen _ _ _ _ _ Hinv Htr Hin) in Hr.
    destruct (MediaItems.index_item mi false s) as [[e | v] s1]; cbn [fst snd] in Hs, Hr;
      [discriminate |].
    destruct Hs as [Hc1 Hinv1]. destruct He as [Hne [[r [Hf Hm]] _]].
    split; [exact Hc1 |]. split; [exact Hinv1 |]. split; [| left; exact Hin].
    constructor.
    + intros x Hx Hxn. apply Hk; [apply (trk_keep _ _ _ Htr x Hx) |]; intros E; apply Hxn;
        [right | left]; congruence.
    + intros id [<- | Hid].
      * apply find_some in Hf as [Hr' Hre]. apply String.eqb_eq in Hre. exists r. auto.
      * destruct (string_dec id (rm_id mi)) as [-> | Hne'].
        -- apply find_some in Hf as [Hr' Hre]. apply String.eqb_eq in Hre. exists r. auto.
        -- destruct (trk_ok _ _ _ Htr id Hid) as [x [Hx [Ex Hxm]]].
           exists x. split; [apply Hk; [exact Hx | congruence] |]. auto.
    + intros [E | E]; [exact (Hne E) | exact (trk_nonempty _ _ _ Htr E)].
  - rewrite (track_raises_unseen _ _ _ _ _ Hinv Htr Hnin) in Hr.
    destruct (MediaItems.index_item mi false s) as [[e | v] s1]; cbn [fst snd] in Hs, Hr.
    + destruct Hs as [Hc1 Hw]. auto.
    + destruct Hs as [Hc1 Hinv1]. destruct He as [Hne [[r [Hf Hm]] _]].
      split; [exact Hc1 |]. split; [exact Hinv1 |]. split; [| right; exact Hr].
      constructor.
      * intros x Hx Hxn. apply Hk; [apply (trk_keep _ _ _ Htr x Hx) |]; intros E; apply Hxn;
          [right | left]; congruence.
      * intros id [<- | Hid].
        -- apply find_some in Hf as [Hr' Hre]. apply String.eqb_eq in Hre. exists r. auto.
        -- destruct (string_dec id (rm_id mi)) as [-> | Hne'].
           ++ apply find_some in Hf as [Hr' Hre]. apply String.eqb_eq in Hre. exists r. auto.
           ++ destruct (trk_ok _ _ _ Htr id Hid) as [x [Hx [Ex Hxm]]].
              exists x. split; [apply Hk; [exact Hx | congruence] |]. auto.
      * intros [E | E]; [exact (Hne E) | exact (trk_nonempty _ _ _ Htr E)].
Qed.

Lemma index_page_track rows0 c (items : list remote_media) :
  forall info s seen,
  index_inv rows0 c seen (working s) -> track_inv rows0 seen (working s) -> clock s = c ->
  match MediaItems.index_page items info s with
  | (inl _, _) => True
  | (inr _, s') =>
      clock s' = c /\
      exists seen', index_inv rows0 c seen' (working s') /\ track_inv rows0 seen' (working s') /\
        (forall id, In id seen -> In id seen') /\
        (forall mi, In mi items -> index_item_raises rows0 mi = false -> In (rm_id mi) seen') /\
        (forall id, ~ In id seen ->
           (forall mi, In mi items -> rm_id mi = id -> index_item_raises rows0 mi = true) ->
           ~ In id seen')
  end.
Proof.
  induction items as [| mi rest IH]; intros info s seen Hinv Htr Hc.
  - cbn. split; [exact Hc |]. exists seen. split; [exact Hinv |]. split; [exact Htr |].
    split; [auto |]. split; [intros mi [] | auto].
  - cbn [MediaItems.index_page]. unfold bind at 1, try_except.
    pose proof (index_item_track rows0 c seen mi s Hinv Htr Hc) as Hs.
    unfold bind at 1.
    destruct (MediaItems.index_item mi false s) as [[e | stt] s1].
    + destruct Hs as [Hw [Hc1 [Hnin Hr]]]. rewrite <- Hw in Hinv, Htr.
      unfold ret. cbv beta iota.
      specialize (IH (inc_failed info) s1 seen Hinv Htr Hc1).
      destruct (MediaItems.index_page rest (inc_failed info) s1) as [[e' | info'] s']; [exact I |].
      destruct IH as [Hc' [seen' [Hinv' [Htr' [Hsup [Hok Hko]]]]]].
      split; [exact Hc' |]. exists seen'. split; [exact Hinv' |]. split; [exact Htr' |].
      split; [exact Hsup |]. split.
      * intros mi' [<- | Hmi'] Hf; [congruence | exact (Hok mi' Hmi' Hf)].
      * intros id Hid Hall. apply Hko; [exact Hid |].
        intros mi' Hmi' E. apply Hall; [right; exact Hmi' | exact E].
    + destruct Hs as [Hc1 [Hinv1 [Htr1 Hor]]].
      unfold ret. cbv beta iota.
      set (info1 := if String.eqb stt "indexed" then inc_indexed info else inc_skipped info).
      specialize (IH info1 s1 (rm_id mi :: seen) Hinv1 Htr1 Hc1).
      destruct (MediaItems.index_page rest info1 s1) as [[e' | info'] s']; [exact I |].
      destruct IH as [Hc' [seen' [Hinv' [Htr' [Hsup [Hok Hko]]]]]].
      split; [exact Hc' |]. exists seen'. split; [exact Hinv' |]. split; [exact Htr' |].
      split; [intros id Hid; apply Hsup; right; exact Hid |]. split.
      * intros mi' [<- | Hmi'] Hf; [apply Hsup; left; reflexivity | exact (Hok mi' Hmi' Hf)].
      * intros id Hid Hall. apply Hko.
        -- intros [E | E]; [| exact (Hid E)].
           destruct Hor as [Hin | Hf]; [apply Hid; rewrite <- E; exact Hin |].
           rewrite (Hall mi (or_introl eq_refl) E) in Hf. discriminate.
        -- intros mi' Hmi' E. apply Hall; [right; exact Hmi' | exact E].
Qed.

Lemma index_pages_track rows0 c (pages : list (response remote_media)) :
  forall info s seen,
  index_inv rows0 c seen (working s) -> track_inv rows0 seen (working s) -> clock s = c ->
  match MediaItems.index_pages pages info s with
  | (inl _, _) => True
  | (inr _, s') =>
      exists seen', index_inv rows0 c seen' (working s') /\ track_inv rows0 seen' (working s') /\
        (forall id, In id seen -> In id seen') /\
        (forall mi, In mi (listed_items pages) -> index_item_raises rows0 mi = false ->
                    In (rm_id mi) seen') /\
        (forall id, ~ In id seen ->
           (forall mi, In mi (listed_items pages) -> rm_id mi = id ->
                       index_item_raises rows0 mi = true) ->
           ~ In id seen')
  end.
Proof.
  induction pages as [| p rest IH]; intros info s seen Hinv Htr Hc.
  - cbn. exists seen. split; [exact Hinv |]. split; [exact Htr |].
    split; [auto |]. split; [intros mi [] | auto].
  - destruct p as [| | items has_next].
    + exact I.
    + cbn. exists seen. split; [exact Hinv |]. split; [exact Htr |].
      split; [auto |]. split; [intros mi [] | auto].
    + cbn [MediaItems.index_pages listed_items]. unfold bind at 1.
      pose proof (index_page_track rows0 c items info s seen Hinv Htr Hc) as Hp.
      destruct (MediaItems.index_page items info s) as [[e | info1] s1]; [exact I |].
      destruct Hp as [Hc1 [seen1 [Hinv1 [Htr1 [Hsup1 [Hok1 Hko1]]]]]].
      unfold bind at 1, storage_commit.
      set (s2 := St (working s1) (working s1) (fs s1) (clock s1)).
      assert (Hinv2 : index_inv rows0 c seen1 (working s2)) by exact Hinv1.
      assert (Htr2 : track_inv rows0 seen1 (working s2)) by exact Htr1.
      assert (Hc2 : clock s2 = c) by exact Hc1.
      destruct has_next.
      * specialize (IH info1 s2 seen1 Hinv2 Htr2 Hc2).
        destruct (MediaItems.index_pages rest info1 s2) as [[e | info'] s']; [exact I |].
        destruct IH as [seen' [Hinv' [Htr' [Hsup [Hok Hko]]]]].
        exists seen'. split; [exact Hinv' |]. split; [exact Htr' |].
        split; [intros id Hid; apply Hsup, Hsup1, Hid |]. split.
        -- intros mi Hmi Hf. apply in_app_iff in Hmi as [Hmi | Hmi];
             [apply Hsup, (Hok1 mi Hmi Hf) | exact (Hok mi Hmi Hf)].
        -- intros id Hid Hall. apply Hko.
           ++ apply Hko1; [exact Hid |]. intros mi Hmi E. apply Hall; [apply in_app_iff; left |]; assumption.
           ++ intros mi Hmi E. apply Hall; [apply in_app_iff; right |]; assumption.
      * cbn. exists seen1. split; [exact Hinv1 |]. split; [exact Htr1 |].
        split; [exact Hsup1 |]. rewrite app_nil_r. split; [exact Hok1 | exact Hko1].
Qed.

(** C1 (counterexample): a rescan in which the item [m1] is present in the
    listing, but its re-index raises (its row is in [sync_error], so it is
    re-added, and its [creationTime] does not parse). The pass counts one
    failure and the closing [set_media_items_stale] marks the row of the
    present item [stale]. *)
Lemma index_items_rescan_marks_present_item_stale :
  In "m1" (listed_ids (media_items_search Fixtures.bad_remote QAll)) /\
  fst (MediaItems.index_items Fixtures.bad_remote None true Fixtures.error_state) =
    inr (IndexStats 0 0 1) /\
  map (fun r => (remote_id r, status r))
    (media_items (working (snd (MediaItems.index_items Fixtures.bad_remote None true
                                   Fixtures.error_state)))) = [("m1", "stale")].
Proof. vm_compute. split; [left; reflexivity | split; reflexivity]. Qed.

(** C1 (amended): a rescan ([rescan=True]) over a catalog with unique ids,
    whose rows were all checked before the pass's start time [check_date],
    either returns or has a listing call raise [GPhotosApiException].
    When it returns, the marking is committed and:
    - a row is [stale] exactly when its [last_checked] is earlier than
      [check_date], and every row whose item is absent from the listing is
      [stale];
    - when no per-item failure was counted, every listed item has a
      non-stale row refreshed at [check_date];
    - whatever the other items do, every listed item whose [index_item]
      succeeds has a non-stale row refreshed at [check_date];
    - a listed item whose [index_item] raises, at every place it is listed,
      keeps its initial row, which only becomes [stale] with its old
      [last_checked]; no other row holds its id.
    Whether [index_item] raises depends only on the item and the catalog's
    row for its id, which the pass changes only by indexing that item; it is
    stated on the catalog at the start of the pass.
    When a listing call raises, every [stale] row is an initial row left as
    it was: no row was newly marked. *)
Theorem index_items_rescan_staleness :
  forall (google_api : api) (li : option nat) (s : st),
    NoDup (map media_id (media_items (working s))) ->
    NoDup (map remote_id (media_items (working s))) ->
    (forall r, In r (media_items (working s)) -> 1 <= media_id r <= seq_media (working s)) ->
    (forall r, In r (media_items (working s)) -> last_checked r < clock s) ->
    let pages := media_items_search google_api QAll in
    match MediaItems.index_items google_api li true s with
    | (inr info, s') =>
        committed s' = working s' /\
        (forall r, In r (media_items (working s')) ->
           (status r = "stale" <-> last_checked r < clock s) /\
           (~ In (remote_id r) (listed_ids pages) -> status r = "stale")) /\
        (failed info = 0 -> forall id, In id (listed_ids pages) ->
           exists r, In r (media_items (working s')) /\ remote_id r = id /\
                     status r <> "stale" /\ last_checked r = clock s) /\
        (forall mi, In mi (listed_items pages) ->
           (exists v, fst (MediaItems.index_item mi false s) = inr v) ->
           exists r, In r (media_items (working s')) /\ remote_id r = rm_id mi /\
                     status r <> "stale" /\ last_checked r = clock s) /\
        (forall mi, In mi (listed_items pages) ->
           (forall mi', In mi' (listed_items pages) -> rm_id mi' = rm_id mi ->
              exists e, fst (MediaItems.index_item mi' false s) = inl e) ->
           (forall r, In r (media_items (working s')) -> remote_id r = rm_id mi ->
              exists r0, In r0 (media_items (working s)) /\
                         r = MediaItemsModel.set_status "stale" r0) /\
           (forall r0, In r0 (media_items (working s)) -> remote_id r0 = rm_id mi ->
              In (MediaItemsModel.set_status "stale" r0) (media_items (working s'))))
    | (inl e, s') =>
        (exists m, e = GPhotosApiException m) /\
        (forall r, In r (media_items (working s')) -> status r = "stale" ->
           In r (media_items (working s)))
    end.
Proof.
  intros google_api li s Hids Hrids Hseq Hlc pages.
  set (rows0 := media_items (working s)).
  assert (Hinv0 : index_inv rows0 (clock s) [] (working s)).
  { constructor; try assumption.
    - intros r Hr. left. split; [exact Hr | apply Hlc, Hr].
    - intros id []. }
  assert (Htr0 : track_inv rows0 [] (working s)).
  { constructor; [intros r Hr _; exact Hr | intros id [] | intros []]. }
  assert (Hpos : forall r, In r (media_items (working s)) -> 1 <= media_id r)
    by (intros r Hr; apply (Hseq r Hr)).
  pose proof (index_pages_spec rows0 (clock s) pages (IndexStats 0 0 0) s [] Hinv0 eq_refl) as Hp.
  pose proof (index_pages_track rows0 (clock s) pages (IndexStats 0 0 0) s [] Hinv0 Htr0 eq_refl)
    as Ht.
  assert (Hq : MediaItems.index_items google_api li true s =
               bind (MediaItems.index_pages pages (IndexStats 0 0 0))
                 (fun info => MediaItemsModel.set_media_items_stale (ArgDate (clock s)) ;;; ret tt ;;;
                              ret info) s)
    by (destruct li; reflexivity).
  rewrite Hq. unfold bind at 1.
  destruct (MediaItems.index_pages _ _ s) as [[e | info] s'].
  - destruct Hp as [He [seen' Hinv']]. split; [exact He |].
    intros r Hr Hst. destruct (inv_rows _ _ _ _ Hinv' r Hr) as [[H _] | [_ [H _]]];
      [exact H | contradiction].
  - destruct Hp as [Hc' [seen' [Hinv' [Hsub [_ [_ Hall]]]]]].
    destruct Ht as [seen2 [Hinv2 [Htr2 [_ [Hok2 Hko2]]]]].
    unfold MediaItemsModel.set_media_items_stale, execute, MediaItemsModel.set_stale_stmt, bind, ret.
    cbn [date_cond fst snd working committed MediaItemsModel.with_media_items media_items].
    split; [reflexivity |]. split; [| split; [| split]].
    + intros y Hy. apply in_map_iff in Hy as [x [<- Hx]].
      destruct (inv_rows _ _ _ _ Hinv' x Hx) as [[_ Hl] | [Hl [Hs Hin]]];
        unfold MediaItemsModel.stale_where.
      * apply Nat.ltb_lt in Hl as Hb. rewrite Hb. cbn. apply Nat.ltb_lt in Hb. tauto.
      * rewrite Hl, Nat.ltb_irrefl. split; [split; [intro E; contradiction | lia] |].
        intros Hn. exfalso. apply Hn. destruct (Hsub _ Hin) as [[] | H]. exact H.
    + intros Hf id Hid. destruct (inv_seen _ _ _ _ Hinv' id (Hall Hf id Hid))
        as [x [Hx [Ex [El Es]]]].
      exists x. split; [| auto].
      apply in_map_iff. exists x. split; [| exact Hx].
      unfold MediaItemsModel.stale_where. rewrite El, Nat.ltb_irrefl. reflexivity.
    + intros mi Hmi [v Hv].
      pose proof (index_item_raises_spec mi s Hids Hpos) as Hr. rewrite Hv in Hr.
      destruct (inv_seen _ _ _ _ Hinv2 (rm_id mi) (Hok2 mi Hmi Hr)) as [x [Hx [Ex [El Es]]]].
      exists x. split; [| auto].
      apply in_map_iff. exists x. split; [| exact Hx].
      unfold MediaItemsModel.stale_where. rewrite El, Nat.ltb_irrefl. reflexivity.
    + intros mi Hmi Hfail.
      assert (Hn : ~ In (rm_id mi) seen2).
      { apply Hko2; [intros [] |]. intros mi' Hmi' E.
        destruct (Hfail mi' Hmi' E) as [e He].
        pose proof (index_item_raises_spec mi' s Hids Hpos) as Hr. rewrite He in Hr. exact Hr. }
      split.
      * intros y Hy Ey. apply in_map_iff in Hy as [x [<- Hx]].
        destruct (inv_rows _ _ _ _ Hinv2 x Hx) as [[Hx0 Hl] | [Hl [Hs Hin]]];
          unfold MediaItemsModel.stale_where in *.
        -- apply Nat.ltb_lt in Hl. rewrite Hl. exists x. split; [exact Hx0 | reflexivity].
        -- exfalso. rewrite Hl, Nat.ltb_irrefl in Ey. apply Hn. rewrite <- Ey. exact Hin.
      * intros r0 Hr0 Er0. apply in_map_iff. exists r0. split.
        -- unfold MediaItemsModel.stale_where.
           rewrite (proj2 (Nat.ltb_lt _ _) (Hlc r0 Hr0)). reflexivity.
        -- apply (trk_keep _ _ _ Htr2 r0 Hr0). rewrite Er0. exact Hn.
Qed.

Lemma index_items_rescan_staleness_witness :
  (NoDup (map media_id (media_items (working Fixtures.error_state))) /\
   NoDup (map remote_id (media_items (working Fixtures.error_state))) /\
   (forall r, In r (media_items (working Fixtures.error_state)) ->
      1 <= media_id r <= seq_media (working Fixtures.error_state)) /\
   (forall r, In r (media_items (working Fixtures.error_state)) ->
      last_checked r < clock Fixtures.error_state)) /\
  (In Fixtures.photo2 (listed_items (media_items_search Fixtures.mixed_remote QAll)) /\
   exists v, fst (MediaItems.index_item Fixtures.photo2 false Fixtures.error_state) = inr v) /\
  (In Fixtures.bad_photo (listed_items (media_items_search Fixtures.mixed_remote QAll)) /\
   forall mi', In mi' (listed_items (media_items_search Fixtures.mixed_remote QAll)) ->
     rm_id mi' = rm_id Fixtures.bad_photo ->
     exists e, fst (MediaItems.index_item mi' false Fixtures.error_state) = inl e) /\
  match MediaItems.index_items Fixtures.mixed_remote None true Fixtures.error_state with
  | (inr info, s') =>
      committed s' = working s' /\
      (forall r, In r (media_items (working s')) ->
         (status r = "stale" <-> last_checked r < clock Fixtures.error_state) /\
         (~ In (remote_id r) (listed_ids (media_items_search Fixtures.mixed_remote QAll)) -> status r = "stale")) /\
      (failed info = 0 -> forall id, In id (listed_ids (media_items_search Fixtures.mixed_remote QAll)) ->
         exists r, In r (media_items (working s')) /\ remote_id r = id /\
                   status r <> "stale" /\ last_checked r = clock Fixtures.error_state) /\
      (forall mi, In mi (listed_items (media_items_search Fixtures.mixed_remote QAll)) ->
         (exists v, fst (MediaItems.index_item mi false Fixtures.error_state) = inr v) ->
         exists r, In r (media_items (working s')) /\ remote_id r = rm_id mi /\
                   status r <> "stale" /\ last_checked r = clock Fixtures.error_state) /\
      (forall mi, In mi (listed_items (media_items_search Fixtures.mixed_remote QAll)) ->
         (forall mi', In mi' (listed_items (media_items_search Fixtures.mixed_remote QAll)) -> rm_id mi' = rm_id mi ->
            exists e, fst (MediaItems.index_item mi' false Fixtures.error_state) = inl e) ->
         (forall r, In r (media_items (working s')) -> remote_id r = rm_id mi ->
            exists r0, In r0 (media_items (working Fixtures.error_state)) /\
                       r = MediaItemsModel.set_status "stale" r0) /\
         (forall r0, In r0 (media_items (working Fixtures.error_state)) -> remote_id r0 = rm_id mi ->
            In (MediaItemsModel.set_status "stale" r0) (media_items (working s'))))
  | (inl e, s') =>
      (exists m, e = GPhotosApiException m) /\
      (forall r, In r (media_items (working s')) -> status r = "stale" ->
         In r (media_items (working Fixtures.error_state)))
  end.
Proof.
  assert (H1 : NoDup (map media_id (media_items (working Fixtures.error_state))))
    by (cbn; repeat constructor; cbn; tauto).
  assert (H2 : NoDup (map remote_id (media_items (working Fixtures.error_state))))
    by (cbn; repeat constructor; cbn; tauto).
  assert (H3 : forall r, In r (media_items (working Fixtures.error_state)) ->
                 1 <= media_id r <= seq_media (working Fixtures.error_state))
    by (cbn; intros r [<- | []]; cbn; lia).
  assert (H4 : forall r, In r (media_items (working Fixtures.error_state)) ->
                 last_checked r < clock Fixtures.error_state)
    by (cbn; intros r [<- | []]; cbn; lia).
  split; [split; [exact H1 | split; [exact H2 | split; [exact H3 | exact H4]]] |].
  split; [split; [cbn; right; left; reflexivity | eexists; vm_compute; reflexivity] |].
  split; [split; [cbn; left; reflexivity |] |].
  { cbn. intros mi' [<- | [<- | []]] E; [eexists; vm_compute; reflexivity | discriminate]. }
  exact (index_items_rescan_staleness Fixtures.mixed_remote None Fixtures.error_state H1 H2 H3 H4).
Defined.
